(** * friday: the batch-run worker, its store and its progress broadcaster

    A shallow embedding of the Go packages [models] (batch runs, batch
    messages, drafts), [database] (the SQLite tables behind them) and
    [batch] (the worker that sends one batch at a time), followed by the
    properties of the scheduler that hold of this code.

    Conventions of the embedding.
    - A table is the list of its rows in rowid order; [INTEGER PRIMARY KEY
      AUTOINCREMENT] is a high-water mark kept beside the rows.
    - A status column is an inductive type with the constants of the Go
      source as constructors.
    - [time.Time] and [time.Duration] are [Z], in nanoseconds.
    - Every call into the outside world (clock, random source, transport,
      the SQLite driver returning an error) reads its outcome from an
      [Env] that the caller of a step supplies.
    - A channel is an index into a heap of buffers; the [subscribers] map
      of the worker holds those indices, as the Go map holds references.
    - Identifiers and counters are [Z]: they stay far from the bounds of
      int64 (SQLite does not wrap an overflowing sum). *)

From Stdlib Require Import Ascii String.
From stdpp Require Import base numbers option strings gmap list.

Local Open Scope Z_scope.

(** ** package models: rows *)

Inductive BatchRunStatus :=
  | BatchStatusQueued
  | BatchStatusRunning
  | BatchStatusCompleted
  | BatchStatusCancelled
  | BatchStatusFailed.

Global Instance BatchRunStatus_eq_dec : EqDecision BatchRunStatus.
Proof. solve_decision. Defined.

Record BatchRun := mkBatchRun {
  run_ID : Z;
  run_DraftID : Z;
  run_GroupID : Z;
  run_GroupName : string;
  run_DraftTitle : string;
  run_Status : BatchRunStatus;
  run_TotalCount : Z;
  run_SentCount : Z;
  run_FailedCount : Z;
  run_ErrorMessage : option string;
  run_StartedAt : option Z;
  run_CompletedAt : option Z;
  run_CreatedAt : Z
}.

Inductive BatchMessageStatus :=
  | MessageStatusPending
  | MessageStatusSending
  | MessageStatusSent
  | MessageStatusFailed.

Global Instance BatchMessageStatus_eq_dec : EqDecision BatchMessageStatus.
Proof. solve_decision. Defined.

Record BatchMessage := mkBatchMessage {
  msg_ID : Z;
  msg_BatchRunID : Z;
  msg_JID : string;
  msg_ContactName : option string;
  msg_Status : BatchMessageStatus;
  msg_TemplateContent : string;
  msg_SentContent : option string;
  msg_ErrorMessage : option string;
  msg_SentAt : option Z;
  msg_CreatedAt : Z
}.

Record MessageDraft := mkMessageDraft {
  draft_ID : Z;
  draft_Title : string;
  draft_Content : string
}.

(** ** package database: the tables *)

Record DB := mkDB {
  message_drafts : list MessageDraft;
  batch_runs : list BatchRun;
  batch_messages : list BatchMessage;
  batch_runs_seq : Z;
  batch_messages_seq : Z
}.

Definition with_runs (f : list BatchRun → list BatchRun) (db : DB) : DB :=
  mkDB (message_drafts db) (f (batch_runs db)) (batch_messages db)
       (batch_runs_seq db) (batch_messages_seq db).

Definition with_messages (f : list BatchMessage → list BatchMessage) (db : DB) : DB :=
  mkDB (message_drafts db) (batch_runs db) (f (batch_messages db))
       (batch_runs_seq db) (batch_messages_seq db).

(** [UPDATE t SET ... WHERE id = ?] over the rows of a table. *)
Definition update_where {A} (key : A → Z) (id : Z) (f : A → A) (rows : list A) : list A :=
  map (λ r, if bool_decide (key r = id) then f r else r) rows.

(** [SELECT ... WHERE p ORDER BY created_at ASC LIMIT 1]: the row with the
    least timestamp, the earliest rowid among equal timestamps. *)
Fixpoint oldest {A} (created : A → Z) (rows : list A) : option A :=
  match rows with
  | [] => None
  | r :: rest =>
      match oldest created rest with
      | Some r' => if bool_decide (created r' < created r) then Some r' else Some r
      | None => Some r
      end
  end.

(** ** BatchRunRepository *)

Definition run_has_status (s : BatchRunStatus) (r : BatchRun) : bool :=
  bool_decide (run_Status r = s).

Definition GetByID (db : DB) (id : Z) : option BatchRun :=
  List.find (λ r, bool_decide (run_ID r = id)) (batch_runs db).

Definition GetActive (db : DB) : option BatchRun :=
  List.find (run_has_status BatchStatusRunning) (batch_runs db).

Definition GetNextQueued (db : DB) : option BatchRun :=
  oldest run_CreatedAt (List.filter (run_has_status BatchStatusQueued) (batch_runs db)).

Definition set_run_status (s : BatchRunStatus) (r : BatchRun) : BatchRun :=
  mkBatchRun (run_ID r) (run_DraftID r) (run_GroupID r) (run_GroupName r)
    (run_DraftTitle r) s (run_TotalCount r) (run_SentCount r) (run_FailedCount r)
    (run_ErrorMessage r) (run_StartedAt r) (run_CompletedAt r) (run_CreatedAt r).

Definition set_run_started (t : Z) (r : BatchRun) : BatchRun :=
  mkBatchRun (run_ID r) (run_DraftID r) (run_GroupID r) (run_GroupName r)
    (run_DraftTitle r) (run_Status r) (run_TotalCount r) (run_SentCount r)
    (run_FailedCount r) (run_ErrorMessage r) (Some t) (run_CompletedAt r)
    (run_CreatedAt r).

Definition set_run_completed (t : Z) (r : BatchRun) : BatchRun :=
  mkBatchRun (run_ID r) (run_DraftID r) (run_GroupID r) (run_GroupName r)
    (run_DraftTitle r) (run_Status r) (run_TotalCount r) (run_SentCount r)
    (run_FailedCount r) (run_ErrorMessage r) (run_StartedAt r) (Some t)
    (run_CreatedAt r).

Definition set_run_error (e : string) (r : BatchRun) : BatchRun :=
  mkBatchRun (run_ID r) (run_DraftID r) (run_GroupID r) (run_GroupName r)
    (run_DraftTitle r) (run_Status r) (run_TotalCount r) (run_SentCount r)
    (run_FailedCount r) (Some e) (run_StartedAt r) (run_CompletedAt r)
    (run_CreatedAt r).

Definition set_run_counts (sent failed : Z) (r : BatchRun) : BatchRun :=
  mkBatchRun (run_ID r) (run_DraftID r) (run_GroupID r) (run_GroupName r)
    (run_DraftTitle r) (run_Status r) (run_TotalCount r) sent failed
    (run_ErrorMessage r) (run_StartedAt r) (run_CompletedAt r) (run_CreatedAt r).

(** [SET status = 'running', started_at = CURRENT_TIMESTAMP WHERE id = ?] *)
Definition Start (now : Z) (id : Z) : DB → DB :=
  with_runs (update_where run_ID id
    (λ r, set_run_started now (set_run_status BatchStatusRunning r))).

(** [SET status = 'completed', completed_at = CURRENT_TIMESTAMP WHERE id = ?] *)
Definition Complete (now : Z) (id : Z) : DB → DB :=
  with_runs (update_where run_ID id
    (λ r, set_run_completed now (set_run_status BatchStatusCompleted r))).

(** [SET status = 'cancelled', completed_at = CURRENT_TIMESTAMP
     WHERE id = ? AND status IN ('queued', 'running')] *)
Definition Cancel (now : Z) (id : Z) : DB → DB :=
  with_runs (update_where run_ID id
    (λ r, if run_has_status BatchStatusQueued r || run_has_status BatchStatusRunning r
          then set_run_completed now (set_run_status BatchStatusCancelled r)
          else r)).

(** [SET status = 'failed', error_message = ?, completed_at = CURRENT_TIMESTAMP
     WHERE id = ?] *)
Definition Fail (now : Z) (id : Z) (errorMessage : string) : DB → DB :=
  with_runs (update_where run_ID id
    (λ r, set_run_completed now
            (set_run_error errorMessage (set_run_status BatchStatusFailed r)))).

Definition IncrementSentCount (id : Z) : DB → DB :=
  with_runs (update_where run_ID id
    (λ r, set_run_counts (run_SentCount r + 1) (run_FailedCount r) r)).

Definition IncrementFailedCount (id : Z) : DB → DB :=
  with_runs (update_where run_ID id
    (λ r, set_run_counts (run_SentCount r) (run_FailedCount r + 1) r)).

(** [DELETE FROM batch_runs WHERE id = ? AND status != 'running'], with the
    [ON DELETE CASCADE] of batch_messages (foreign keys are switched on when
    the connection is opened). *)
Definition deletable (id : Z) (r : BatchRun) : bool :=
  bool_decide (run_ID r = id) && negb (run_has_status BatchStatusRunning r).

Definition Delete (id : Z) (db : DB) : DB * bool :=
  let gone := List.filter (deletable id) (batch_runs db) in
  match gone with
  | [] => (db, false)
  | _ =>
      (mkDB (message_drafts db)
            (List.filter (λ r, negb (deletable id r)) (batch_runs db))
            (List.filter (λ m, negb (bool_decide (msg_BatchRunID m = id)))
                         (batch_messages db))
            (batch_runs_seq db) (batch_messages_seq db),
       true)
  end.

(** [INSERT INTO batch_runs (..., sent_count, failed_count, created_at)
     VALUES (..., 0, 0, CURRENT_TIMESTAMP)]; the new id is one past the
    high-water mark. *)
Definition Create (now : Z) (draftID groupID : Z) (groupName draftTitle : string)
    (status : BatchRunStatus) (totalCount : Z) (db : DB) : DB * Z :=
  let id := batch_runs_seq db + 1 in
  let row := mkBatchRun id draftID groupID groupName draftTitle status
               totalCount 0 0 None None None now in
  (mkDB (message_drafts db) (batch_runs db ++ [row]) (batch_messages db)
        id (batch_messages_seq db),
   id).

(** ** BatchMessageRepository *)

Definition msg_has_status (s : BatchMessageStatus) (m : BatchMessage) : bool :=
  bool_decide (msg_Status m = s).

Definition in_run (batchRunID : Z) (m : BatchMessage) : bool :=
  bool_decide (msg_BatchRunID m = batchRunID).

(** [WHERE batch_run_id = ? AND status = 'pending' ORDER BY created_at ASC LIMIT 1] *)
Definition GetNextPending (db : DB) (batchRunID : Z) : option BatchMessage :=
  oldest msg_CreatedAt
    (List.filter (λ m, in_run batchRunID m && msg_has_status MessageStatusPending m)
                 (batch_messages db)).

Definition set_msg_status (s : BatchMessageStatus) (m : BatchMessage) : BatchMessage :=
  mkBatchMessage (msg_ID m) (msg_BatchRunID m) (msg_JID m) (msg_ContactName m) s
    (msg_TemplateContent m) (msg_SentContent m) (msg_ErrorMessage m) (msg_SentAt m)
    (msg_CreatedAt m).

Definition set_msg_sent (content : string) (t : Z) (m : BatchMessage) : BatchMessage :=
  mkBatchMessage (msg_ID m) (msg_BatchRunID m) (msg_JID m) (msg_ContactName m)
    (msg_Status m) (msg_TemplateContent m) (Some content) (msg_ErrorMessage m)
    (Some t) (msg_CreatedAt m).

Definition set_msg_error (e : string) (m : BatchMessage) : BatchMessage :=
  mkBatchMessage (msg_ID m) (msg_BatchRunID m) (msg_JID m) (msg_ContactName m)
    (msg_Status m) (msg_TemplateContent m) (msg_SentContent m) (Some e)
    (msg_SentAt m) (msg_CreatedAt m).

(** [UPDATE batch_messages SET status = 'sending' WHERE id = ?] *)
Definition MarkSending (id : Z) : DB → DB :=
  with_messages (update_where msg_ID id (set_msg_status MessageStatusSending)).

(** [SET status = 'sent', sent_content = ?, sent_at = CURRENT_TIMESTAMP WHERE id = ?] *)
Definition MarkSent (now : Z) (id : Z) (sentContent : string) : DB → DB :=
  with_messages (update_where msg_ID id
    (λ m, set_msg_sent sentContent now (set_msg_status MessageStatusSent m))).

(** [SET status = 'failed', error_message = ? WHERE id = ?] *)
Definition MarkFailed (id : Z) (errorMessage : string) : DB → DB :=
  with_messages (update_where msg_ID id
    (λ m, set_msg_error errorMessage (set_msg_status MessageStatusFailed m))).

(** [CreateMultiple]: one row per element, consecutive fresh ids, in one
    transaction. *)
Fixpoint new_messages (now : Z) (batchRunID : Z) (template : string) (next : Z)
    (members : list (string * option string)) : list BatchMessage :=
  match members with
  | [] => []
  | (jid, name) :: rest =>
      mkBatchMessage next batchRunID jid name MessageStatusPending template
                     None None None now
      :: new_messages now batchRunID template (next + 1) rest
  end.

Definition CreateMultiple (now : Z) (batchRunID : Z) (template : string)
    (members : list (string * option string)) (db : DB) : DB :=
  mkDB (message_drafts db) (batch_runs db)
       (batch_messages db
        ++ new_messages now batchRunID template (batch_messages_seq db + 1) members)
       (batch_runs_seq db)
       (batch_messages_seq db + Z.of_nat (length members)).

(** ** DraftRepository *)

Definition DraftGetByID (db : DB) (id : Z) : option MessageDraft :=
  List.find (λ d, bool_decide (draft_ID d = id)) (message_drafts db).

(** ** package batch: events, channels, the environment of a step *)

Record MessageInfo := mkMessageInfo {
  mi_JID : string;
  mi_ContactName : string;
  mi_SentContent : string;
  mi_SentAt : Z;
  mi_Status : string;
  mi_Error : string
}.

Record ProgressEvent := mkProgressEvent {
  ev_Type : string;
  ev_BatchID : Z;
  ev_Status : string;
  ev_TotalCount : Z;
  ev_SentCount : Z;
  ev_FailedCount : Z;
  ev_CurrentContact : string;
  ev_NextSendInSeconds : Z;
  ev_LastMessage : option MessageInfo;
  ev_ErrorMessage : string
}.

(** [string(run.Status)] *)
Definition status_string (s : BatchRunStatus) : string :=
  match s with
  | BatchStatusQueued => "queued"
  | BatchStatusRunning => "running"
  | BatchStatusCompleted => "completed"
  | BatchStatusCancelled => "cancelled"
  | BatchStatusFailed => "failed"
  end.

(** A buffered channel made by [make(chan *ProgressEvent, n)]. *)
Record Chan := mkChan {
  ch_cap : nat;
  ch_buf : list ProgressEvent
}.

Definition make_chan (n : nat) : Chan := mkChan n [].

(** [ch <- ev]: proceeds when the buffer has room; [None] is the sender
    blocked. *)
Definition chan_send (ev : ProgressEvent) (ch : Chan) : option Chan :=
  if bool_decide (length (ch_buf ch) < ch_cap ch)%nat
  then Some (mkChan (ch_cap ch) (ch_buf ch ++ [ev]))
  else None.

(** [select { case ch <- ev: default: }] *)
Definition select_send (ev : ProgressEvent) (ch : Chan) : Chan :=
  match chan_send ev ch with
  | Some ch' => ch'
  | None => ch
  end.

(** [<-ch] by a reader of the channel. *)
Definition chan_recv (ch : Chan) : Chan * option ProgressEvent :=
  match ch_buf ch with
  | [] => (ch, None)
  | ev :: rest => (mkChan (ch_cap ch) rest, Some ev)
  end.

(** The store calls of the worker; a call listed in [env_faults] returns a
    driver error during the step and leaves the tables alone. *)
Inductive StoreCall :=
  | SC_GetActive | SC_GetNextQueued | SC_DraftGetByID | SC_Start | SC_Fail
  | SC_GetNextPending | SC_MarkSending | SC_MarkSent | SC_MarkFailed
  | SC_IncrementSentCount | SC_IncrementFailedCount | SC_Complete | SC_Cancel
  | SC_GetByID | SC_GetAllForContact | SC_Create | SC_CreateMultiple.

Global Instance StoreCall_eq_dec : EqDecision StoreCall.
Proof. solve_decision. Defined.

Record Env := mkEnv {
  env_now : Z;               (* time.Now() and CURRENT_TIMESTAMP during the step *)
  env_now_after_send : Z;    (* time.Now() once the transport call has returned *)
  env_rand : Z;              (* the 63-bit value the random source draws *)
  env_connected : bool;      (* waClient.IsConnected() *)
  env_send : option string;  (* waClient.SendMessage: None is a nil error *)
  env_fill : string → string → string;
                             (* jid, content: FillPlaceholders(content, values of jid) *)
  env_driver_error : string; (* the text of a driver error *)
  env_faults : list StoreCall
}.

Definition fails (e : Env) (c : StoreCall) : bool := bool_decide (c ∈ env_faults e).

(** A store write whose error the caller may or may not look at. *)
Definition exec (e : Env) (c : StoreCall) (f : DB → DB) (db : DB) : DB :=
  if fails e c then db else f db.

(** ** time *)

Definition Millisecond : Z := 1000000.
Definition Second : Z := 1000 * Millisecond.
Definition minDuration : Z := - 2 ^ 63.
Definition maxDuration : Z := 2 ^ 63 - 1.

(** [t.Sub(u)], which saturates at the ends of [Duration]. *)
Definition time_Sub (t u : Z) : Z := Z.max minDuration (Z.min maxDuration (t - u)).

(** [time.Until(t)] *)
Definition time_Until (now t : Z) : Z := time_Sub t now.

(** [int(d.Seconds())]: the conversion truncates toward zero.  ([Seconds]
    is a float64; it is exact to the whole second for durations as short as
    the ones the pacer produces.) *)
Definition whole_seconds (d : Z) : Z := Z.quot d Second.

(** The zero [time.Time] (January 1, year 1), as nanoseconds before the epoch. *)
Definition zero_time : Z := - 62135596800 * Second.

(** [rand.Int63n(n)] for [n > 0]: the non-negative 63-bit draw [v] that the
    function accepts, reduced to [v % n]. *)
Definition Int63n (v n : Z) : Z := v mod n.

(** ** the worker *)

Record ActiveBatchState := mkActiveBatchState {
  BatchID : Z;
  DraftContent : string;
  CurrentJID : string;
  CurrentName : string
}.

(** A goroutine started with [go] that has not finished.  [checkQueue] is
    kept with the point it has reached, so that it can be interleaved with
    the ticker between any two of its lock sections and store calls. *)
Inductive CheckQueuePC :=
  | CQ_entry
  | CQ_query
  | SB_entry (run : BatchRun)
  | SB_start (run : BatchRun) (draft : MessageDraft)
  | SB_assign (run : BatchRun) (draft : MessageDraft)
  | SB_schedule (run : BatchRun)
  | SB_broadcast (run : BatchRun).

(** The goroutines that have not finished: the two the worker starts with
    [go], and a create handler that has inserted its run and has its
    messages still to insert. *)
Inductive Detached :=
  | GoBroadcastEvent (batchID : Z) (event : ProgressEvent)
  | GoCheckQueue (pc : CheckQueuePC)
  | GoCreateMessages (batchRunID : Z) (template : string)
                     (members : list (string * option string)).

Record Worker := mkWorker {
  store : DB;
  currentRun : option ActiveBatchState;
  nextSendAt : Z;
  subscribers : gmap Z (list nat);
  heap : list Chan;
  goroutines : list Detached
}.

Definition NewWorker (db : DB) : Worker :=
  mkWorker db None zero_time ∅ [] [].

Definition with_store (f : DB → DB) (w : Worker) : Worker :=
  mkWorker (f (store w)) (currentRun w) (nextSendAt w) (subscribers w) (heap w)
           (goroutines w).

Definition set_currentRun (c : option ActiveBatchState) (w : Worker) : Worker :=
  mkWorker (store w) c (nextSendAt w) (subscribers w) (heap w) (goroutines w).

Definition set_nextSendAt (t : Z) (w : Worker) : Worker :=
  mkWorker (store w) (currentRun w) t (subscribers w) (heap w) (goroutines w).

Definition set_heap (h : list Chan) (w : Worker) : Worker :=
  mkWorker (store w) (currentRun w) (nextSendAt w) (subscribers w) h (goroutines w).

Definition set_subscribers (s : gmap Z (list nat)) (w : Worker) : Worker :=
  mkWorker (store w) (currentRun w) (nextSendAt w) s (heap w) (goroutines w).

Definition set_goroutines (g : list Detached) (w : Worker) : Worker :=
  mkWorker (store w) (currentRun w) (nextSendAt w) (subscribers w) (heap w) g.

(** *** the progress broadcaster *)

Definition subscribers_of (w : Worker) (batchID : Z) : list nat :=
  default [] (subscribers w !! batchID).

Definition heap_send (ev : ProgressEvent) (h : list Chan) (c : nat) : list Chan :=
  match h !! c with
  | Some ch => <[c := select_send ev ch]> h
  | None => h
  end.

Definition Subscribe (batchID : Z) (w : Worker) : Worker * nat :=
  let ch := length (heap w) in
  (set_subscribers (<[batchID := subscribers_of w batchID ++ [ch]]> (subscribers w))
     (set_heap (heap w ++ [make_chan 10]) w),
   ch).

Fixpoint remove_first (ch : nat) (subs : list nat) : list nat :=
  match subs with
  | [] => []
  | c :: rest => if bool_decide (c = ch) then rest else c :: remove_first ch rest
  end.

(** [close(ch)] is the last use of a channel that has just left the map:
    no registered channel is closed, and the model keeps no closed flag. *)
Definition Unsubscribe (batchID : Z) (ch : nat) (w : Worker) : Worker :=
  if bool_decide (ch ∈ subscribers_of w batchID)
  then set_subscribers
         (<[batchID := remove_first ch (subscribers_of w batchID)]> (subscribers w)) w
  else w.

Definition broadcastEvent (batchID : Z) (event : ProgressEvent) (w : Worker) : Worker :=
  set_heap (foldl (heap_send event) (heap w) (subscribers_of w batchID)) w.

Definition GetProgress (batchID : Z) (e : Env) (w : Worker) : string + ProgressEvent :=
  if fails e SC_GetByID then inl (env_driver_error e)
  else
    match GetByID (store w) batchID with
    | None => inl "batch not found"
    | Some run =>
        let currentName :=
          match currentRun w with
          | Some c => if bool_decide (BatchID c = batchID) then CurrentName c else ""
          | None => ""
          end in
        let nextSendSeconds :=
          if bool_decide (run_Status run = BatchStatusRunning)
          then
            let n := whole_seconds (time_Until (env_now e) (nextSendAt w)) in
            if bool_decide (n < 0) then 0 else n
          else 0 in
        inr (mkProgressEvent "progress" batchID (status_string (run_Status run))
               (run_TotalCount run) (run_SentCount run) (run_FailedCount run)
               currentName nextSendSeconds None "")
    end.

Definition broadcastProgress (batchID : Z) (e : Env) (w : Worker) : Worker :=
  match GetProgress batchID e w with
  | inl _ => w
  | inr progress => broadcastEvent batchID progress w
  end.

(** *** the pacer *)

Definition minDelay : Z := 10 * Second.
Definition maxDelay : Z := 15 * Second.

(** The delay [scheduleNextMessage] computes from the draw [v]. *)
Definition pacer_delay (v : Z) : Z :=
  let delta := maxDelay - minDelay in
  let randomMs := Int63n v (delta / Millisecond) in
  minDelay + randomMs * Millisecond.

(** [now] is the clock read by [time.Now()] inside the function. *)
Definition scheduleNextMessage (now : Z) (e : Env) (w : Worker) : Worker :=
  set_nextSendAt (now + pacer_delay (env_rand e)) w.

(** *** starting a run *)

Definition startBatch (run : BatchRun) (e : Env) (w : Worker) : Worker :=
  match (if fails e SC_DraftGetByID then None
         else DraftGetByID (store w) (run_DraftID run)) with
  | None =>
      with_store (exec e SC_Fail (Fail (env_now e) (run_ID run) "Draft not found")) w
  | Some draft =>
      if fails e SC_Start then w
      else
        let w1 := with_store (Start (env_now e) (run_ID run)) w in
        let w2 := set_currentRun
                    (Some (mkActiveBatchState (run_ID run) (draft_Content draft) "" ""))
                    w1 in
        let w3 := scheduleNextMessage (env_now e) e w2 in
        broadcastProgress (run_ID run) e w3
  end.

Definition checkQueue (e : Env) (w : Worker) : Worker :=
  match currentRun w with
  | Some _ => w
  | None =>
      if fails e SC_GetNextQueued then w
      else
        match GetNextQueued (store w) with
        | Some queued => startBatch queued e w
        | None => w
        end
  end.

Definition resumeIncompleteRuns (e : Env) (w : Worker) : Worker :=
  if fails e SC_GetActive then w
  else
    match GetActive (store w) with
    | Some active => startBatch active e w
    | None => checkQueue e w
    end.

(** *** dispatching one message *)

Fixpoint extractPhone (jid : string) : string :=
  match jid with
  | EmptyString => EmptyString
  | String c rest =>
      if Ascii.eqb c "@"%char then EmptyString else String c (extractPhone rest)
  end.

(** The counters and status an outcome event carries: read back from the
    store, zero and empty when the read returns no run. *)
Definition outcome_event (kind : string) (batchID : Z) (info : MessageInfo)
    (e : Env) (w : Worker) : ProgressEvent :=
  match (if fails e SC_GetByID then None else GetByID (store w) batchID) with
  | Some run =>
      mkProgressEvent kind batchID (status_string (run_Status run))
        (run_TotalCount run) (run_SentCount run) (run_FailedCount run) "" 0
        (Some info) ""
  | None => mkProgressEvent kind batchID "" 0 0 0 "" 0 (Some info) ""
  end.

Definition markMessageSent (batchID : Z) (msg : BatchMessage)
    (sentContent contactName : string) (e : Env) (w : Worker) : Worker :=
  let w1 := with_store
              (exec e SC_MarkSent (MarkSent (env_now_after_send e) (msg_ID msg) sentContent))
              w in
  let w2 := with_store (exec e SC_IncrementSentCount (IncrementSentCount batchID)) w1 in
  broadcastEvent batchID
    (outcome_event "message_sent" batchID
       (mkMessageInfo (msg_JID msg) contactName sentContent (env_now_after_send e)
                      "sent" "")
       e w2)
    w2.

Definition markMessageFailed (batchID : Z) (msg : BatchMessage)
    (errorMessage : string) (e : Env) (w : Worker) : Worker :=
  let w1 := with_store (exec e SC_MarkFailed (MarkFailed (msg_ID msg) errorMessage)) w in
  let w2 := with_store (exec e SC_IncrementFailedCount (IncrementFailedCount batchID)) w1 in
  let contactName := default "" (msg_ContactName msg) in
  broadcastEvent batchID
    (outcome_event "message_failed" batchID
       (mkMessageInfo (msg_JID msg) contactName "" (env_now_after_send e)
                      "failed" errorMessage)
       e w2)
    w2.

(** [state] is the pointer the tick read from [w.currentRun]; within one
    tick the two name the same object, so the assignment to its fields shows
    through [currentRun]. *)
Definition sendMessage (state : ActiveBatchState) (msg : BatchMessage)
    (e : Env) (w : Worker) : Worker :=
  let contactName :=
    match msg_ContactName msg with
    | Some n => n
    | None => extractPhone (msg_JID msg)
    end in
  let w1 := set_currentRun
              (Some (mkActiveBatchState (BatchID state) (DraftContent state)
                                        (msg_JID msg) contactName))
              w in
  let w2 := with_store (exec e SC_MarkSending (MarkSending (msg_ID msg))) w1 in
  let w3 := broadcastProgress (BatchID state) e w2 in
  if fails e SC_GetAllForContact then
    let w4 := markMessageFailed (BatchID state) msg
                ("Failed to get placeholder values: " +:+ env_driver_error e) e w3 in
    scheduleNextMessage (env_now_after_send e) e w4
  else
    let sentContent := env_fill e (msg_JID msg) (DraftContent state) in
    match env_send e with
    | Some err =>
        let w4 := markMessageFailed (BatchID state) msg ("Send failed: " +:+ err) e w3 in
        scheduleNextMessage (env_now_after_send e) e w4
    | None =>
        let w4 := markMessageSent (BatchID state) msg sentContent contactName e w3 in
        scheduleNextMessage (env_now_after_send e) e w4
    end.

Definition completeBatch (batchID : Z) (e : Env) (w : Worker) : Worker :=
  let w1 := with_store (exec e SC_Complete (Complete (env_now e) batchID)) w in
  let w2 := set_currentRun None w1 in
  let w3 := broadcastEvent batchID
              (mkProgressEvent "completed" batchID "completed" 0 0 0 "" 0 None "")
              w2 in
  checkQueue e w3.

Definition disconnected_event (batchID : Z) : ProgressEvent :=
  mkProgressEvent "error" batchID "" 0 0 0 "" 0 None
    "WhatsApp disconnected - waiting for reconnection".

Definition processNextMessage (e : Env) (w : Worker) : Worker :=
  match currentRun w with
  | None => checkQueue e w
  | Some current =>
      if bool_decide (env_now e < nextSendAt w) then
        broadcastProgress (BatchID current) e w
      else if negb (env_connected e) then
        broadcastEvent (BatchID current) (disconnected_event (BatchID current)) w
      else if fails e SC_GetNextPending then w
      else
        match GetNextPending (store w) (BatchID current) with
        | None => completeBatch (BatchID current) e w
        | Some msg => sendMessage current msg e w
        end
  end.

(** *** cancelling *)

Definition cancelled_event (batchID : Z) : ProgressEvent :=
  mkProgressEvent "cancelled" batchID "cancelled" 0 0 0 "" 0 None "".

(** The two [go] statements leave their goroutines in [goroutines]; the
    second component is the error returned to the caller. *)
Definition CancelBatch (batchID : Z) (e : Env) (w : Worker) : Worker * option string :=
  let w1 :=
    match currentRun w with
    | Some c => if bool_decide (BatchID c = batchID) then set_currentRun None w else w
    | None => w
    end in
  if fails e SC_Cancel then (w1, Some (env_driver_error e))
  else
    let w2 := with_store (Cancel (env_now e) batchID) w1 in
    (set_goroutines
       (goroutines w2
        ++ [GoBroadcastEvent batchID (cancelled_event batchID); GoCheckQueue CQ_entry])
       w2,
     None).



(** *** a detached [checkQueue], one lock section or store call at a time *)

Definition checkQueue_step (e : Env) (pc : CheckQueuePC) (w : Worker)
    : Worker * option CheckQueuePC :=
  match pc with
  | CQ_entry =>
      match currentRun w with
      | Some _ => (w, None)
      | None => (w, Some CQ_query)
      end
  | CQ_query =>
      if fails e SC_GetNextQueued then (w, None)
      else
        match GetNextQueued (store w) with
        | Some queued => (w, Some (SB_entry queued))
        | None => (w, None)
        end
  | SB_entry run =>
      match (if fails e SC_DraftGetByID then None
             else DraftGetByID (store w) (run_DraftID run)) with
      | None =>
          (with_store (exec e SC_Fail (Fail (env_now e) (run_ID run) "Draft not found")) w,
           None)
      | Some draft => (w, Some (SB_start run draft))
      end
  | SB_start run draft =>
      if fails e SC_Start then (w, None)
      else (with_store (Start (env_now e) (run_ID run)) w, Some (SB_assign run draft))
  | SB_assign run draft =>
      (set_currentRun
         (Some (mkActiveBatchState (run_ID run) (draft_Content draft) "" "")) w,
       Some (SB_schedule run))
  | SB_schedule run => (scheduleNextMessage (env_now e) e w, Some (SB_broadcast run))
  | SB_broadcast run => (broadcastProgress (run_ID run) e w, None)
  end.

Fixpoint checkQueue_run (fuel : nat) (e : Env) (pc : CheckQueuePC) (w : Worker) : Worker :=
  match fuel with
  | O => w
  | S n =>
      match checkQueue_step e pc w with
      | (w', Some pc') => checkQueue_run n e pc' w'
      | (w', None) => w'
      end
  end.

(** ** the callers of the worker: HTTP handlers *)

(** The create handler makes two writes, [batchRepo.Create] and, after it has
    looked up a contact name for every member, [msgRepo.CreateMultiple]; each
    is its own transaction, and the worker, the other handlers and the death
    of the process can fall between the two.

    [createBatch_run] is the handler up to and including [batchRepo.Create].
    [members] is what [memberRepo.GetByGroup] returned, each JID with the
    contact name the loop finds for it (the member count the handler tests
    before is read as the length of that list); the draft must be there and
    the group must have members.  The result is the run inserted as [queued],
    with the identifier and the template the rest of the handler goes on
    with. *)
Definition createBatch_run (draftID groupID : Z) (groupName : string)
    (members : list (string * option string)) (e : Env) (w : Worker)
    : Worker * option (Z * string) :=
  match (if fails e SC_DraftGetByID then None
         else DraftGetByID (store w) draftID) with
  | None => (w, None)
  | Some draft =>
      match members with
      | [] => (w, None)
      | _ =>
          if fails e SC_Create then (w, None)
          else
            let '(db1, id) :=
              Create (env_now e) draftID groupID groupName (draft_Title draft)
                     BatchStatusQueued (Z.of_nat (length members)) (store w) in
            (with_store (λ _, db1) w, Some (id, draft_Content draft))
      end
  end.

(** The rest of the handler: [msgRepo.CreateMultiple] for the run, and
    [batchRepo.Delete] of the run when the insert fails.  The insert fails on
    a driver error and when the run is gone ([batch_run_id] is a foreign key
    into [batch_runs] and foreign keys are enforced). *)
Definition createBatch_messages (batchRunID : Z) (template : string)
    (members : list (string * option string)) (e : Env) (w : Worker) : Worker :=
  match (if fails e SC_CreateMultiple then None
         else GetByID (store w) batchRunID) with
  | Some _ => with_store (CreateMultiple (env_now e) batchRunID template members) w
  | None => with_store (λ db, fst (Delete batchRunID db)) w
  end.

(** [createBatch] when nothing falls between the two writes. *)
Definition createBatch (draftID groupID : Z) (groupName : string)
    (members : list (string * option string)) (e : Env) (w : Worker) : Worker :=
  match createBatch_run draftID groupID groupName members e w with
  | (w1, Some (id, template)) => createBatch_messages id template members e w1
  | (w1, None) => w1
  end.

Definition deleteBatch (id : Z) (w : Worker) : Worker :=
  with_store (λ db, fst (Delete id db)) w.

Definition receive (ch : nat) (w : Worker) : Worker :=
  match heap w !! ch with
  | Some c => set_heap (<[ch := fst (chan_recv c)]> (heap w)) w
  | None => w
  end.

(** ** the system: what can happen between two observations *)

(** Where inside [sendMessage] the process dies. *)
Inductive CrashPoint :=
  | CP_sending   (* after MarkSending *)
  | CP_marked.   (* after MarkSent or MarkFailed, before the counter is incremented *)

(** The store a dispatch leaves behind when the process dies at [p]. *)
Definition interrupted_dispatch (p : CrashPoint) (e : Env) (w : Worker) : DB :=
  match currentRun w with
  | None => store w
  | Some current =>
      if bool_decide (env_now e < nextSendAt w) || negb (env_connected e)
         || fails e SC_GetNextPending
      then store w
      else
        match GetNextPending (store w) (BatchID current) with
        | None => store w
        | Some msg =>
            let db1 := exec e SC_MarkSending (MarkSending (msg_ID msg)) (store w) in
            match p with
            | CP_sending => db1
            | CP_marked =>
                if fails e SC_GetAllForContact then
                  exec e SC_MarkFailed
                    (MarkFailed (msg_ID msg)
                       ("Failed to get placeholder values: " +:+ env_driver_error e))
                    db1
                else
                  match env_send e with
                  | Some err =>
                      exec e SC_MarkFailed
                        (MarkFailed (msg_ID msg) ("Send failed: " +:+ err)) db1
                  | None =>
                      exec e SC_MarkSent
                        (MarkSent (env_now_after_send e) (msg_ID msg)
                           (env_fill e (msg_JID msg) (DraftContent current)))
                        db1
                  end
            end
        end
  end.

(** The steps of the system.  [DoCreate] is a create handler that runs from
    its first write to its last with nothing in between; [DoCreateRun] and
    [FinishCreate] are its two halves, for the executions in which something
    does fall between them.  [RunDetached] and [StepDetached] run the
    goroutines the worker has started and leave a handler alone.  [Restart]
    is the death of the process followed by its start: the goroutines,
    handlers included, are lost. *)
Inductive Action :=
  | Tick (e : Env)
  | DoCancel (batchID : Z) (e : Env)
  | RunDetached (i : nat) (e : Env)
  | StepDetached (i : nat) (e : Env)
  | DoCreate (draftID groupID : Z) (groupName : string)
             (members : list (string * option string)) (e : Env)
  | DoDelete (batchID : Z)
  | DoSetDrafts (drafts : list MessageDraft)
  | DoSubscribe (batchID : Z)
  | DoUnsubscribe (batchID : Z) (ch : nat)
  | DoReceive (ch : nat)
  | Restart (e : Env)
  | DieInDispatch (p : CrashPoint) (e : Env)
  | DoCreateRun (draftID groupID : Z) (groupName : string)
                (members : list (string * option string)) (e : Env)
  | FinishCreate (i : nat) (e : Env).

Definition set_drafts (drafts : list MessageDraft) (db : DB) : DB :=
  mkDB drafts (batch_runs db) (batch_messages db) (batch_runs_seq db)
       (batch_messages_seq db).

Definition exec_action (a : Action) (w : Worker) : Worker :=
  match a with
  | Tick e => processNextMessage e w
  | DoCancel batchID e => fst (CancelBatch batchID e w)
  | RunDetached i e =>
      match goroutines w !! i with
      | None => w
      | Some g =>
          let w' := set_goroutines (delete i (goroutines w)) w in
          match g with
          | GoBroadcastEvent batchID ev => broadcastEvent batchID ev w'
          | GoCheckQueue pc => checkQueue_run 7 e pc w'
          | GoCreateMessages _ _ _ => w
          end
      end
  | StepDetached i e =>
      match goroutines w !! i with
      | None => w
      | Some (GoBroadcastEvent batchID ev) =>
          broadcastEvent batchID ev (set_goroutines (delete i (goroutines w)) w)
      | Some (GoCheckQueue pc) =>
          match checkQueue_step e pc w with
          | (w1, Some pc') =>
              set_goroutines (<[i := GoCheckQueue pc']> (goroutines w1)) w1
          | (w1, None) => set_goroutines (delete i (goroutines w1)) w1
          end
      | Some (GoCreateMessages _ _ _) => w
      end
  | DoCreate draftID groupID groupName members e =>
      createBatch draftID groupID groupName members e w
  | DoDelete batchID => deleteBatch batchID w
  | DoSetDrafts drafts => with_store (set_drafts drafts) w
  | DoSubscribe batchID => fst (Subscribe batchID w)
  | DoUnsubscribe batchID ch => Unsubscribe batchID ch w
  | DoReceive ch => receive ch w
  | Restart e => resumeIncompleteRuns e (NewWorker (store w))
  | DieInDispatch p e => resumeIncompleteRuns e (NewWorker (interrupted_dispatch p e w))
  | DoCreateRun draftID groupID groupName members e =>
      match createBatch_run draftID groupID groupName members e w with
      | (w1, Some (id, template)) =>
          set_goroutines (goroutines w1 ++ [GoCreateMessages id template members]) w1
      | (w1, None) => w1
      end
  | FinishCreate i e =>
      match goroutines w !! i with
      | Some (GoCreateMessages id template members) =>
          createBatch_messages id template members e
            (set_goroutines (delete i (goroutines w)) w)
      | _ => w
      end
  end.

Definition run_trace (tr : list Action) (w : Worker) : Worker :=
  foldl (λ w a, exec_action a w) w tr.

(** A freshly migrated database holding some drafts, and the worker [main]
    constructs over it. *)
Definition fresh_db (drafts : list MessageDraft) : DB := mkDB drafts [] [] 0 0.

Definition initial (drafts : list MessageDraft) : Worker := NewWorker (fresh_db drafts).

Definition action_env (a : Action) : option Env :=
  match a with
  | Tick e | DoCancel _ e | RunDetached _ e | StepDetached _ e
  | DoCreate _ _ _ _ e | Restart e | DieInDispatch _ e
  | DoCreateRun _ _ _ _ e | FinishCreate _ e => Some e
  | _ => None
  end.

(** No store call of the step returns a driver error. *)
Definition reliable (a : Action) : bool :=
  match action_env a with
  | Some e => bool_decide (env_faults e = [])
  | None => true
  end.

(** Goroutines are not interleaved: a detached goroutine, and the create
    handler, runs from its start to its end between two other steps. *)
Definition serial (a : Action) : bool :=
  match a with
  | StepDetached _ _ | DoCreateRun _ _ _ _ _ | FinishCreate _ _ => false
  | _ => true
  end.

(** The process does not die in the middle of a dispatch. *)
Definition uninterrupted (a : Action) : bool :=
  match a with
  | DieInDispatch _ _ => false
  | _ => true
  end.

(** Nothing falls between the two writes of a create handler: the step is
    not one half of a creation. *)
Definition undivided (a : Action) : bool :=
  match a with
  | DoCreateRun _ _ _ _ _ | FinishCreate _ _ => false
  | _ => true
  end.

Definition count_running (db : DB) : nat :=
  length (List.filter (run_has_status BatchStatusRunning) (batch_runs db)).

(** *** a few concrete values used by the examples *)

Definition env_at (t : Z) (connected : bool) (send : option string) : Env :=
  mkEnv t t 0 connected send (λ _ content, content) "driver error" [].

Definition draft1 : MessageDraft := mkMessageDraft 1 "hello" "Hi {{name}}".

(** ** vocabulary: statuses of a run and of a message *)

(** The statuses from which [Cancel] writes. *)
Definition cancellable (r : BatchRun) : Prop :=
  run_Status r = BatchStatusQueued ∨ run_Status r = BatchStatusRunning.

(** The row [Cancel] writes over a cancellable row. *)
Definition cancelled_row (now : Z) (r : BatchRun) : BatchRun :=
  set_run_completed now (set_run_status BatchStatusCancelled r).

(** The transitions of a message: pending -> sending -> sent | failed. *)
Inductive msg_step : BatchMessageStatus → BatchMessageStatus → Prop :=
  | step_pending_sending : msg_step MessageStatusPending MessageStatusSending
  | step_sending_sent : msg_step MessageStatusSending MessageStatusSent
  | step_sending_failed : msg_step MessageStatusSending MessageStatusFailed.

(** The outcomes of a dispatch. *)
Definition msg_terminal (s : BatchMessageStatus) : Prop :=
  s = MessageStatusSent ∨ s = MessageStatusFailed.

(** The same row before and after: its status has moved along [msg_step]
    zero or more times, and a row that was [sent] or [failed] is untouched. *)
Definition row_forward (m m' : BatchMessage) : Prop :=
  msg_ID m' = msg_ID m
  ∧ msg_BatchRunID m' = msg_BatchRunID m
  ∧ rtc msg_step (msg_Status m) (msg_Status m')
  ∧ (msg_terminal (msg_Status m) → m' = m).

(** The steps the scheduler takes (as opposed to the handlers that create
    and delete runs). *)
Definition scheduler_step (a : Action) : bool :=
  match a with
  | Tick _ | DoCancel _ _ | RunDetached _ _ | StepDetached _ _
  | Restart _ | DieInDispatch _ _ => true
  | _ => false
  end.

(** The rows [id] names are still on their way ([pending] or [sending]). *)
Definition in_flight (id : Z) (rows : list BatchMessage) : Prop :=
  ∀ m, m ∈ rows → msg_ID m = id →
       msg_Status m = MessageStatusPending ∨ msg_Status m = MessageStatusSending.

(** ** vocabulary: the counters of a run against its message rows *)

(** 1 when [m] belongs to run [id] and has status [s]. *)
Definition ind (id : Z) (s : BatchMessageStatus) (m : BatchMessage) : Z :=
  if in_run id m && msg_has_status s m then 1 else 0.

(** The number of rows of run [id] with status [s]. *)
Fixpoint cnt (id : Z) (s : BatchMessageStatus) (rows : list BatchMessage) : Z :=
  match rows with
  | [] => 0
  | m :: rest => ind id s m + cnt id s rest
  end.

(** What the counters of a run say about its message rows.  The first three
    clauses hold whenever the store accepts its writes: a run has at most as
    many rows as its total (it has none between the two writes of the handler
    that creates it).  The [strong] clauses hold as long as no dispatch has
    been cut short by the death of the process and no creation has been
    overtaken between its two writes. *)
Definition counts_ok (strong : bool) (msgs : list BatchMessage) (r : BatchRun) : Prop :=
  let id := run_ID r in
  0 ≤ run_SentCount r ≤ cnt id MessageStatusSent msgs
  ∧ 0 ≤ run_FailedCount r ≤ cnt id MessageStatusFailed msgs
  ∧ cnt id MessageStatusPending msgs + cnt id MessageStatusSending msgs
    + cnt id MessageStatusSent msgs + cnt id MessageStatusFailed msgs
    ≤ run_TotalCount r
  ∧ (strong = true →
       run_SentCount r = cnt id MessageStatusSent msgs
       ∧ run_FailedCount r = cnt id MessageStatusFailed msgs
       ∧ cnt id MessageStatusSending msgs = 0
       ∧ (run_Status r = BatchStatusCompleted → cnt id MessageStatusPending msgs = 0)
       ∧ run_TotalCount r
         = cnt id MessageStatusPending msgs + cnt id MessageStatusSending msgs
           + cnt id MessageStatusSent msgs + cnt id MessageStatusFailed msgs).

(** The invariant of the store: primary keys are unique and below their
    high-water marks, and the counters of every run agree with its rows. *)
Record db_inv (strong : bool) (db : DB) : Prop := mk_db_inv {
  inv_msg_ids : NoDup (msg_ID <$> batch_messages db);
  inv_run_ids : NoDup (run_ID <$> batch_runs db);
  inv_run_seq : ∀ r, r ∈ batch_runs db → run_ID r ≤ batch_runs_seq db;
  inv_msg_seq : ∀ m, m ∈ batch_messages db →
                  msg_ID m ≤ batch_messages_seq db
                  ∧ msg_BatchRunID m ≤ batch_runs_seq db;
  inv_counts : ∀ r, r ∈ batch_runs db → counts_ok strong (batch_messages db) r
}.

(** A write that changes neither the identity nor the counters of a run,
    and does not mark it [completed]. *)
Definition keeps_counts (g : BatchRun → BatchRun) : Prop :=
  ∀ r, run_ID (g r) = run_ID r
       ∧ run_SentCount (g r) = run_SentCount r
       ∧ run_FailedCount (g r) = run_FailedCount r
       ∧ run_TotalCount (g r) = run_TotalCount r
       ∧ (run_Status (g r) = BatchStatusCompleted → run_Status r = BatchStatusCompleted).

(** 1 when the two statuses are the same. *)
Definition is_status (s t : BatchMessageStatus) : Z :=
  if bool_decide (s = t) then 1 else 0.

(** ** vocabulary: the active run against the store *)

(** Every [running] row is the run the worker holds as active. *)
Definition coupled_at (cur : option Z) (runs : list BatchRun) : Prop :=
  ∀ r, r ∈ runs → run_Status r = BatchStatusRunning → cur = Some (run_ID r).

(** [coupled_at] for the active run and the store of a worker. *)
Definition coupled (w : Worker) : Prop :=
  coupled_at (BatchID <$> currentRun w) (batch_runs (store w)).

(** All [running] rows carry the identifier [id]. *)
Definition running_only (id : Z) (runs : list BatchRun) : Prop :=
  ∀ r, r ∈ runs → run_Status r = BatchStatusRunning → run_ID r = id.

(** No detached [checkQueue] is stopped half-way. *)
Definition entry_only (w : Worker) : Prop :=
  ∀ pc, GoCheckQueue pc ∈ goroutines w → pc = CQ_entry.

(** The scheduler invariant of executions whose steps do not interleave. *)
Definition sched_inv (w : Worker) : Prop := coupled w ∧ entry_only w.

(** ** vocabulary: the registry of subscriber channels *)

(** The two workers have the same subscribers map and as many channels. *)
Definition same_registry (w w' : Worker) : Prop :=
  subscribers w' = subscribers w ∧ length (heap w') = length (heap w).

(** The channels registered for a run are distinct and allocated. *)
Definition registry_wf (w : Worker) : Prop :=
  ∀ id, NoDup (subscribers_of w id)
        ∧ ∀ c, c ∈ subscribers_of w id → (c < length (heap w))%nat.

(** ** vocabulary: create handlers between their two writes *)

(** The runs whose messages a handler has still to insert. *)
Definition pending_ids (gs : list Detached) : list Z :=
  omap (λ g, match g with
             | GoCreateMessages id _ _ => Some id
             | _ => None
             end) gs.

(** What holds of a handler between its two writes: its run has no message
    row, any run with its identifier has the number of its members as total,
    and no other handler works on the same run. *)
Definition handlers_ok (w : Worker) : Prop :=
  NoDup (pending_ids (goroutines w))
  ∧ ∀ id template members, GoCreateMessages id template members ∈ goroutines w →
      id ≤ batch_runs_seq (store w)
      ∧ (∀ m, m ∈ batch_messages (store w) → msg_BatchRunID m ≠ id)
      ∧ (∀ r, r ∈ batch_runs (store w) → run_ID r = id →
              run_TotalCount r = Z.of_nat (length members)).

(** A write of the worker: no identifier is handed out, every message row
    belongs to a run that had a message row, every run is a run that was
    there with the same total. *)
Definition store_keeps (db db' : DB) : Prop :=
  batch_runs_seq db' = batch_runs_seq db
  ∧ (∀ m', m' ∈ batch_messages db' →
       ∃ m, m ∈ batch_messages db ∧ msg_BatchRunID m = msg_BatchRunID m')
  ∧ (∀ r', r' ∈ batch_runs db' →
       ∃ r, r ∈ batch_runs db ∧ run_ID r = run_ID r'
            ∧ run_TotalCount r = run_TotalCount r').

(** ** the continuation after a cancel, as the specification words it *)

(** [CancelBatch] with the two [go] statements replaced by direct calls: the
    queue is re-checked before the function returns. *)
Definition CancelBatch_in_line (batchID : Z) (e : Env) (w : Worker) : Worker * option string :=
  let w1 :=
    match currentRun w with
    | Some c => if bool_decide (BatchID c = batchID) then set_currentRun None w else w
    | None => w
    end in
  if fails e SC_Cancel then (w1, Some (env_driver_error e))
  else
    let w2 := with_store (Cancel (env_now e) batchID) w1 in
    let w3 := broadcastEvent batchID (cancelled_event batchID) w2 in
    (checkQueue e w3, None).

(** ** concrete executions *)

(** Recipients: a JID and the contact name cached at creation, if any. *)
Definition two_members : list (string * option string) :=
  [("491700000001@s.whatsapp.net", None); ("491700000002@s.whatsapp.net", Some "Bo")].

Definition three_members : list (string * option string) :=
  ("491700000003@s.whatsapp.net", None) :: two_members.

(** The worker in the middle of run 1 (one of three messages sent) with
    run 2 waiting in the queue. *)
Definition mid_run_with_queue : Worker :=
  run_trace
    [DoCreate 1 7 "friends" three_members (env_at 1 true None);
     DoCreate 1 8 "family" two_members (env_at 2 true None);
     Tick (env_at (3 * Second) true None);
     Tick (env_at (20 * Second) true None)]
    (initial [draft1]).

(** Run 1 is active, runs 2 and 3 wait.  The user cancels run 1; the
    detached [checkQueue] that [CancelBatch] started passes its
    [currentRun == nil] test, picks run 2 and marks it [running]; before it
    stores run 2 in [currentRun], the ticker fires, finds [currentRun] still
    nil, picks run 3 and starts it. *)
Definition cancel_race : list Action :=
  [DoCreate 1 7 "friends" three_members (env_at 1 true None);
   DoCreate 1 8 "family" two_members (env_at 2 true None);
   DoCreate 1 9 "team" two_members (env_at 3 true None);
   Tick (env_at (4 * Second) true None);
   DoCancel 1 (env_at (5 * Second) true None);
   StepDetached 1 (env_at (5 * Second) true None);
   StepDetached 1 (env_at (5 * Second) true None);
   StepDetached 1 (env_at (5 * Second) true None);
   StepDetached 1 (env_at (5 * Second) true None);
   Tick (env_at (5 * Second) true None)].

(** The same defect without any interleaving: the store rejects the cancel
    after [CancelBatch] has already dropped the active state. *)
Definition cancel_rejected : list Action :=
  [DoCreate 1 7 "friends" three_members (env_at 1 true None);
   DoCreate 1 8 "family" two_members (env_at 2 true None);
   Tick (env_at (4 * Second) true None);
   DoCancel 1 (mkEnv (5 * Second) (5 * Second) 0 true None (λ _ c, c)
                     "database is locked" [SC_Cancel]);
   Tick (env_at (6 * Second) true None)].

(** The active state and the row of run 1 in [mid_run_with_queue]. *)
Definition mid_run_current : ActiveBatchState :=
  mkActiveBatchState 1 "Hi {{name}}" "491700000003@s.whatsapp.net" "491700000003".

Definition mid_run_row : BatchRun :=
  mkBatchRun 1 1 7 "friends" "hello" BatchStatusRunning 3 1 0 None
             (Some (3 * Second)) None 1.



(** The process dies while the first message is [sending]; after the restart
    the run is resumed, the second message is sent and the run completes. *)
Definition completed_after_crash : list Action :=
  [DoCreate 1 8 "family" two_members (env_at 1 true None);
   Tick (env_at (2 * Second) true None);
   DieInDispatch CP_sending (env_at (20 * Second) true None);
   Tick (env_at (50 * Second) true None);
   Tick (env_at (80 * Second) true None)].

(** One recipient; on the first dispatch the store rejects both status
    writes of the message but accepts the counter write. *)
Definition sent_twice_when_marks_fail : list Action :=
  [DoCreate 1 8 "family" [("491700000001@s.whatsapp.net", None)] (env_at 1 true None);
   Tick (env_at (2 * Second) true None);
   Tick (mkEnv (20 * Second) (20 * Second) 0 true None (λ _ c, c)
               "database is locked" [SC_MarkSending; SC_MarkSent]);
   Tick (env_at (40 * Second) true None)].

(** Scenario A: three recipients, a connected transport that always
    succeeds, ticks until the run is over. *)
Definition scenario_A : list Action :=
  [DoCreate 1 7 "friends" three_members (env_at 1 true None);
   Tick (env_at (2 * Second) true None);
   Tick (env_at (20 * Second) true None);
   Tick (env_at (40 * Second) true None);
   Tick (env_at (60 * Second) true None);
   Tick (env_at (80 * Second) true None)].

(** Scenario C: run 1 is cancelled after one of its three messages has been
    sent, with run 2 queued; the two goroutines of the cancel then run. *)
Definition scenario_C : list Action :=
  [DoCreate 1 7 "friends" three_members (env_at 1 true None);
   DoCreate 1 8 "family" two_members (env_at 2 true None);
   Tick (env_at (3 * Second) true None);
   Tick (env_at (20 * Second) true None);
   DoCancel 1 (env_at (21 * Second) true None);
   RunDetached 0 (env_at (21 * Second) true None);
   RunDetached 0 (env_at (21 * Second) true None)].

(** The process dies between the two writes of the create handler: the run
    is there, its messages are not.  The restarted worker starts the run, and
    the first due tick finds nothing to send. *)
Definition creation_cut_by_a_crash : list Action :=
  [DoCreateRun 1 8 "family" two_members (env_at 1 true None);
   Restart (env_at (2 * Second) true None);
   Tick (env_at (20 * Second) true None)].

(** The handler is slow: the worker starts the run and reaches its first
    deadline between the two writes; the messages arrive afterwards. *)
Definition creation_overtaken : list Action :=
  [DoCreateRun 1 8 "family" two_members (env_at 1 true None);
   Tick (env_at (2 * Second) true None);
   Tick (env_at (20 * Second) true None);
   FinishCreate 0 (env_at (21 * Second) true None)].

(** ** the rest of the repositories *)

(** [SELECT COUNT( * ) FROM batch_runs WHERE status = 'queued'] *)
Definition GetQueuedCount (db : DB) : Z :=
  Z.of_nat (length (List.filter (run_has_status BatchStatusQueued) (batch_runs db))).

(** [UPDATE batch_runs SET status = ? WHERE id = ?] *)
Definition UpdateStatus (id : Z) (status : BatchRunStatus) : DB → DB :=
  with_runs (update_where run_ID id (set_run_status status)).

(** [BatchMessageRepository.GetByID] *)
Definition GetMessageByID (db : DB) (id : Z) : option BatchMessage :=
  List.find (λ m, bool_decide (msg_ID m = id)) (batch_messages db).

(** [SELECT COUNT( * ) FROM batch_messages WHERE batch_run_id = ? AND status = 'pending'] *)
Definition GetPendingCount (db : DB) (batchRunID : Z) : Z :=
  cnt batchRunID MessageStatusPending (batch_messages db).

(** [GetStats]: four [SUM(CASE WHEN status = ... THEN 1 ELSE 0 END)] over the
    rows of the run.  Over no rows each [SUM] is NULL, which [Scan] cannot
    store in an [int]: the function then returns an error ([None]). *)
Definition GetStats (db : DB) (batchRunID : Z) : option (Z * Z * Z * Z) :=
  match List.filter (in_run batchRunID) (batch_messages db) with
  | [] => None
  | _ =>
      Some (cnt batchRunID MessageStatusPending (batch_messages db),
            cnt batchRunID MessageStatusSending (batch_messages db),
            cnt batchRunID MessageStatusSent (batch_messages db),
            cnt batchRunID MessageStatusFailed (batch_messages db))
  end.

(** ** vocabulary: the statuses of a run over an execution *)






(** ** what the delete handler answers *)


(** ** tactics *)

(** A decidable proposition over concrete data, by evaluation. *)
Ltac by_evaluation := apply (bool_decide_unpack _); vm_compute; exact I.

(** The side conditions of [db_inv_dispatch] at concrete setters. *)
Ltac dispatch_side :=
  try done;
  try (intros; simpl; unfold is_status; simpl; repeat split; (lia || done)).

(** * Properties *)

(** ** what each worker function leaves alone *)

Lemma fails_reliable e c : env_faults e = [] → fails e c = false.
Proof.
  intros H. unfold fails. rewrite H. apply bool_decide_eq_false. apply not_elem_of_nil.
Qed.

Lemma exec_reliable e c f db : env_faults e = [] → exec e c f db = f db.
Proof. intros H. unfold exec. by rewrite fails_reliable. Qed.

Section projections.
Context (batchID : Z) (ev : ProgressEvent) (e : Env) (w : Worker).

Lemma store_broadcastEvent : store (broadcastEvent batchID ev w) = store w.
Proof. reflexivity. Qed.
Lemma currentRun_broadcastEvent :
  currentRun (broadcastEvent batchID ev w) = currentRun w.
Proof. reflexivity. Qed.
Lemma nextSendAt_broadcastEvent :
  nextSendAt (broadcastEvent batchID ev w) = nextSendAt w.
Proof. reflexivity. Qed.
Lemma subscribers_broadcastEvent :
  subscribers (broadcastEvent batchID ev w) = subscribers w.
Proof. reflexivity. Qed.
Lemma goroutines_broadcastEvent :
  goroutines (broadcastEvent batchID ev w) = goroutines w.
Proof. reflexivity. Qed.

Lemma store_broadcastProgress : store (broadcastProgress batchID e w) = store w.
Proof. unfold broadcastProgress. by destruct (GetProgress _ _ _). Qed.
Lemma currentRun_broadcastProgress :
  currentRun (broadcastProgress batchID e w) = currentRun w.
Proof. unfold broadcastProgress. by destruct (GetProgress _ _ _). Qed.
Lemma nextSendAt_broadcastProgress :
  nextSendAt (broadcastProgress batchID e w) = nextSendAt w.
Proof. unfold broadcastProgress. by destruct (GetProgress _ _ _). Qed.
Lemma subscribers_broadcastProgress :
  subscribers (broadcastProgress batchID e w) = subscribers w.
Proof. unfold broadcastProgress. by destruct (GetProgress _ _ _). Qed.
Lemma goroutines_broadcastProgress :
  goroutines (broadcastProgress batchID e w) = goroutines w.
Proof. unfold broadcastProgress. by destruct (GetProgress _ _ _). Qed.
End projections.

Create Rewrite HintDb worker.
#[global] Hint Rewrite store_broadcastEvent currentRun_broadcastEvent
  nextSendAt_broadcastEvent subscribers_broadcastEvent goroutines_broadcastEvent
  store_broadcastProgress currentRun_broadcastProgress nextSendAt_broadcastProgress
  subscribers_broadcastProgress goroutines_broadcastProgress : worker.

(** ** the pacer *)

Lemma pacer_delay_range v : 10 * Second ≤ pacer_delay v < 15 * Second.
Proof.
  unfold pacer_delay, Int63n, minDelay, maxDelay, Second, Millisecond.
  change ((15 * (1000 * 1000000) - 10 * (1000 * 1000000)) / 1000000) with 5000.
  pose proof (Z.mod_pos_bound v 5000 ltac:(lia)). lia.
Qed.

Lemma nextSendAt_sendMessage state msg e w :
  nextSendAt (sendMessage state msg e w)
  = env_now_after_send e + pacer_delay (env_rand e).
Proof.
  unfold sendMessage.
  destruct (fails e SC_GetAllForContact); [reflexivity|].
  destruct (env_send e); reflexivity.
Qed.

(** C4. Every dispatch attempt, whatever its outcome (sent, failed to send,
    failed to resolve placeholders), ends with the pacer re-armed: the worker
    that [sendMessage] returns has [nextSendAt] set to the clock read at that
    moment plus the drawn delay, and the delay lies in [10s, 15s). *)
Theorem pacer_rearmed_after_every_dispatch (state : ActiveBatchState)
    (msg : BatchMessage) (e : Env) (w : Worker) :
  nextSendAt (sendMessage state msg e w)
    = env_now_after_send e + pacer_delay (env_rand e)
  ∧ 10 * Second ≤ pacer_delay (env_rand e) < 15 * Second.
Proof. split; [apply nextSendAt_sendMessage|apply pacer_delay_range]. Qed.

(** ** rows, keys and updates *)

Section tables.
Context {A : Type} (key : A → Z).

Lemma find_key_Some id rows r :
  List.find (λ r, bool_decide (key r = id)) rows = Some r → r ∈ rows ∧ key r = id.
Proof.
  intros H. apply List.find_some in H as [Hin Hk].
  split; [by apply list_elem_of_In|by apply bool_decide_eq_true in Hk].
Qed.

Lemma find_key_unique id rows r r' :
  NoDup (key <$> rows) →
  List.find (λ r, bool_decide (key r = id)) rows = Some r →
  r' ∈ rows → key r' = id → r' = r.
Proof.
  induction rows as [|x rows IH]; simpl; [done|].
  intros Hnd Hfind Hin Hk. apply NoDup_cons in Hnd as [Hx Hnd].
  case_bool_decide as Hxk.
  - injection Hfind as ->. apply elem_of_cons in Hin as [->|Hin]; [done|].
    exfalso. apply Hx. apply list_elem_of_fmap. exists r'. split; [congruence|done].
  - apply elem_of_cons in Hin as [->|Hin]; [done|]. by apply IH.
Qed.

Lemma elem_of_unique_key rows r r' :
  NoDup (key <$> rows) → r ∈ rows → r' ∈ rows → key r' = key r → r' = r.
Proof.
  induction rows as [|x rows IH]; simpl; [by intros _ ?%elem_of_nil|].
  intros Hnd Hr Hr' Hk. apply NoDup_cons in Hnd as [Hx Hnd].
  apply elem_of_cons in Hr as [->|Hr]; apply elem_of_cons in Hr' as [->|Hr'].
  - done.
  - exfalso. apply Hx. apply list_elem_of_fmap. exists r'. split; [congruence|done].
  - exfalso. apply Hx. apply list_elem_of_fmap. exists r. split; [congruence|done].
  - by apply IH.
Qed.

Lemma find_update_where id id' f rows :
  (∀ r, key (f r) = key r) →
  List.find (λ r, bool_decide (key r = id')) (update_where key id f rows)
  = (λ r, if bool_decide (key r = id) then f r else r)
      <$> List.find (λ r, bool_decide (key r = id')) rows.
Proof.
  intros Hf. induction rows as [|x rows IH]; simpl; [done|].
  assert (key (if bool_decide (key x = id) then f x else x) = key x) as ->.
  { case_bool_decide; [apply Hf|done]. }
  case_bool_decide; [done|apply IH].
Qed.

Lemma update_where_id id f rows :
  (∀ r, r ∈ rows → key r = id → f r = r) → update_where key id f rows = rows.
Proof.
  induction rows as [|x rows IH]; simpl; intros H; [done|].
  rewrite IH; [|intros r Hr; apply H; by right].
  case_bool_decide; [|done]. rewrite H; [done|by left|done].
Qed.

Lemma update_where_keys id f rows :
  (∀ r, key (f r) = key r) → key <$> update_where key id f rows = key <$> rows.
Proof.
  intros Hf. induction rows as [|x rows IH]; csimpl; [done|].
  f_equal; [|apply IH]. case_bool_decide; [apply Hf|done].
Qed.

Lemma elem_of_update_where id f rows r' :
  r' ∈ update_where key id f rows ↔
  ∃ r, r ∈ rows ∧ r' = if bool_decide (key r = id) then f r else r.
Proof.
  unfold update_where. rewrite list_elem_of_fmap.
  split; intros (r & ? & ?); exists r; done.
Qed.
End tables.

(** ** cancelling is guarded by the persisted status *)

Lemma cancellable_test r :
  run_has_status BatchStatusQueued r || run_has_status BatchStatusRunning r = true
  ↔ cancellable r.
Proof.
  unfold cancellable, run_has_status. rewrite orb_true_iff.
  by rewrite !bool_decide_eq_true.
Qed.

Lemma GetByID_Cancel now id db :
  GetByID (Cancel now id db) id
  = (λ r, if run_has_status BatchStatusQueued r || run_has_status BatchStatusRunning r
          then cancelled_row now r else r) <$> GetByID db id.
Proof.
  unfold GetByID, Cancel. simpl. rewrite find_update_where.
  - destruct (List.find _ _) as [r|] eqn:Hf; [|done]. simpl.
    apply find_key_Some in Hf as [_ Hk]. by rewrite bool_decide_eq_true_2.
  - intros r. by destruct (_ || _).
Qed.

Lemma Cancel_terminal now id db r :
  NoDup (run_ID <$> batch_runs db) →
  GetByID db id = Some r → ¬ cancellable r → Cancel now id db = db.
Proof.
  intros Hnd Hget Hterm. unfold Cancel, with_runs.
  rewrite update_where_id; [by destruct db|].
  intros r' Hin Hk.
  assert (r' = r) as -> by (eapply (find_key_unique run_ID); eauto).
  destruct (_ || _) eqn:Hc; [|done]. by apply cancellable_test in Hc.
Qed.

Lemma store_CancelBatch id e w :
  store (CancelBatch id e w).1
  = if fails e SC_Cancel then store w else Cancel (env_now e) id (store w).
Proof.
  unfold CancelBatch. destruct (fails e SC_Cancel); simpl.
  - destruct (currentRun w) as [c|]; [|done]. by case_bool_decide.
  - destruct (currentRun w) as [c|]; [|done]. by case_bool_decide.
Qed.

(** C6. Cancelling persists [cancelled] exactly when the persisted status is
    [queued] or [running]: such a run ends up [cancelled] with its completion
    time set (when the store accepts the write); a run in a terminal status
    leaves the whole store as it was; and whenever the persisted status of
    the run differs after the call, it was [queued] or [running] before and
    is [cancelled] now. *)
Theorem cancel_persists_only_from_queued_or_running
    (id : Z) (e : Env) (w : Worker) (r : BatchRun) :
  NoDup (run_ID <$> batch_runs (store w)) →
  GetByID (store w) id = Some r →
  let w' := (CancelBatch id e w).1 in
  (cancellable r → fails e SC_Cancel = false →
     GetByID (store w') id = Some (cancelled_row (env_now e) r))
  ∧ (¬ cancellable r → store w' = store w)
  ∧ (∀ r', GetByID (store w') id = Some r' → run_Status r' ≠ run_Status r →
       cancellable r ∧ run_Status r' = BatchStatusCancelled).
Proof.
  intros Hnd Hget w'. subst w'. rewrite store_CancelBatch.
  split; [|split].
  - intros Hc Hok. rewrite Hok, GetByID_Cancel, Hget. simpl.
    by rewrite (proj2 (cancellable_test r) Hc).
  - intros Hterm. destruct (fails e SC_Cancel); [done|].
    by eapply Cancel_terminal.
  - intros r' Hget' Hne. destruct (fails e SC_Cancel); [congruence|].
    rewrite GetByID_Cancel, Hget in Hget'. simpl in Hget'.
    destruct (_ || _) eqn:Hc; [|congruence].
    apply cancellable_test in Hc. injection Hget' as <-. done.
Qed.

(** ** the progress broadcaster *)

Lemma heap_send_lookup ev h c c' :
  heap_send ev h c !! c'
  = if bool_decide (c' = c) then select_send ev <$> h !! c' else h !! c'.
Proof.
  unfold heap_send. case_bool_decide as Hc.
  - subst c'. destruct (h !! c) as [ch|] eqn:Hl; [|by rewrite Hl].
    rewrite list_lookup_insert_eq; [done|]. by eapply lookup_lt_Some.
  - destruct (h !! c) as [ch|]; [|done]. by rewrite list_lookup_insert_ne.
Qed.

Lemma foldl_heap_send_lookup ev subs :
  NoDup subs → ∀ h c,
  foldl (heap_send ev) h subs !! c
  = if bool_decide (c ∈ subs) then select_send ev <$> h !! c else h !! c.
Proof.
  induction subs as [|s subs IH]; intros Hnd h c; cbn [foldl].
  - case_bool_decide as H; [by apply elem_of_nil in H|done].
  - apply NoDup_cons in Hnd as [Hs Hnd]. rewrite IH by done.
    rewrite heap_send_lookup.
    destruct (decide (c = s)) as [->|Hne].
    + rewrite (bool_decide_eq_false_2 (s ∈ subs)) by done.
      rewrite !bool_decide_eq_true_2; [done|by left|done].
    + rewrite (bool_decide_eq_false_2 (c = s)) by done.
      destruct (decide (c ∈ subs)) as [Hin|Hnin].
      * rewrite !bool_decide_eq_true_2; [done|by right|done].
      * rewrite !bool_decide_eq_false_2; [done| |done].
        intros [?|?]%elem_of_cons; done.
Qed.

Lemma select_send_room ev ch :
  (length (ch_buf ch) < ch_cap ch)%nat →
  chan_send ev ch = Some (mkChan (ch_cap ch) (ch_buf ch ++ [ev]))
  ∧ select_send ev ch = mkChan (ch_cap ch) (ch_buf ch ++ [ev]).
Proof.
  intros H. unfold select_send, chan_send. by rewrite bool_decide_eq_true_2.
Qed.

Lemma select_send_full ev ch :
  (ch_cap ch ≤ length (ch_buf ch))%nat →
  chan_send ev ch = None ∧ select_send ev ch = ch.
Proof.
  intros H. unfold select_send, chan_send. rewrite bool_decide_eq_false_2; [done|lia].
Qed.

(** C9. [broadcastEvent] offers the event to every channel registered for
    the run with a send that cannot block: a subscriber whose buffer has room
    gets the event appended; a subscriber whose buffer is full (where a plain
    send would block) keeps its buffer and misses the event; channels of other
    runs are untouched; the function is total and changes nothing but the
    buffers.  [Subscribe] registers a new empty channel of capacity 10. *)
Theorem broadcast_is_nonblocking_and_drops_when_full
    (batchID : Z) (ev : ProgressEvent) (w : Worker) :
  NoDup (subscribers_of w batchID) →
  let w' := broadcastEvent batchID ev w in
  (∀ c ch, c ∈ subscribers_of w batchID → heap w !! c = Some ch →
     (length (ch_buf ch) < ch_cap ch)%nat →
     heap w' !! c = Some (mkChan (ch_cap ch) (ch_buf ch ++ [ev])))
  ∧ (∀ c ch, c ∈ subscribers_of w batchID → heap w !! c = Some ch →
       (ch_cap ch ≤ length (ch_buf ch))%nat →
       chan_send ev ch = None ∧ heap w' !! c = Some ch)
  ∧ (∀ c, c ∉ subscribers_of w batchID → heap w' !! c = heap w !! c)
  ∧ store w' = store w ∧ currentRun w' = currentRun w
  ∧ nextSendAt w' = nextSendAt w ∧ subscribers w' = subscribers w
  ∧ (∀ w0 id, heap (Subscribe id w0).1 !! (Subscribe id w0).2 = Some (mkChan 10 [])
              ∧ (Subscribe id w0).2 ∈ subscribers_of (Subscribe id w0).1 id).
Proof.
  intros Hnd w'. subst w'.
  assert (∀ c, heap (broadcastEvent batchID ev w) !! c
               = if bool_decide (c ∈ subscribers_of w batchID)
                 then select_send ev <$> heap w !! c else heap w !! c) as Hlook.
  { intros c. unfold broadcastEvent. cbn [heap set_heap].
    by apply foldl_heap_send_lookup. }
  split; [|split; [|split; [|split; [|split; [|split; [|split]]]]]]; try done.
  - intros c ch Hin Hl Hroom. rewrite Hlook, bool_decide_eq_true_2, Hl by done.
    cbn. by rewrite (proj2 (select_send_room ev ch Hroom)).
  - intros c ch Hin Hl Hfull. split; [by apply select_send_full|].
    rewrite Hlook, bool_decide_eq_true_2, Hl by done.
    cbn. by rewrite (proj2 (select_send_full ev ch Hfull)).
  - intros c Hnin. by rewrite Hlook, bool_decide_eq_false_2.
  - intros w0 id. unfold Subscribe. cbn. split.
    + rewrite lookup_app_r by lia. by rewrite Nat.sub_diag.
    + unfold subscribers_of at 1. cbn. rewrite lookup_insert_eq. cbn.
      apply elem_of_app. right. by left.
Qed.

(** ** the synchronous snapshot *)

(** C10. [GetProgress] on an identifier with no run in the store returns an
    error and no snapshot; on a run that exists (and a store that answers)
    it returns a snapshot whose seconds-until-next-send is the whole seconds
    left until [nextSendAt], never below 0, when the run is [running], and 0
    for every other status. *)
Theorem GetProgress_error_or_countdown (batchID : Z) (e : Env) (w : Worker) :
  (GetByID (store w) batchID = None → ∃ err, GetProgress batchID e w = inl err)
  ∧ (∀ run, GetByID (store w) batchID = Some run → fails e SC_GetByID = false →
       ∃ ev, GetProgress batchID e w = inr ev
             ∧ ev_NextSendInSeconds ev
               = if bool_decide (run_Status run = BatchStatusRunning)
                 then Z.max 0 (whole_seconds (time_Until (env_now e) (nextSendAt w)))
                 else 0)
  ∧ (∀ ev, GetProgress batchID e w = inr ev →
       0 ≤ ev_NextSendInSeconds ev ∧ is_Some (GetByID (store w) batchID)).
Proof.
  unfold GetProgress. split; [|split].
  - intros ->. destruct (fails e SC_GetByID); eauto.
  - intros run -> ->. eexists. split; [reflexivity|]. simpl.
    case_bool_decide; [|done]. case_bool_decide; lia.
  - intros ev. destruct (fails e SC_GetByID); [done|].
    destruct (GetByID (store w) batchID) as [run|]; [|done].
    intros [= <-]. simpl. split; [|by eexists].
    case_bool_decide; [|done]. case_bool_decide; lia.
Qed.

(** ** connectivity gating *)



(** ** which tables a worker function writes *)

Lemma oldest_Some {A} (created : A → Z) rows r :
  oldest created rows = Some r → r ∈ rows.
Proof.
  revert r. induction rows as [|x rows IH]; intros r; simpl; [done|].
  destruct (oldest created rows) as [r'|].
  - case_bool_decide; intros [= <-]; [right; by apply IH|by left].
  - intros [= <-]. by left.
Qed.

Lemma oldest_None {A} (created : A → Z) rows :
  oldest created rows = None → rows = [].
Proof.
  destruct rows as [|x rows]; simpl; [done|].
  destruct (oldest created rows); [by case_bool_decide|done].
Qed.

Lemma GetNextPending_Some db id m :
  GetNextPending db id = Some m →
  m ∈ batch_messages db ∧ msg_BatchRunID m = id ∧ msg_Status m = MessageStatusPending.
Proof.
  unfold GetNextPending. intros H%oldest_Some.
  apply list_elem_of_In, List.filter_In in H as [Hin Hp].
  apply andb_true_iff in Hp as [H1 H2].
  apply bool_decide_eq_true in H1, H2. by rewrite <- list_elem_of_In in Hin.
Qed.

Lemma GetNextPending_None db id m :
  GetNextPending db id = None →
  m ∈ batch_messages db → msg_BatchRunID m = id → msg_Status m ≠ MessageStatusPending.
Proof.
  unfold GetNextPending. intros H%oldest_None Hin Hrun Hst.
  assert (List.In m []) as []. rewrite <- H.
  apply List.filter_In. split; [by apply list_elem_of_In|].
  unfold in_run, msg_has_status. by rewrite !bool_decide_eq_true_2.
Qed.

Lemma GetActive_Some db r :
  GetActive db = Some r → r ∈ batch_runs db ∧ run_Status r = BatchStatusRunning.
Proof.
  unfold GetActive. intros [Hin Hp]%List.find_some.
  apply bool_decide_eq_true in Hp. by rewrite <- list_elem_of_In in Hin.
Qed.

Lemma GetActive_None db r :
  GetActive db = None → r ∈ batch_runs db → run_Status r ≠ BatchStatusRunning.
Proof.
  unfold GetActive. intros H Hin%list_elem_of_In Hst.
  pose proof (List.find_none _ _ H r Hin) as Hf.
  apply bool_decide_eq_false in Hf. done.
Qed.

Lemma messages_exec_runs e c f db :
  batch_messages (exec e c (with_runs f) db) = batch_messages db.
Proof. unfold exec. by destruct (fails e c). Qed.

Lemma runs_exec_messages e c f db :
  batch_runs (exec e c (with_messages f) db) = batch_runs db.
Proof. unfold exec. by destruct (fails e c). Qed.

Lemma messages_startBatch run e w :
  batch_messages (store (startBatch run e w)) = batch_messages (store w).
Proof.
  unfold startBatch.
  destruct (if fails e SC_DraftGetByID then _ else _) as [d|]; simpl.
  - destruct (fails e SC_Start); [done|]. by rewrite store_broadcastProgress.
  - unfold Fail. by rewrite messages_exec_runs.
Qed.

Lemma messages_checkQueue e w :
  batch_messages (store (checkQueue e w)) = batch_messages (store w).
Proof.
  unfold checkQueue. destruct (currentRun w); [done|].
  destruct (fails e SC_GetNextQueued); [done|].
  destruct (GetNextQueued (store w)); [apply messages_startBatch|done].
Qed.

Lemma messages_resumeIncompleteRuns e w :
  batch_messages (store (resumeIncompleteRuns e w)) = batch_messages (store w).
Proof.
  unfold resumeIncompleteRuns. destruct (fails e SC_GetActive); [done|].
  destruct (GetActive (store w)); [apply messages_startBatch|apply messages_checkQueue].
Qed.

Lemma messages_completeBatch id e w :
  batch_messages (store (completeBatch id e w)) = batch_messages (store w).
Proof.
  unfold completeBatch. rewrite messages_checkQueue. simpl.
  unfold Complete. by rewrite messages_exec_runs.
Qed.

Lemma messages_CancelBatch id e w :
  batch_messages (store (CancelBatch id e w).1) = batch_messages (store w).
Proof. rewrite store_CancelBatch. by destruct (fails e SC_Cancel). Qed.

Lemma messages_checkQueue_step e pc w :
  batch_messages (store (checkQueue_step e pc w).1) = batch_messages (store w).
Proof.
  destruct pc; simpl.
  - by destruct (currentRun w).
  - destruct (fails e SC_GetNextQueued); [done|]. by destruct (GetNextQueued _).
  - destruct (if fails e SC_DraftGetByID then _ else _); simpl; [done|].
    unfold Fail. by rewrite messages_exec_runs.
  - by destruct (fails e SC_Start).
  - done.
  - done.
  - by rewrite store_broadcastProgress.
Qed.

Lemma messages_checkQueue_run fuel e pc w :
  batch_messages (store (checkQueue_run fuel e pc w)) = batch_messages (store w).
Proof.
  revert pc w. induction fuel as [|n IH]; intros pc w; simpl; [done|].
  pose proof (messages_checkQueue_step e pc w) as Hs.
  destruct (checkQueue_step e pc w) as [w' [pc'|]]; simpl in Hs; [|done].
  by rewrite IH.
Qed.

(** ** message statuses only move forward *)

Lemma row_forward_refl m : row_forward m m.
Proof. by repeat split. Qed.

Lemma row_forward_trans m1 m2 m3 :
  row_forward m1 m2 → row_forward m2 m3 → row_forward m1 m3.
Proof.
  intros (Ha1 & Ha2 & Ha3 & Ha4) (Hb1 & Hb2 & Hb3 & Hb4).
  repeat split; [congruence|congruence|by etrans|].
  intros Ht. rewrite <- (Ha4 Ht). apply Hb4. by rewrite (Ha4 Ht).
Qed.

Lemma rows_forward_refl rows : Forall2 row_forward rows rows.
Proof. apply Forall_Forall2_diag, Forall_forall. intros; apply row_forward_refl. Qed.

Lemma rows_forward_trans l1 l2 l3 :
  Forall2 row_forward l1 l2 → Forall2 row_forward l2 l3 → Forall2 row_forward l1 l3.
Proof.
  intros H12. revert l3. induction H12; intros l3 H23; inv H23; constructor.
  - by eapply row_forward_trans.
  - by apply IHForall2.
Qed.

Lemma rows_forward_update id f rows :
  in_flight id rows →
  (∀ m, msg_Status m = MessageStatusPending ∨ msg_Status m = MessageStatusSending →
        row_forward m (f m)) →
  Forall2 row_forward rows (update_where msg_ID id f rows).
Proof.
  intros Hfl Hf. unfold update_where. apply Forall2_fmap_r.
  apply Forall_Forall2_diag, Forall_forall. intros m Hin. simpl.
  case_bool_decide; [|apply row_forward_refl]. apply Hf. by apply Hfl.
Qed.

Lemma in_flight_sending id rows :
  in_flight id rows →
  in_flight id (update_where msg_ID id (set_msg_status MessageStatusSending) rows).
Proof.
  intros Hfl m' (m & Hin & ->)%elem_of_update_where Hid.
  case_bool_decide; [by right|by apply Hfl].
Qed.

Lemma forward_to_sending m :
  msg_Status m = MessageStatusPending ∨ msg_Status m = MessageStatusSending →
  row_forward m (set_msg_status MessageStatusSending m).
Proof.
  intros [H|H]; repeat split; simpl; rewrite H.
  - apply rtc_once. constructor.
  - by intros [?|?].
  - done.
  - by intros [?|?].
Qed.

Lemma forward_to_sent m content t :
  msg_Status m = MessageStatusPending ∨ msg_Status m = MessageStatusSending →
  row_forward m (set_msg_sent content t (set_msg_status MessageStatusSent m)).
Proof.
  intros [H|H]; repeat split; simpl; rewrite H.
  - eapply rtc_l; [constructor|]. apply rtc_once. constructor.
  - by intros [?|?].
  - apply rtc_once. constructor.
  - by intros [?|?].
Qed.

Lemma forward_to_failed m err :
  msg_Status m = MessageStatusPending ∨ msg_Status m = MessageStatusSending →
  row_forward m (set_msg_error err (set_msg_status MessageStatusFailed m)).
Proof.
  intros [H|H]; repeat split; simpl; rewrite H.
  - eapply rtc_l; [constructor|]. apply rtc_once. constructor.
  - by intros [?|?].
  - apply rtc_once. constructor.
  - by intros [?|?].
Qed.

Lemma in_flight_next_pending db id m :
  NoDup (msg_ID <$> batch_messages db) →
  GetNextPending db id = Some m →
  in_flight (msg_ID m) (batch_messages db).
Proof.
  intros Hnd (Hin & _ & Hst)%GetNextPending_Some m' Hin' Hid.
  assert (m' = m) as -> by (by eapply (elem_of_unique_key msg_ID)).
  by left.
Qed.

Lemma forward_MarkSending e id db :
  in_flight id (batch_messages db) →
  Forall2 row_forward (batch_messages db)
          (batch_messages (exec e SC_MarkSending (MarkSending id) db))
  ∧ in_flight id (batch_messages (exec e SC_MarkSending (MarkSending id) db)).
Proof.
  intros Hfl. unfold exec. destruct (fails e SC_MarkSending).
  - split; [apply rows_forward_refl|done].
  - simpl. split; [|by apply in_flight_sending].
    apply rows_forward_update; [done|apply forward_to_sending].
Qed.

Lemma forward_MarkSent e id t content db :
  in_flight id (batch_messages db) →
  Forall2 row_forward (batch_messages db)
          (batch_messages (exec e SC_MarkSent (MarkSent t id content) db)).
Proof.
  intros Hfl. unfold exec. destruct (fails e SC_MarkSent); [apply rows_forward_refl|].
  simpl. apply rows_forward_update; [done|]. intros; by apply forward_to_sent.
Qed.

Lemma forward_MarkFailed e id err db :
  in_flight id (batch_messages db) →
  Forall2 row_forward (batch_messages db)
          (batch_messages (exec e SC_MarkFailed (MarkFailed id err) db)).
Proof.
  intros Hfl. unfold exec. destruct (fails e SC_MarkFailed); [apply rows_forward_refl|].
  simpl. apply rows_forward_update; [done|]. intros; by apply forward_to_failed.
Qed.

Lemma messages_markMessageSent id msg content name e w :
  batch_messages (store (markMessageSent id msg content name e w))
  = batch_messages
      (exec e SC_MarkSent (MarkSent (env_now_after_send e) (msg_ID msg) content) (store w)).
Proof.
  unfold markMessageSent. simpl. unfold IncrementSentCount.
  by rewrite messages_exec_runs.
Qed.

Lemma messages_markMessageFailed id msg err e w :
  batch_messages (store (markMessageFailed id msg err e w))
  = batch_messages (exec e SC_MarkFailed (MarkFailed (msg_ID msg) err) (store w)).
Proof.
  unfold markMessageFailed. simpl. unfold IncrementFailedCount.
  by rewrite messages_exec_runs.
Qed.

Lemma forward_sendMessage state msg e w :
  in_flight (msg_ID msg) (batch_messages (store w)) →
  Forall2 row_forward (batch_messages (store w))
          (batch_messages (store (sendMessage state msg e w))).
Proof.
  intros Hfl.
  destruct (forward_MarkSending e (msg_ID msg) (store w) Hfl) as [H1 Hfl1].
  eapply rows_forward_trans; [exact H1|].
  unfold sendMessage.
  destruct (fails e SC_GetAllForContact); [|destruct (env_send e)];
    unfold scheduleNextMessage; cbn [store set_nextSendAt].
  - rewrite messages_markMessageFailed, store_broadcastProgress.
    by apply forward_MarkFailed.
  - rewrite messages_markMessageFailed, store_broadcastProgress.
    by apply forward_MarkFailed.
  - rewrite messages_markMessageSent, store_broadcastProgress.
    by apply forward_MarkSent.
Qed.

Lemma forward_processNextMessage e w :
  NoDup (msg_ID <$> batch_messages (store w)) →
  Forall2 row_forward (batch_messages (store w))
          (batch_messages (store (processNextMessage e w))).
Proof.
  intros Hnd. unfold processNextMessage.
  destruct (currentRun w) as [current|].
  2: { rewrite messages_checkQueue. apply rows_forward_refl. }
  case_bool_decide.
  { rewrite store_broadcastProgress. apply rows_forward_refl. }
  destruct (negb (env_connected e)); [apply rows_forward_refl|].
  destruct (fails e SC_GetNextPending); [apply rows_forward_refl|].
  destruct (GetNextPending (store w) (BatchID current)) as [msg|] eqn:Hnext.
  - apply forward_sendMessage. by eapply in_flight_next_pending.
  - rewrite messages_completeBatch. apply rows_forward_refl.
Qed.

Lemma forward_interrupted_dispatch p e w :
  NoDup (msg_ID <$> batch_messages (store w)) →
  Forall2 row_forward (batch_messages (store w))
          (batch_messages (interrupted_dispatch p e w)).
Proof.
  intros Hnd. unfold interrupted_dispatch.
  destruct (currentRun w) as [current|]; [|apply rows_forward_refl].
  destruct (_ || _); [apply rows_forward_refl|].
  destruct (GetNextPending (store w) (BatchID current)) as [msg|] eqn:Hnext;
    [|apply rows_forward_refl].
  pose proof (in_flight_next_pending _ _ _ Hnd Hnext) as Hfl.
  destruct (forward_MarkSending e (msg_ID msg) (store w) Hfl) as [H1 Hfl1].
  destruct p; [done|].
  eapply rows_forward_trans; [exact H1|].
  destruct (fails e SC_GetAllForContact); [|destruct (env_send e)].
  - by apply forward_MarkFailed.
  - by apply forward_MarkFailed.
  - by apply forward_MarkSent.
Qed.

(** C3. Across every step of the scheduler, each message row keeps its
    identity and its status moves along pending -> sending -> sent | failed
    only (possibly not at all): never backward, never between [sent] and
    [failed]; a row that is [sent] or [failed] is left exactly as it is; and
    the query that picks the next message to dispatch only ever returns a
    [pending] row of the run, so a [sent] or [failed] message is not
    dispatched again. *)
Theorem message_status_only_moves_forward (a : Action) (w : Worker) :
  scheduler_step a = true →
  NoDup (msg_ID <$> batch_messages (store w)) →
  Forall2 row_forward (batch_messages (store w))
          (batch_messages (store (exec_action a w)))
  ∧ (∀ id m, GetNextPending (store w) id = Some m →
       m ∈ batch_messages (store w) ∧ msg_BatchRunID m = id
       ∧ msg_Status m = MessageStatusPending).
Proof.
  intros Ha Hnd. split; [|intros id m; apply GetNextPending_Some].
  destruct a; try discriminate Ha; cbn [exec_action].
  - by apply forward_processNextMessage.
  - rewrite messages_CancelBatch. apply rows_forward_refl.
  - destruct (goroutines w !! i) as [[id ev|pc|rid tpl ms]|]; cbv zeta;
      rewrite ?store_broadcastEvent, ?messages_checkQueue_run; apply rows_forward_refl.
  - destruct (goroutines w !! i) as [[id ev|pc|rid tpl ms]|];
      rewrite ?store_broadcastEvent; try apply rows_forward_refl.
    pose proof (messages_checkQueue_step e pc w) as Hs.
    destruct (checkQueue_step e pc w) as [w1 [pc'|]]; cbn [fst store set_goroutines] in *;
      rewrite Hs; apply rows_forward_refl.
  - rewrite messages_resumeIncompleteRuns. apply rows_forward_refl.
  - rewrite messages_resumeIncompleteRuns. cbn [store NewWorker].
    by apply forward_interrupted_dispatch.
Qed.

(** ** the detached re-check against the direct call *)

Lemma checkQueue_run_SB_entry e run w fuel :
  (4 < fuel)%nat →
  checkQueue_run fuel e (SB_entry run) w = startBatch run e w.
Proof.
  intros Hf. do 5 (destruct fuel as [|fuel]; [lia|]). clear Hf.
  unfold startBatch. cbn [checkQueue_run checkQueue_step].
  destruct (if fails e SC_DraftGetByID then _ else _) as [d|]; [|done].
  cbn [checkQueue_run checkQueue_step].
  destruct (fails e SC_Start); done.
Qed.

(** Run from its entry without interruption, the stepwise [checkQueue] is
    the function [checkQueue]. *)
Lemma checkQueue_run_entry e w fuel :
  (6 < fuel)%nat →
  checkQueue_run fuel e CQ_entry w = checkQueue e w.
Proof.
  intros Hf. do 2 (destruct fuel as [|fuel]; [lia|]).
  unfold checkQueue. cbn [checkQueue_run checkQueue_step].
  destruct (currentRun w); [done|]. cbn [checkQueue_run checkQueue_step].
  destruct (fails e SC_GetNextQueued); [done|].
  destruct (GetNextQueued (store w)) as [q|]; [|done].
  apply checkQueue_run_SB_entry. lia.
Qed.

(** Seven steps bring a detached [checkQueue] to its end from any of its
    points: more fuel changes nothing. *)
Lemma checkQueue_run_fuel e pc w fuel :
  (7 ≤ fuel)%nat → checkQueue_run fuel e pc w = checkQueue_run 7 e pc w.
Proof.
  intros Hf. do 7 (destruct fuel as [|fuel]; [lia|]). clear Hf.
  destruct pc; cbn [checkQueue_run checkQueue_step].
  - destruct (currentRun w); [done|]. cbn [checkQueue_run checkQueue_step].
    destruct (fails e SC_GetNextQueued); [done|].
    destruct (GetNextQueued (store w)); [|done]. cbn [checkQueue_run checkQueue_step].
    destruct (if fails e SC_DraftGetByID then _ else _); [|done].
    cbn [checkQueue_run checkQueue_step]. by destruct (fails e SC_Start).
  - destruct (fails e SC_GetNextQueued); [done|].
    destruct (GetNextQueued (store w)); [|done]. cbn [checkQueue_run checkQueue_step].
    destruct (if fails e SC_DraftGetByID then _ else _); [|done].
    cbn [checkQueue_run checkQueue_step]. by destruct (fails e SC_Start).
  - destruct (if fails e SC_DraftGetByID then _ else _); [|done].
    cbn [checkQueue_run checkQueue_step]. by destruct (fails e SC_Start).
  - by destruct (fails e SC_Start).
  - done.
  - done.
  - done.
Qed.

Section goroutine_frames.
Context (e : Env).

Lemma goroutines_startBatch run w : goroutines (startBatch run e w) = goroutines w.
Proof.
  unfold startBatch.
  destruct (if fails e SC_DraftGetByID then _ else _); [|done].
  destruct (fails e SC_Start); [done|]. by rewrite goroutines_broadcastProgress.
Qed.

Lemma goroutines_checkQueue w : goroutines (checkQueue e w) = goroutines w.
Proof.
  unfold checkQueue. destruct (currentRun w); [done|].
  destruct (fails e SC_GetNextQueued); [done|].
  destruct (GetNextQueued (store w)); [apply goroutines_startBatch|done].
Qed.

Lemma goroutines_completeBatch id w :
  goroutines (completeBatch id e w) = goroutines w.
Proof. unfold completeBatch. by rewrite goroutines_checkQueue. Qed.
End goroutine_frames.

Lemma startBatch_started run draft e w :
  fails e SC_DraftGetByID = false →
  DraftGetByID (store w) (run_DraftID run) = Some draft →
  fails e SC_Start = false →
  store (startBatch run e w) = Start (env_now e) (run_ID run) (store w)
  ∧ currentRun (startBatch run e w)
    = Some (mkActiveBatchState (run_ID run) (draft_Content draft) "" "")
  ∧ nextSendAt (startBatch run e w) = env_now e + pacer_delay (env_rand e).
Proof.
  intros H1 H2 H3. unfold startBatch. rewrite H1, H2, H3.
  by rewrite store_broadcastProgress, currentRun_broadcastProgress,
    nextSendAt_broadcastProgress.
Qed.

(** C7, as stated, fails for cancellation: when [CancelBatch] returns after
    cancelling the active run 1, run 1 is [cancelled] but the queue has not
    been re-checked: run 2 is still [queued], the worker has no active run,
    and the re-check is a goroutine waiting in [goroutines]; a direct call
    would have returned with run 2 [running]. *)
Lemma cancel_returns_before_the_recheck :
  let e := env_at (21 * Second) true None in
  let w' := (CancelBatch 1 e mid_run_with_queue).1 in
  run_Status <$> GetByID (store w') 1 = Some BatchStatusCancelled
  ∧ run_Status <$> GetByID (store w') 2 = Some BatchStatusQueued
  ∧ currentRun w' = None
  ∧ goroutines w' = [GoBroadcastEvent 1 (cancelled_event 1); GoCheckQueue CQ_entry]
  ∧ run_Status <$> GetByID (store (CancelBatch_in_line 1 e mid_run_with_queue).1) 2
    = Some BatchStatusRunning
  ∧ store w' ≠ store (CancelBatch_in_line 1 e mid_run_with_queue).1.
Proof. vm_compute. repeat split; discriminate. Qed.

(** C7, amended. Completing a run re-checks the queue by a direct call:
    [completeBatch] returns what [checkQueue] returns on the worker in which
    the run is completed and no run is active, and it starts no goroutine;
    so a queued run whose draft can be read is already [running] and active
    when [completeBatch] returns.
    Cancelling a run leaves the re-check to a goroutine: when the store
    accepts the cancel, [CancelBatch] returns with the status write done, the
    matching active state cleared, and two goroutines started (the
    [cancelled] event and [checkQueue]); run at once and without
    interleaving, these give the outcome of the direct call.  When the store
    rejects the cancel, nothing is persisted and nothing is started. *)
Theorem recheck_direct_on_complete_detached_on_cancel
    (batchID : Z) (e : Env) (w : Worker) :
  (completeBatch batchID e w
   = checkQueue e
       (broadcastEvent batchID
          (mkProgressEvent "completed" batchID "completed" 0 0 0 "" 0 None "")
          (set_currentRun None
             (with_store (exec e SC_Complete (Complete (env_now e) batchID)) w)))
   ∧ goroutines (completeBatch batchID e w) = goroutines w)
  ∧ (∀ q draft,
       env_faults e = [] →
       GetNextQueued (Complete (env_now e) batchID (store w)) = Some q →
       DraftGetByID (store w) (run_DraftID q) = Some draft →
       store (completeBatch batchID e w)
       = Start (env_now e) (run_ID q) (Complete (env_now e) batchID (store w))
       ∧ currentRun (completeBatch batchID e w)
         = Some (mkActiveBatchState (run_ID q) (draft_Content draft) "" ""))
  ∧ (fails e SC_Cancel = false →
       store (CancelBatch batchID e w).1 = Cancel (env_now e) batchID (store w)
       ∧ goroutines (CancelBatch batchID e w).1
         = goroutines w
           ++ [GoBroadcastEvent batchID (cancelled_event batchID); GoCheckQueue CQ_entry]
       ∧ (goroutines w = [] →
            run_trace [RunDetached 0 e; RunDetached 0 e] (CancelBatch batchID e w).1
            = (CancelBatch_in_line batchID e w).1))
  ∧ (fails e SC_Cancel = true →
       store (CancelBatch batchID e w).1 = store w
       ∧ goroutines (CancelBatch batchID e w).1 = goroutines w).
Proof.
  split; [split; [reflexivity|apply goroutines_completeBatch]|].
  split.
  { intros q draft Hrel Hq Hd. unfold completeBatch, checkQueue.
    rewrite currentRun_broadcastEvent, store_broadcastEvent.
    cbn [currentRun store set_currentRun with_store].
    rewrite exec_reliable, (fails_reliable e _ Hrel), Hq by done.
    destruct (startBatch_started q draft e
                (broadcastEvent batchID
                   (mkProgressEvent "completed" batchID "completed" 0 0 0 "" 0 None "")
                   (set_currentRun None
                      (with_store (exec e SC_Complete (Complete (env_now e) batchID)) w))))
      as (E1 & E2 & _); try (by apply fails_reliable).
    - rewrite store_broadcastEvent. cbn [store set_currentRun with_store].
      by rewrite exec_reliable.
    - rewrite E1, E2, store_broadcastEvent. cbn [store set_currentRun with_store].
      by rewrite exec_reliable. }
  split; intros Hf.
  - rewrite store_CancelBatch, Hf. split; [done|].
    unfold CancelBatch, CancelBatch_in_line. rewrite Hf.
    set (w1 := match currentRun w with Some _ => _ | None => _ end).
    assert (goroutines w1 = goroutines w) as Hg.
    { subst w1. destruct (currentRun w); [|done]. by case_bool_decide. }
    cbn [fst goroutines set_goroutines with_store]. rewrite Hg.
    split; [done|]. intros Hnil. rewrite Hnil.
    unfold run_trace. cbn [foldl exec_action app goroutines set_goroutines lookup
      list_lookup delete list_delete].
    rewrite goroutines_broadcastEvent. cbn [goroutines set_goroutines lookup
      list_lookup delete list_delete].
    rewrite checkQueue_run_entry by lia.
    f_equal. unfold broadcastEvent, set_goroutines, set_heap, with_store, subscribers_of.
    cbn. clearbody w1. destruct w1; cbn in *. congruence.
  - rewrite store_CancelBatch, Hf. split; [done|].
    unfold CancelBatch. rewrite Hf. cbn [fst].
    destruct (currentRun w); [|done]. by case_bool_decide.
Qed.

(** ** startup *)

(** C8. When the process starts, before any tick: if the store holds a run
    marked [running] (and its draft can be read), the worker takes it as the
    active run with the draft's content as template, arms the pacer with a
    delay in [10s, 15s), writes nothing but the [running] mark of that run,
    and touches no message row; if no run is [running], startup is the
    queued-run check.  After startup the next-pending query returns a row
    only if it is a [pending] row of the run, and returns none only when the
    run has no [pending] row: [sent] and [failed] rows are skipped. *)
Theorem startup_resumes_the_running_run (e : Env) (w : Worker) :
  fails e SC_GetActive = false →
  let w' := exec_action (Restart e) w in
  (∀ active draft,
     GetActive (store w) = Some active →
     fails e SC_DraftGetByID = false →
     DraftGetByID (store w) (run_DraftID active) = Some draft →
     fails e SC_Start = false →
     currentRun w' = Some (mkActiveBatchState (run_ID active) (draft_Content draft) "" "")
     ∧ nextSendAt w' = env_now e + pacer_delay (env_rand e)
     ∧ 10 * Second ≤ pacer_delay (env_rand e) < 15 * Second
     ∧ store w' = Start (env_now e) (run_ID active) (store w))
  ∧ (GetActive (store w) = None → w' = checkQueue e (NewWorker (store w)))
  ∧ batch_messages (store w') = batch_messages (store w)
  ∧ (∀ id,
       match GetNextPending (store w') id with
       | Some m =>
           m ∈ batch_messages (store w) ∧ msg_BatchRunID m = id
           ∧ msg_Status m = MessageStatusPending
       | None =>
           ∀ m, m ∈ batch_messages (store w) → msg_BatchRunID m = id →
                msg_Status m ≠ MessageStatusPending
       end).
Proof.
  intros Hga w'.
  assert (batch_messages (store w') = batch_messages (store w)) as Hmsgs.
  { subst w'. cbn [exec_action]. by rewrite messages_resumeIncompleteRuns. }
  split; [|split; [|split; [done|]]].
  - intros active draft Hact Hd1 Hd2 Hs. subst w'. cbn [exec_action].
    unfold resumeIncompleteRuns. rewrite Hga. cbn [store NewWorker]. rewrite Hact.
    destruct (startBatch_started active draft e (NewWorker (store w)) Hd1 Hd2 Hs)
      as (E1 & E2 & E3).
    rewrite E1, E2, E3. repeat split; try done; apply pacer_delay_range.
  - intros Hnone. subst w'. cbn [exec_action]. unfold resumeIncompleteRuns.
    rewrite Hga. cbn [store NewWorker]. by rewrite Hnone.
  - intros id. rewrite <- Hmsgs.
    destruct (GetNextPending (store w') id) as [m|] eqn:Hnext.
    + by apply GetNextPending_Some.
    + intros m. by apply GetNextPending_None.
Qed.

(** ** at most one run is running: where the code breaks it *)

(** C1 fails on the code. After the steps of [cancel_race], none of which
    meets a store error, runs 2 and 3 are both [running] (and the stepped
    goroutine is about to overwrite the ticker's [currentRun]); after
    [cancel_rejected], runs 1 and 2 are both [running]. *)
Theorem two_runs_running_after_cancel :
  forallb reliable cancel_race = true
  ∧ count_running (store (run_trace cancel_race (initial [draft1]))) = 2%nat
  ∧ run_Status <$> batch_runs (store (run_trace cancel_race (initial [draft1])))
    = [BatchStatusCancelled; BatchStatusRunning; BatchStatusRunning]
  ∧ BatchID <$> currentRun (run_trace cancel_race (initial [draft1])) = Some 3
  ∧ (∃ run draft,
       goroutines (run_trace cancel_race (initial [draft1]))
       = [GoBroadcastEvent 1 (cancelled_event 1); GoCheckQueue (SB_assign run draft)]
       ∧ run_ID run = 2)
  ∧ forallb serial cancel_rejected = true
  ∧ run_Status <$> batch_runs (store (run_trace cancel_rejected (initial [draft1])))
    = [BatchStatusRunning; BatchStatusRunning].
Proof.
  vm_compute. repeat split; try reflexivity.
  eexists _, _. split; reflexivity.
Qed.

(** ** the theorems at concrete inputs *)

Lemma message_status_only_moves_forward_witness :
  let a := Tick (env_at (30 * Second) true None) in
  let w := mid_run_with_queue in
  scheduler_step a = true
  ∧ NoDup (msg_ID <$> batch_messages (store w))
  ∧ Forall2 row_forward (batch_messages (store w))
            (batch_messages (store (exec_action a w)))
  ∧ (∀ id m, GetNextPending (store w) id = Some m →
       m ∈ batch_messages (store w) ∧ msg_BatchRunID m = id
       ∧ msg_Status m = MessageStatusPending).
Proof.
  intros a w.
  assert (scheduler_step a = true) as H1 by reflexivity.
  assert (NoDup (msg_ID <$> batch_messages (store w))) as H2 by by_evaluation.
  split; [exact H1|]. split; [exact H2|].
  exact (message_status_only_moves_forward a w H1 H2).
Defined.


Lemma cancel_persists_only_from_queued_or_running_witness :
  let e := env_at (21 * Second) true None in
  let w := mid_run_with_queue in
  let w' := (CancelBatch 1 e w).1 in
  NoDup (run_ID <$> batch_runs (store w))
  ∧ GetByID (store w) 1 = Some mid_run_row
  ∧ (cancellable mid_run_row → fails e SC_Cancel = false →
       GetByID (store w') 1 = Some (cancelled_row (env_now e) mid_run_row))
  ∧ (¬ cancellable mid_run_row → store w' = store w)
  ∧ (∀ r', GetByID (store w') 1 = Some r' → run_Status r' ≠ run_Status mid_run_row →
       cancellable mid_run_row ∧ run_Status r' = BatchStatusCancelled).
Proof.
  intros e w w'.
  assert (NoDup (run_ID <$> batch_runs (store w))) as H1 by by_evaluation.
  assert (GetByID (store w) 1 = Some mid_run_row) as H2 by (vm_compute; reflexivity).
  split; [exact H1|]. split; [exact H2|].
  exact (cancel_persists_only_from_queued_or_running 1 e w mid_run_row H1 H2).
Defined.

Lemma recheck_direct_on_complete_detached_on_cancel_witness :
  let e := env_at (21 * Second) true None in
  let w := mid_run_with_queue in
  fails e SC_Cancel = false
  ∧ goroutines w = []
  ∧ goroutines (CancelBatch 1 e w).1
    = [GoBroadcastEvent 1 (cancelled_event 1); GoCheckQueue CQ_entry]
  ∧ run_trace [RunDetached 0 e; RunDetached 0 e] (CancelBatch 1 e w).1
    = (CancelBatch_in_line 1 e w).1.
Proof.
  intros e w.
  assert (fails e SC_Cancel = false) as H1 by reflexivity.
  assert (goroutines w = []) as H2 by (vm_compute; reflexivity).
  destruct (recheck_direct_on_complete_detached_on_cancel 1 e w) as (_ & _ & Hc & _).
  destruct (Hc H1) as (_ & Hg & Hrun).
  split; [exact H1|]. split; [exact H2|]. split; [|exact (Hrun H2)].
  rewrite Hg, H2. reflexivity.
Defined.

Lemma startup_resumes_the_running_run_witness :
  let e := env_at (40 * Second) true None in
  let w := mid_run_with_queue in
  let w' := exec_action (Restart e) w in
  fails e SC_GetActive = false
  ∧ GetActive (store w) = Some mid_run_row
  ∧ DraftGetByID (store w) (run_DraftID mid_run_row) = Some draft1
  ∧ currentRun w' = Some (mkActiveBatchState 1 "Hi {{name}}" "" "")
  ∧ nextSendAt w' = 50 * Second
  ∧ store w' = Start (env_now e) 1 (store w)
  ∧ batch_messages (store w') = batch_messages (store w).
Proof.
  intros e w w'.
  assert (fails e SC_GetActive = false) as H1 by reflexivity.
  assert (GetActive (store w) = Some mid_run_row) as H2 by (vm_compute; reflexivity).
  assert (DraftGetByID (store w) (run_DraftID mid_run_row) = Some draft1) as H3
    by (vm_compute; reflexivity).
  destruct (startup_resumes_the_running_run e w H1) as (Hres & _ & Hmsgs & _).
  destruct (Hres mid_run_row draft1 H2 eq_refl H3 eq_refl) as (E1 & E2 & _ & E4).
  repeat split; try done.
Defined.

Lemma broadcast_is_nonblocking_and_drops_when_full_witness :
  let w := (Subscribe 1 mid_run_with_queue).1 in
  let w' := broadcastEvent 1 (cancelled_event 1) w in
  NoDup (subscribers_of w 1)
  ∧ heap w' !! 0%nat = Some (mkChan 10 [cancelled_event 1])
  ∧ store w' = store w.
Proof.
  intros w w'.
  assert (NoDup (subscribers_of w 1)) as H1 by by_evaluation.
  destruct (broadcast_is_nonblocking_and_drops_when_full 1 (cancelled_event 1) w H1)
    as (Hroom & _ & _ & Hstore & _).
  split; [exact H1|]. split; [|exact Hstore].
  apply (Hroom 0%nat (mkChan 10 [])); [by_evaluation|reflexivity|simpl; lia].
Defined.

Lemma GetProgress_error_or_countdown_witness :
  let e := env_at (21 * Second) true None in
  let w := mid_run_with_queue in
  GetByID (store w) 99 = None
  ∧ GetByID (store w) 1 = Some mid_run_row
  ∧ (∃ err, GetProgress 99 e w = inl err)
  ∧ (∃ ev, GetProgress 1 e w = inr ev ∧ ev_NextSendInSeconds ev = 9).
Proof.
  intros e w.
  assert (GetByID (store w) 99 = None) as H1 by (vm_compute; reflexivity).
  assert (GetByID (store w) 1 = Some mid_run_row) as H2 by (vm_compute; reflexivity).
  split; [exact H1|]. split; [exact H2|].
  split; [exact (proj1 (GetProgress_error_or_countdown 99 e w) H1)|].
  destruct (proj1 (proj2 (GetProgress_error_or_countdown 1 e w)) mid_run_row H2 eq_refl)
    as (ev & Hev & Hn).
  exists ev. split; [exact Hev|]. rewrite Hn. vm_compute. reflexivity.
Defined.

(** ** counters against message rows *)

Lemma ind_range id s m : 0 ≤ ind id s m ≤ 1.
Proof. unfold ind. destruct (_ && _); lia. Qed.

Lemma ind_spec id s m :
  ind id s m = if bool_decide (msg_BatchRunID m = id ∧ msg_Status m = s) then 1 else 0.
Proof.
  unfold ind, in_run, msg_has_status.
  destruct (decide (msg_BatchRunID m = id)) as [H1|H1];
    destruct (decide (msg_Status m = s)) as [H2|H2].
  - by rewrite !bool_decide_eq_true_2.
  - rewrite (bool_decide_eq_false_2 (msg_Status m = s)) by done.
    rewrite andb_false_r. rewrite bool_decide_eq_false_2; [done|]. by intros [_ ?].
  - rewrite (bool_decide_eq_false_2 (msg_BatchRunID m = id)) by done. simpl.
    rewrite bool_decide_eq_false_2; [done|]. by intros [? _].
  - rewrite (bool_decide_eq_false_2 (msg_BatchRunID m = id)) by done. simpl.
    rewrite bool_decide_eq_false_2; [done|]. by intros [? _].
Qed.

Lemma cnt_nonneg id s rows : 0 ≤ cnt id s rows.
Proof.
  induction rows as [|m rows IH]; simpl; [done|].
  pose proof (ind_range id s m). lia.
Qed.

Lemma cnt_app id s l k : cnt id s (l ++ k) = cnt id s l + cnt id s k.
Proof. induction l as [|m l IH]; simpl; lia. Qed.

Lemma cnt_elem id s rows m :
  m ∈ rows → msg_BatchRunID m = id → msg_Status m = s → 1 ≤ cnt id s rows.
Proof.
  induction rows as [|x rows IH]; simpl; [by intros ?%elem_of_nil|].
  intros [->|Hin]%elem_of_cons Hrun Hst.
  - rewrite ind_spec, bool_decide_eq_true_2 by done.
    pose proof (cnt_nonneg id s rows). lia.
  - pose proof (ind_range id s x). specialize (IH Hin Hrun Hst). lia.
Qed.

Lemma cnt_none id s rows :
  (∀ m, m ∈ rows → msg_BatchRunID m = id → msg_Status m ≠ s) → cnt id s rows = 0.
Proof.
  induction rows as [|x rows IH]; simpl; intros H; [done|].
  rewrite IH by (intros m Hm; apply H; by right).
  rewrite ind_spec, bool_decide_eq_false_2; [done|].
  intros [Hr Hs]. by apply (H x); [left|..].
Qed.

Lemma cnt_update_unique id s f x rows :
  NoDup (msg_ID <$> rows) → x ∈ rows →
  cnt id s (update_where msg_ID (msg_ID x) f rows)
  = cnt id s rows - ind id s x + ind id s (f x).
Proof.
  induction rows as [|y rows IH]; csimpl; [by intros _ ?%elem_of_nil|].
  intros [Hy Hnd]%NoDup_cons [->|Hin]%elem_of_cons.
  - rewrite bool_decide_eq_true_2 by done.
    fold (update_where msg_ID (msg_ID y) f rows).
    rewrite update_where_id; [lia|].
    intros r Hr Hk. exfalso. apply Hy. apply list_elem_of_fmap. by exists r.
  - rewrite bool_decide_eq_false_2.
    + fold (update_where msg_ID (msg_ID x) f rows). rewrite IH by done. lia.
    + intros Hk. apply Hy. apply list_elem_of_fmap. by exists x.
Qed.

Lemma cnt_filter_other id did s rows :
  id ≠ did →
  cnt id s (List.filter (λ m, negb (bool_decide (msg_BatchRunID m = did))) rows)
  = cnt id s rows.
Proof.
  intros Hne. induction rows as [|m rows IH]; simpl; [done|].
  case_bool_decide as Hm; simpl; [|lia].
  rewrite IH, ind_spec, bool_decide_eq_false_2; [lia|]. intros [? _]. congruence.
Qed.

Lemma cnt_new_messages id s now rid tpl next members :
  cnt id s (new_messages now rid tpl next members)
  = if bool_decide (rid = id ∧ MessageStatusPending = s)
    then Z.of_nat (length members) else 0.
Proof.
  revert next. induction members as [|[jid name] members IH]; intros next; simpl.
  - by case_bool_decide.
  - rewrite IH, ind_spec. simpl. case_bool_decide; lia.
Qed.

Lemma new_messages_ids now rid tpl next members m :
  m ∈ new_messages now rid tpl next members →
  next ≤ msg_ID m < next + Z.of_nat (length members) ∧ msg_BatchRunID m = rid.
Proof.
  revert next. induction members as [|[jid name] members IH]; intros next; simpl.
  - by intros ?%elem_of_nil.
  - intros [->|Hin]%elem_of_cons; simpl; [lia|].
    apply IH in Hin. lia.
Qed.

Lemma new_messages_NoDup now rid tpl next members :
  NoDup (msg_ID <$> new_messages now rid tpl next members).
Proof.
  revert next. induction members as [|[jid name] members IH]; intros next; csimpl.
  - constructor.
  - apply NoDup_cons. split; [|apply IH].
    intros (m & Hid & Hin)%list_elem_of_fmap.
    apply new_messages_ids in Hin. simpl in Hid. lia.
Qed.

Lemma NoDup_fmap_filter {A} (key : A → Z) (p : A → bool) rows :
  NoDup (key <$> rows) → NoDup (key <$> List.filter p rows).
Proof.
  induction rows as [|x rows IH]; csimpl; [done|].
  intros [Hx Hnd]%NoDup_cons. destruct (p x); csimpl; [|by apply IH].
  apply NoDup_cons. split; [|by apply IH].
  intros (y & Hk & Hin)%list_elem_of_fmap. apply Hx.
  apply list_elem_of_fmap. exists y. split; [done|].
  apply list_elem_of_In in Hin. apply List.filter_In in Hin as [Hin _].
  by apply list_elem_of_In.
Qed.

Lemma update_where_compose {A} (key : A → Z) id f g rows :
  (∀ r, key (f r) = key r) →
  update_where key id g (update_where key id f rows)
  = update_where key id (λ r, g (f r)) rows.
Proof.
  intros Hf. unfold update_where. rewrite <- list_fmap_compose.
  apply list_fmap_ext. intros i r _. simpl.
  destruct (decide (key r = id)) as [Hk|Hk].
  - rewrite (bool_decide_eq_true_2 (key r = id)) by done.
    by rewrite bool_decide_eq_true_2 by (by rewrite Hf).
  - rewrite (bool_decide_eq_false_2 (key r = id)) by done.
    by rewrite bool_decide_eq_false_2.
Qed.

(** ** the counter invariant of the store *)

Lemma counts_ok_weaken s msgs r : counts_ok s msgs r → counts_ok false msgs r.
Proof. unfold counts_ok. intros (H1 & H2 & H3 & _). repeat split; (lia || done). Qed.

Lemma db_inv_weaken s db : db_inv s db → db_inv false db.
Proof.
  intros [H1 H2 H3 H4 H5]. constructor; try done.
  intros r Hr. eapply counts_ok_weaken. by apply H5.
Qed.

Lemma db_inv_fresh drafts : db_inv true (fresh_db drafts).
Proof.
  constructor; simpl; try by intros ? ?%elem_of_nil.
  - constructor.
  - constructor.
Qed.

Lemma db_inv_update_runs s id g db :
  db_inv s db →
  (∀ r, run_ID (g r) = run_ID r) →
  (∀ r, r ∈ batch_runs db → run_ID r = id →
        counts_ok s (batch_messages db) r → counts_ok s (batch_messages db) (g r)) →
  db_inv s (with_runs (update_where run_ID id g) db).
Proof.
  intros [H1 H2 H3 H4 H5] Hid Hg. constructor; simpl; try done.
  - by rewrite update_where_keys.
  - intros r' (r & Hr & ->)%elem_of_update_where.
    case_bool_decide; [rewrite Hid|]; by apply H3.
  - intros r' (r & Hr & ->)%elem_of_update_where.
    case_bool_decide; [apply Hg; try done|]; by apply H5.
Qed.

Lemma db_inv_keeps_counts s id g db :
  keeps_counts g → db_inv s db → db_inv s (with_runs (update_where run_ID id g) db).
Proof.
  intros Hg Hinv. apply db_inv_update_runs; [done|intros r; apply Hg|].
  intros r _ _ (C1 & C2 & C3 & C4).
  destruct (Hg r) as (E1 & E2 & E3 & E4 & E5).
  unfold counts_ok in *. rewrite E1, E2, E3, E4.
  split; [lia|]. split; [lia|]. split; [lia|]. intros Hs.
  destruct (C4 Hs) as (D1 & D2 & D3 & D4 & D5). repeat split; try done.
  intros Hc. by apply D4, E5.
Qed.

Lemma db_inv_Start s now id db : db_inv s db → db_inv s (Start now id db).
Proof. apply db_inv_keeps_counts. intros r. by repeat split. Qed.

Lemma db_inv_Fail s now id err db : db_inv s db → db_inv s (Fail now id err db).
Proof. apply db_inv_keeps_counts. intros r. by repeat split. Qed.

Lemma db_inv_Cancel s now id db : db_inv s db → db_inv s (Cancel now id db).
Proof.
  apply db_inv_keeps_counts. intros r. destruct (_ || _); by repeat split.
Qed.

Lemma db_inv_Complete s now id db :
  db_inv s db →
  cnt id MessageStatusPending (batch_messages db) = 0 →
  db_inv s (Complete now id db).
Proof.
  intros Hinv Hp. apply db_inv_update_runs; [done|done|].
  intros r _ <-. unfold counts_ok. simpl. intros (C1 & C2 & C3 & C4).
  split; [lia|]. split; [lia|]. split; [lia|]. intros Hs.
  destruct (C4 Hs) as (D1 & D2 & D3 & D4 & D5). by repeat split.
Qed.

Lemma db_inv_set_drafts s drafts db : db_inv s db → db_inv s (set_drafts drafts db).
Proof. intros [H1 H2 H3 H4 H5]. by constructor. Qed.

Lemma ind_same id t m : msg_BatchRunID m = id → ind id t m = is_status (msg_Status m) t.
Proof.
  intros H. rewrite ind_spec. unfold is_status.
  destruct (decide (msg_Status m = t)).
  - by rewrite !bool_decide_eq_true_2.
  - rewrite !bool_decide_eq_false_2; [done|done|]. by intros [_ ?].
Qed.

Lemma ind_other id t m : msg_BatchRunID m ≠ id → ind id t m = 0.
Proof. intros H. rewrite ind_spec, bool_decide_eq_false_2; [done|]. by intros [? _]. Qed.

Lemma with_runs_same id db : with_runs (update_where run_ID id (λ r, r)) db = db.
Proof.
  unfold with_runs. rewrite update_where_id by done. by destruct db.
Qed.

(** One message [x] of the run goes from [pending] to [s'] and the counters
    of the run move by [ds] and [df]. *)
Lemma db_inv_dispatch s s' fs ds df h g x db :
  db_inv s db →
  x ∈ batch_messages db →
  msg_Status x = MessageStatusPending →
  (∀ m, msg_ID (h m) = msg_ID m ∧ msg_BatchRunID (h m) = msg_BatchRunID m) →
  msg_Status (h x) = s' →
  s' ≠ MessageStatusPending →
  (∀ r, run_ID (g r) = run_ID r ∧ run_TotalCount (g r) = run_TotalCount r
        ∧ run_Status (g r) = run_Status r
        ∧ run_SentCount (g r) = run_SentCount r + ds
        ∧ run_FailedCount (g r) = run_FailedCount r + df) →
  0 ≤ ds ≤ is_status s' MessageStatusSent →
  0 ≤ df ≤ is_status s' MessageStatusFailed →
  (fs = true → ds = is_status s' MessageStatusSent
               ∧ df = is_status s' MessageStatusFailed
               ∧ s' ≠ MessageStatusSending) →
  db_inv (s && fs)
    (with_runs (update_where run_ID (msg_BatchRunID x) g)
       (with_messages (update_where msg_ID (msg_ID x) h) db)).
Proof.
  intros [H1 H2 H3 H4 H5] Hx Hst Hh Hs' Hnp Hg Hds Hdf Hfs.
  assert (∀ id t, cnt id t (update_where msg_ID (msg_ID x) h (batch_messages db))
                  = cnt id t (batch_messages db) - ind id t x + ind id t (h x)) as Hcnt.
  { intros id t. by apply cnt_update_unique. }
  constructor; simpl.
  - rewrite update_where_keys; [done|intros m; apply Hh].
  - rewrite update_where_keys; [done|intros r; apply Hg].
  - intros r' (r & Hr & ->)%elem_of_update_where.
    case_bool_decide; [rewrite (proj1 (Hg r))|]; by apply H3.
  - intros m' (m & Hm & ->)%elem_of_update_where.
    case_bool_decide; [destruct (Hh m) as [-> ->]|]; by apply H4.
  - intros r' (r & Hr & ->)%elem_of_update_where.
    pose proof (H5 r Hr) as (C1 & C2 & C3 & C4).
    pose proof (cnt_nonneg (run_ID r) MessageStatusSending (batch_messages db)).
    pose proof (cnt_nonneg (run_ID r) MessageStatusPending (batch_messages db)).
    case_bool_decide as Hid.
    + destruct (Hg r) as (G1 & G2 & G3 & G4 & G5).
      pose proof (cnt_elem _ _ _ _ Hx (eq_sym Hid) Hst) as Hone.
      unfold counts_ok. rewrite G1, G2, G3, G4, G5, !Hcnt.
      rewrite !(ind_same (run_ID r) _ x) by done.
      rewrite !(ind_same (run_ID r) _ (h x)) by (rewrite (proj2 (Hh x)); done).
      rewrite Hst, Hs'. unfold is_status in *.
      split; [|split; [|split]].
      * destruct s'; repeat (case_bool_decide; try congruence); lia.
      * destruct s'; repeat (case_bool_decide; try congruence); lia.
      * destruct s'; repeat (case_bool_decide; try congruence); lia.
      * intros [Hs ->]%andb_true_iff.
        destruct (Hfs eq_refl) as (F1 & F2 & F3).
        destruct (C4 Hs) as (D1 & D2 & D3 & D4 & D5).
        split; [|split; [|split; [|split]]].
        -- destruct s'; repeat (case_bool_decide; try congruence); lia.
        -- destruct s'; repeat (case_bool_decide; try congruence); lia.
        -- destruct s'; repeat (case_bool_decide; try congruence); lia.
        -- intros Hc. specialize (D4 Hc). lia.
        -- destruct s'; repeat (case_bool_decide; try congruence); lia.
    + unfold counts_ok. rewrite !Hcnt.
      rewrite !(ind_other (run_ID r) _ x) by done.
      rewrite !(ind_other (run_ID r) _ (h x)) by (rewrite (proj2 (Hh x)); done).
      rewrite !Z.sub_0_r, !Z.add_0_r.
      split; [done|]. split; [done|]. split; [done|].
      intros [Hs _]%andb_true_iff. by apply C4.
Qed.

Lemma elem_of_filter_bool {A} (p : A → bool) (rows : list A) x :
  x ∈ List.filter p rows ↔ x ∈ rows ∧ p x = true.
Proof. rewrite !list_elem_of_In. apply List.filter_In. Qed.

Lemma db_inv_create s now draftID groupID gname dtitle tpl members db :
  db_inv s db →
  db_inv s
    (CreateMultiple now (batch_runs_seq db + 1) tpl members
       (Create now draftID groupID gname dtitle BatchStatusQueued
               (Z.of_nat (length members)) db).1).
Proof.
  intros [H1 H2 H3 H4 H5]. constructor; simpl.
  - rewrite fmap_app. apply NoDup_app. split; [done|]. split; [|apply new_messages_NoDup].
    intros i (m & -> & Hm)%list_elem_of_fmap (m' & Hid & Hm')%list_elem_of_fmap.
    apply H4 in Hm. apply new_messages_ids in Hm'. lia.
  - rewrite fmap_app. apply NoDup_app. split; [done|]. split.
    + intros i (r & -> & Hr)%list_elem_of_fmap Hin. simpl in Hin.
      apply list_elem_of_singleton in Hin. apply H3 in Hr. lia.
    + simpl. apply NoDup_singleton.
  - intros r [Hr|Hr]%elem_of_app.
    + apply H3 in Hr. lia.
    + apply list_elem_of_singleton in Hr. subst r. simpl. lia.
  - intros m [Hm|Hm]%elem_of_app.
    + apply H4 in Hm. lia.
    + apply new_messages_ids in Hm. lia.
  - intros r [Hr|Hr]%elem_of_app.
    + pose proof (H3 r Hr). pose proof (H5 r Hr) as HC. unfold counts_ok in *.
      rewrite !cnt_app, !cnt_new_messages.
      rewrite !bool_decide_eq_false_2 by (intros [? _]; lia).
      by rewrite !Z.add_0_r.
    + apply list_elem_of_singleton in Hr. subst r. unfold counts_ok. simpl.
      rewrite !cnt_app, !cnt_new_messages.
      rewrite !(cnt_none (batch_runs_seq db + 1))
        by (intros m Hm Hrun; apply H4 in Hm; lia).
      repeat case_bool_decide; try (exfalso; intuition congruence).
      repeat split; try lia; done.
Qed.

Lemma db_inv_Delete s id db : db_inv s db → db_inv s (Delete id db).1.
Proof.
  intros Hinv. unfold Delete.
  destruct (List.filter (deletable id) (batch_runs db)) as [|r0 gone] eqn:Hgone; [done|].
  destruct Hinv as [H1 H2 H3 H4 H5].
  assert (r0 ∈ batch_runs db ∧ deletable id r0 = true) as [Hr0 Hd0].
  { apply elem_of_filter_bool. rewrite Hgone. by left. }
  apply andb_true_iff in Hd0 as [Hid0 Hnr0]. apply bool_decide_eq_true in Hid0.
  constructor; simpl.
  - by apply NoDup_fmap_filter.
  - by apply NoDup_fmap_filter.
  - intros r [Hr _]%elem_of_filter_bool. by apply H3.
  - intros m [Hm _]%elem_of_filter_bool. by apply H4.
  - intros r [Hr Hkeep]%elem_of_filter_bool.
    assert (run_ID r ≠ id) as Hne.
    { intros Hid. assert (r = r0) as -> by (eapply (elem_of_unique_key run_ID); eauto; congruence).
      unfold deletable in Hkeep. rewrite bool_decide_eq_true_2 in Hkeep by done.
      rewrite Hnr0 in Hkeep. done. }
    pose proof (H5 r Hr) as HC. unfold counts_ok in *.
    by rewrite !cnt_filter_other.
Qed.

(** *** the invariant through the functions of the worker *)

Lemma db_inv_exec s e c f db :
  (db_inv s db → db_inv s (f db)) → db_inv s db → db_inv s (exec e c f db).
Proof. intros Hf Hinv. unfold exec. destruct (fails e c); auto. Qed.

Lemma db_inv_startBatch s run e w :
  db_inv s (store w) → db_inv s (store (startBatch run e w)).
Proof.
  intros Hinv. unfold startBatch.
  destruct (if fails e SC_DraftGetByID then _ else _) as [d|].
  - destruct (fails e SC_Start); [done|]. rewrite store_broadcastProgress.
    by apply db_inv_Start.
  - cbn [store with_store]. apply db_inv_exec; [apply db_inv_Fail|done].
Qed.

Lemma db_inv_checkQueue s e w :
  db_inv s (store w) → db_inv s (store (checkQueue e w)).
Proof.
  intros Hinv. unfold checkQueue. destruct (currentRun w); [done|].
  destruct (fails e SC_GetNextQueued); [done|].
  destruct (GetNextQueued (store w)); [by apply db_inv_startBatch|done].
Qed.

Lemma db_inv_resumeIncompleteRuns s e w :
  db_inv s (store w) → db_inv s (store (resumeIncompleteRuns e w)).
Proof.
  intros Hinv. unfold resumeIncompleteRuns. destruct (fails e SC_GetActive); [done|].
  destruct (GetActive (store w)); [by apply db_inv_startBatch|by apply db_inv_checkQueue].
Qed.

Lemma db_inv_CancelBatch s id e w :
  db_inv s (store w) → db_inv s (store (CancelBatch id e w).1).
Proof.
  intros Hinv. rewrite store_CancelBatch.
  destruct (fails e SC_Cancel); [done|by apply db_inv_Cancel].
Qed.

Lemma db_inv_checkQueue_step s e pc w :
  db_inv s (store w) → db_inv s (store (checkQueue_step e pc w).1).
Proof.
  intros Hinv. destruct pc; cbn [checkQueue_step].
  - by destruct (currentRun w).
  - destruct (fails e SC_GetNextQueued); [done|]. by destruct (GetNextQueued _).
  - destruct (if fails e SC_DraftGetByID then _ else _); [done|].
    cbn [fst store with_store]. apply db_inv_exec; [apply db_inv_Fail|done].
  - destruct (fails e SC_Start); [done|]. by apply db_inv_Start.
  - done.
  - done.
  - cbn [fst]. by rewrite store_broadcastProgress.
Qed.

Lemma db_inv_checkQueue_run s fuel e pc w :
  db_inv s (store w) → db_inv s (store (checkQueue_run fuel e pc w)).
Proof.
  revert pc w. induction fuel as [|n IH]; intros pc w Hinv; cbn [checkQueue_run]; [done|].
  pose proof (db_inv_checkQueue_step s e pc w Hinv) as Hs.
  destruct (checkQueue_step e pc w) as [w' [pc'|]]; cbn [fst] in Hs; [by apply IH|done].
Qed.

Lemma db_inv_completeBatch s id e w :
  db_inv s (store w) →
  cnt id MessageStatusPending (batch_messages (store w)) = 0 →
  db_inv s (store (completeBatch id e w)).
Proof.
  intros Hinv Hp. unfold completeBatch. apply db_inv_checkQueue.
  rewrite store_broadcastEvent. cbn [store set_currentRun with_store].
  apply db_inv_exec; [|done]. intros _. by apply db_inv_Complete.
Qed.

Lemma MarkSending_then h mid db :
  with_messages (update_where msg_ID mid h) (MarkSending mid db)
  = with_messages
      (update_where msg_ID mid (λ m, h (set_msg_status MessageStatusSending m))) db.
Proof.
  unfold MarkSending, with_messages. simpl. f_equal. by apply update_where_compose.
Qed.

Lemma db_inv_dispatch_sent s t content x db :
  db_inv s db → x ∈ batch_messages db → msg_Status x = MessageStatusPending →
  db_inv s (IncrementSentCount (msg_BatchRunID x)
              (MarkSent t (msg_ID x) content (MarkSending (msg_ID x) db))).
Proof.
  intros Hinv Hx Hst. unfold IncrementSentCount, MarkSent. rewrite MarkSending_then.
  rewrite <- (andb_true_r s).
  eapply (db_inv_dispatch s MessageStatusSent true 1 0); dispatch_side.
Qed.

Lemma db_inv_dispatch_failed s err x db :
  db_inv s db → x ∈ batch_messages db → msg_Status x = MessageStatusPending →
  db_inv s (IncrementFailedCount (msg_BatchRunID x)
              (MarkFailed (msg_ID x) err (MarkSending (msg_ID x) db))).
Proof.
  intros Hinv Hx Hst. unfold IncrementFailedCount, MarkFailed. rewrite MarkSending_then.
  rewrite <- (andb_true_r s).
  eapply (db_inv_dispatch s MessageStatusFailed true 0 1); dispatch_side.
Qed.

Lemma db_inv_cut_sending s x db :
  db_inv s db → x ∈ batch_messages db → msg_Status x = MessageStatusPending →
  db_inv false (MarkSending (msg_ID x) db).
Proof.
  intros Hinv Hx Hst. unfold MarkSending.
  rewrite <- (with_runs_same (msg_BatchRunID x)). rewrite <- (andb_false_r s).
  eapply (db_inv_dispatch s MessageStatusSending false 0 0); dispatch_side.
Qed.

Lemma db_inv_cut_sent s t content x db :
  db_inv s db → x ∈ batch_messages db → msg_Status x = MessageStatusPending →
  db_inv false (MarkSent t (msg_ID x) content (MarkSending (msg_ID x) db)).
Proof.
  intros Hinv Hx Hst. unfold MarkSent. rewrite MarkSending_then.
  rewrite <- (with_runs_same (msg_BatchRunID x)). rewrite <- (andb_false_r s).
  eapply (db_inv_dispatch s MessageStatusSent false 0 0); dispatch_side.
Qed.

Lemma db_inv_cut_failed s err x db :
  db_inv s db → x ∈ batch_messages db → msg_Status x = MessageStatusPending →
  db_inv false (MarkFailed (msg_ID x) err (MarkSending (msg_ID x) db)).
Proof.
  intros Hinv Hx Hst. unfold MarkFailed. rewrite MarkSending_then.
  rewrite <- (with_runs_same (msg_BatchRunID x)). rewrite <- (andb_false_r s).
  eapply (db_inv_dispatch s MessageStatusFailed false 0 0); dispatch_side.
Qed.

Lemma store_sendMessage_reliable state msg e w :
  env_faults e = [] →
  store (sendMessage state msg e w)
  = match env_send e with
    | Some err =>
        IncrementFailedCount (BatchID state)
          (MarkFailed (msg_ID msg) ("Send failed: " +:+ err)
             (MarkSending (msg_ID msg) (store w)))
    | None =>
        IncrementSentCount (BatchID state)
          (MarkSent (env_now_after_send e) (msg_ID msg)
             (env_fill e (msg_JID msg) (DraftContent state))
             (MarkSending (msg_ID msg) (store w)))
    end.
Proof.
  intros Hrel. unfold sendMessage. rewrite (fails_reliable e _ Hrel).
  destruct (env_send e); unfold scheduleNextMessage, markMessageFailed, markMessageSent;
    cbn [store set_nextSendAt]; rewrite store_broadcastEvent;
    cbn [store with_store]; rewrite store_broadcastProgress;
    cbn [store with_store set_currentRun]; by rewrite !exec_reliable.
Qed.

Lemma db_inv_sendMessage s state msg e w :
  env_faults e = [] →
  db_inv s (store w) →
  GetNextPending (store w) (BatchID state) = Some msg →
  db_inv s (store (sendMessage state msg e w)).
Proof.
  intros Hrel Hinv (Hin & Hrun & Hst)%GetNextPending_Some.
  rewrite store_sendMessage_reliable by done. rewrite <- Hrun.
  destruct (env_send e); [by apply db_inv_dispatch_failed|by apply db_inv_dispatch_sent].
Qed.

Lemma db_inv_processNextMessage s e w :
  env_faults e = [] →
  db_inv s (store w) → db_inv s (store (processNextMessage e w)).
Proof.
  intros Hrel Hinv. unfold processNextMessage.
  destruct (currentRun w) as [current|]; [|by apply db_inv_checkQueue].
  case_bool_decide; [by rewrite store_broadcastProgress|].
  destruct (negb (env_connected e)); [done|].
  rewrite (fails_reliable e _ Hrel).
  destruct (GetNextPending (store w) (BatchID current)) as [msg|] eqn:Hnext.
  - by apply db_inv_sendMessage.
  - apply db_inv_completeBatch; [done|]. apply cnt_none.
    intros m Hm Hrun. by eapply GetNextPending_None.
Qed.

Lemma db_inv_interrupted_dispatch s p e w :
  env_faults e = [] →
  db_inv s (store w) → db_inv false (interrupted_dispatch p e w).
Proof.
  intros Hrel Hinv. unfold interrupted_dispatch.
  destruct (currentRun w) as [current|]; [|by eapply db_inv_weaken].
  destruct (_ || _); [by eapply db_inv_weaken|].
  destruct (GetNextPending (store w) (BatchID current)) as [msg|] eqn:Hnext;
    [|by eapply db_inv_weaken].
  apply GetNextPending_Some in Hnext as (Hin & Hrun & Hst).
  rewrite !(fails_reliable e _ Hrel).
  destruct p; [rewrite !exec_reliable by done; by eapply db_inv_cut_sending|].
  destruct (env_send e); rewrite !exec_reliable by done;
    [by eapply db_inv_cut_failed|by eapply db_inv_cut_sent].
Qed.

(** *** the create handler, whole and in two halves *)

Lemma createBatch_run_reliable draftID groupID groupName members e w :
  env_faults e = [] →
  createBatch_run draftID groupID groupName members e w
  = match DraftGetByID (store w) draftID with
    | None => (w, None)
    | Some draft =>
        match members with
        | [] => (w, None)
        | _ =>
            (with_store
               (λ _, (Create (env_now e) draftID groupID groupName (draft_Title draft)
                             BatchStatusQueued (Z.of_nat (length members)) (store w)).1)
               w,
             Some (batch_runs_seq (store w) + 1, draft_Content draft))
        end
    end.
Proof.
  intros Hrel. unfold createBatch_run. rewrite !(fails_reliable e _ Hrel).
  destruct (DraftGetByID (store w) draftID) as [d|]; [|done]. by destruct members.
Qed.

Lemma GetByID_Create_is_Some now draftID groupID gname dtitle status total db :
  is_Some (GetByID (Create now draftID groupID gname dtitle status total db).1
                   (batch_runs_seq db + 1)).
Proof.
  unfold GetByID, Create. cbn [fst batch_runs].
  destruct (List.find _ (batch_runs db ++ _)) as [r|] eqn:Hfind; [done|].
  exfalso. apply List.find_none with (x := mkBatchRun (batch_runs_seq db + 1) draftID
    groupID gname dtitle status total 0 0 None None None now) in Hfind.
  - cbn in Hfind. by rewrite bool_decide_eq_true_2 in Hfind.
  - apply List.in_or_app. right. by left.
Qed.

(** With a store that accepts its writes, the handler run in one piece
    inserts the run and its messages. *)
Lemma createBatch_reliable draftID groupID groupName members e w :
  env_faults e = [] →
  createBatch draftID groupID groupName members e w
  = match DraftGetByID (store w) draftID with
    | None => w
    | Some draft =>
        match members with
        | [] => w
        | _ =>
            with_store
              (λ _, CreateMultiple (env_now e) (batch_runs_seq (store w) + 1)
                      (draft_Content draft) members
                      (Create (env_now e) draftID groupID groupName (draft_Title draft)
                              BatchStatusQueued (Z.of_nat (length members)) (store w)).1)
              w
        end
    end.
Proof.
  intros Hrel. unfold createBatch. rewrite createBatch_run_reliable by done.
  destruct (DraftGetByID (store w) draftID) as [d|]; [|done].
  destruct members as [|mb members]; [done|].
  unfold createBatch_messages. rewrite (fails_reliable e _ Hrel). cbn [store with_store].
  destruct (GetByID_Create_is_Some (env_now e) draftID groupID groupName (draft_Title d)
              BatchStatusQueued (Z.of_nat (length (mb :: members))) (store w)) as [r ->].
  done.
Qed.

(** The run alone, between the two writes: it has no message row yet. *)
Lemma db_inv_Create s now draftID groupID gname dtitle total db :
  0 ≤ total →
  db_inv s db →
  db_inv false (Create now draftID groupID gname dtitle BatchStatusQueued total db).1.
Proof.
  intros Htot [H1 H2 H3 H4 H5]. constructor; simpl.
  - done.
  - rewrite fmap_app. apply NoDup_app. split; [done|]. split.
    + intros i (r & -> & Hr)%list_elem_of_fmap Hin. simpl in Hin.
      apply list_elem_of_singleton in Hin. apply H3 in Hr. lia.
    + simpl. apply NoDup_singleton.
  - intros r [Hr|Hr]%elem_of_app.
    + apply H3 in Hr. lia.
    + apply list_elem_of_singleton in Hr. subst r. simpl. lia.
  - intros m Hm. apply H4 in Hm. lia.
  - intros r [Hr|Hr]%elem_of_app.
    + eapply counts_ok_weaken. by apply H5.
    + apply list_elem_of_singleton in Hr. subst r. unfold counts_ok. simpl.
      rewrite !(cnt_none (batch_runs_seq db + 1))
        by (intros m Hm Hrun; apply H4 in Hm; lia).
      repeat split; try lia; done.
Qed.

(** The messages of a run that has none, inserted later. *)
Lemma db_inv_CreateMultiple s now id tpl members db :
  db_inv s db →
  id ≤ batch_runs_seq db →
  (∀ m, m ∈ batch_messages db → msg_BatchRunID m ≠ id) →
  (∀ r, r ∈ batch_runs db → run_ID r = id →
        run_TotalCount r = Z.of_nat (length members)) →
  db_inv false (CreateMultiple now id tpl members db).
Proof.
  intros [H1 H2 H3 H4 H5] Hid Hnone Htot. constructor; simpl.
  - rewrite fmap_app. apply NoDup_app. split; [done|]. split; [|apply new_messages_NoDup].
    intros i (m & -> & Hm)%list_elem_of_fmap (m' & Heq & Hm')%list_elem_of_fmap.
    apply H4 in Hm. apply new_messages_ids in Hm'. lia.
  - done.
  - done.
  - intros m [Hm|Hm]%elem_of_app.
    + apply H4 in Hm. lia.
    + apply new_messages_ids in Hm. lia.
  - intros r Hr. pose proof (H5 r Hr) as (C1 & C2 & C3 & _).
    unfold counts_ok. rewrite !cnt_app, !cnt_new_messages.
    destruct (decide (run_ID r = id)) as [Heq|Hne].
    + assert (∀ st, cnt id st (batch_messages db) = 0) as Hz.
      { intros st. apply cnt_none. intros m Hm Hrun _. by apply (Hnone m Hm). }
      rewrite Heq in C1, C2, C3 |- *. rewrite (Htot r Hr Heq).
      pose proof (Hz MessageStatusPending). pose proof (Hz MessageStatusSending).
      pose proof (Hz MessageStatusSent). pose proof (Hz MessageStatusFailed).
      repeat case_bool_decide; try (exfalso; intuition congruence).
      split; [lia|]. split; [lia|]. split; [lia|]. intros [=].
    + rewrite !bool_decide_eq_false_2 by (intros [? _]; congruence).
      rewrite !Z.add_0_r. split; [lia|]. split; [lia|]. split; [lia|]. intros [=].
Qed.

(** *** what the writes of the worker keep *)

Lemma store_keeps_refl db : store_keeps db db.
Proof.
  split; [done|]. split.
  - intros m Hm. by exists m.
  - intros r Hr. by exists r.
Qed.

Lemma store_keeps_trans db1 db2 db3 :
  store_keeps db1 db2 → store_keeps db2 db3 → store_keeps db1 db3.
Proof.
  intros (S12 & M12 & R12) (S23 & M23 & R23). split; [congruence|]. split.
  - intros m3 Hm3. destruct (M23 m3 Hm3) as (m2 & Hm2 & E2).
    destruct (M12 m2 Hm2) as (m1 & Hm1 & E1). exists m1. split; [done|congruence].
  - intros r3 Hr3. destruct (R23 r3 Hr3) as (r2 & Hr2 & E2 & T2).
    destruct (R12 r2 Hr2) as (r1 & Hr1 & E1 & T1). exists r1.
    split; [done|]. split; congruence.
Qed.

Lemma store_keeps_runs id g db :
  (∀ r, run_ID (g r) = run_ID r ∧ run_TotalCount (g r) = run_TotalCount r) →
  store_keeps db (with_runs (update_where run_ID id g) db).
Proof.
  intros Hg. split; [done|]. split.
  - intros m Hm. by exists m.
  - intros r' (r & Hr & ->)%elem_of_update_where. exists r. split; [done|].
    case_bool_decide; [|done]. by destruct (Hg r) as [-> ->].
Qed.

Lemma store_keeps_messages id h db :
  (∀ m, msg_BatchRunID (h m) = msg_BatchRunID m) →
  store_keeps db (with_messages (update_where msg_ID id h) db).
Proof.
  intros Hh. split; [done|]. split.
  - intros m' (m & Hm & ->)%elem_of_update_where. exists m. split; [done|].
    case_bool_decide; [|done]. by rewrite Hh.
  - intros r Hr. by exists r.
Qed.

Lemma store_keeps_exec e c f db :
  store_keeps db (f db) → store_keeps db (exec e c f db).
Proof. intros Hf. unfold exec. destruct (fails e c); [apply store_keeps_refl|done]. Qed.

Lemma store_keeps_Delete id db : store_keeps db (Delete id db).1.
Proof.
  unfold Delete. destruct (List.filter (deletable id) (batch_runs db));
    [apply store_keeps_refl|].
  split; [done|]. split.
  - intros m [Hm _]%elem_of_filter_bool. by exists m.
  - intros r [Hr _]%elem_of_filter_bool. by exists r.
Qed.

Lemma store_keeps_set_drafts drafts db : store_keeps db (set_drafts drafts db).
Proof.
  split; [done|]. split.
  - intros m Hm. by exists m.
  - intros r Hr. by exists r.
Qed.

Create HintDb keeps discriminated.

Lemma store_keeps_Start now id db : store_keeps db (Start now id db).
Proof. by apply store_keeps_runs. Qed.
Lemma store_keeps_Fail now id err db : store_keeps db (Fail now id err db).
Proof. by apply store_keeps_runs. Qed.
Lemma store_keeps_Complete now id db : store_keeps db (Complete now id db).
Proof. by apply store_keeps_runs. Qed.
Lemma store_keeps_Cancel now id db : store_keeps db (Cancel now id db).
Proof. apply store_keeps_runs. intros r. by destruct (_ || _). Qed.
Lemma store_keeps_IncrementSentCount id db : store_keeps db (IncrementSentCount id db).
Proof. by apply store_keeps_runs. Qed.
Lemma store_keeps_IncrementFailedCount id db : store_keeps db (IncrementFailedCount id db).
Proof. by apply store_keeps_runs. Qed.
Lemma store_keeps_MarkSending id db : store_keeps db (MarkSending id db).
Proof. by apply store_keeps_messages. Qed.
Lemma store_keeps_MarkSent now id content db : store_keeps db (MarkSent now id content db).
Proof. by apply store_keeps_messages. Qed.
Lemma store_keeps_MarkFailed id err db : store_keeps db (MarkFailed id err db).
Proof. by apply store_keeps_messages. Qed.

#[local] Hint Resolve store_keeps_refl store_keeps_Start store_keeps_Fail
  store_keeps_Complete store_keeps_Cancel store_keeps_IncrementSentCount
  store_keeps_IncrementFailedCount store_keeps_MarkSending store_keeps_MarkSent
  store_keeps_MarkFailed store_keeps_exec store_keeps_Delete : keeps.

Lemma store_keeps_startBatch run e w :
  store_keeps (store w) (store (startBatch run e w)).
Proof.
  unfold startBatch. destruct (if fails e SC_DraftGetByID then _ else _) as [d|].
  - destruct (fails e SC_Start); [auto with keeps|]. rewrite store_broadcastProgress.
    cbn [store scheduleNextMessage set_nextSendAt set_currentRun with_store].
    auto with keeps.
  - cbn [store with_store]. auto with keeps.
Qed.

Lemma store_keeps_checkQueue e w : store_keeps (store w) (store (checkQueue e w)).
Proof.
  unfold checkQueue. destruct (currentRun w); [auto with keeps|].
  destruct (fails e SC_GetNextQueued); [auto with keeps|].
  destruct (GetNextQueued (store w)); [apply store_keeps_startBatch|auto with keeps].
Qed.

Lemma store_keeps_resumeIncompleteRuns e w :
  store_keeps (store w) (store (resumeIncompleteRuns e w)).
Proof.
  unfold resumeIncompleteRuns. destruct (fails e SC_GetActive); [auto with keeps|].
  destruct (GetActive (store w)); [apply store_keeps_startBatch|apply store_keeps_checkQueue].
Qed.

Lemma store_keeps_CancelBatch id e w : store_keeps (store w) (store (CancelBatch id e w).1).
Proof. rewrite store_CancelBatch. destruct (fails e SC_Cancel); auto with keeps. Qed.

Lemma store_keeps_checkQueue_step e pc w :
  store_keeps (store w) (store (checkQueue_step e pc w).1).
Proof.
  destruct pc; cbn [checkQueue_step].
  - destruct (currentRun w); auto with keeps.
  - destruct (fails e SC_GetNextQueued); [auto with keeps|].
    destruct (GetNextQueued _); auto with keeps.
  - destruct (if fails e SC_DraftGetByID then _ else _); [auto with keeps|].
    cbn [fst store with_store]. auto with keeps.
  - destruct (fails e SC_Start); cbn [fst store with_store]; auto with keeps.
  - auto with keeps.
  - auto with keeps.
  - cbn [fst]. rewrite store_broadcastProgress. auto with keeps.
Qed.

Lemma store_keeps_checkQueue_run fuel e pc w :
  store_keeps (store w) (store (checkQueue_run fuel e pc w)).
Proof.
  revert pc w. induction fuel as [|n IH]; intros pc w; cbn [checkQueue_run];
    [auto with keeps|].
  pose proof (store_keeps_checkQueue_step e pc w) as Hs.
  destruct (checkQueue_step e pc w) as [w' [pc'|]]; cbn [fst] in Hs; [|done].
  eapply store_keeps_trans; [exact Hs|apply IH].
Qed.

Lemma store_keeps_completeBatch id e w :
  store_keeps (store w) (store (completeBatch id e w)).
Proof.
  unfold completeBatch. eapply store_keeps_trans; [|apply store_keeps_checkQueue].
  rewrite store_broadcastEvent. cbn [store set_currentRun with_store]. auto with keeps.
Qed.

Lemma store_keeps_markMessageSent id msg content name e w :
  store_keeps (store w) (store (markMessageSent id msg content name e w)).
Proof.
  unfold markMessageSent. rewrite store_broadcastEvent. cbn [store with_store].
  eapply store_keeps_trans;
    [apply store_keeps_exec, store_keeps_MarkSent
    |apply store_keeps_exec, store_keeps_IncrementSentCount].
Qed.

Lemma store_keeps_markMessageFailed id msg err e w :
  store_keeps (store w) (store (markMessageFailed id msg err e w)).
Proof.
  unfold markMessageFailed. rewrite store_broadcastEvent. cbn [store with_store].
  eapply store_keeps_trans;
    [apply store_keeps_exec, store_keeps_MarkFailed
    |apply store_keeps_exec, store_keeps_IncrementFailedCount].
Qed.

Lemma store_keeps_sendMessage state msg e w :
  store_keeps (store w) (store (sendMessage state msg e w)).
Proof.
  unfold sendMessage.
  assert (∀ w1 : option ActiveBatchState,
            store_keeps (store w)
              (store (broadcastProgress (BatchID state) e
                        (with_store (exec e SC_MarkSending (MarkSending (msg_ID msg)))
                           (set_currentRun w1 w))))) as Hfirst.
  { intros w1. rewrite store_broadcastProgress. cbn [store with_store set_currentRun].
    auto with keeps. }
  destruct (fails e SC_GetAllForContact); [|destruct (env_send e)];
    unfold scheduleNextMessage; cbn [store set_nextSendAt];
    (eapply store_keeps_trans; [apply Hfirst|]);
    (apply store_keeps_markMessageFailed || apply store_keeps_markMessageSent).
Qed.

Lemma store_keeps_processNextMessage e w :
  store_keeps (store w) (store (processNextMessage e w)).
Proof.
  unfold processNextMessage.
  destruct (currentRun w) as [current|]; [|apply store_keeps_checkQueue].
  case_bool_decide; [rewrite store_broadcastProgress; auto with keeps|].
  destruct (negb (env_connected e)); [auto with keeps|].
  destruct (fails e SC_GetNextPending); [auto with keeps|].
  destruct (GetNextPending (store w) (BatchID current)) as [msg|];
    [apply store_keeps_sendMessage|apply store_keeps_completeBatch].
Qed.

Lemma store_keeps_interrupted_dispatch p e w :
  store_keeps (store w) (interrupted_dispatch p e w).
Proof.
  unfold interrupted_dispatch.
  destruct (currentRun w) as [current|]; [|auto with keeps].
  destruct (_ || _); [auto with keeps|].
  destruct (GetNextPending (store w) (BatchID current)) as [msg|]; [|auto with keeps].
  destruct p; [auto with keeps|].
  destruct (fails e SC_GetAllForContact); [|destruct (env_send e)];
    (eapply store_keeps_trans; [apply store_keeps_exec, store_keeps_MarkSending|]);
    auto with keeps.
Qed.
(** *** the goroutines a tick leaves *)

Lemma goroutines_sendMessage state msg e w :
  goroutines (sendMessage state msg e w) = goroutines w.
Proof.
  unfold sendMessage.
  destruct (fails e SC_GetAllForContact); [|destruct (env_send e)];
    unfold scheduleNextMessage, markMessageFailed, markMessageSent;
    cbn [goroutines set_nextSendAt]; rewrite goroutines_broadcastEvent;
    cbn [goroutines with_store]; by rewrite goroutines_broadcastProgress.
Qed.

Lemma goroutines_processNextMessage e w :
  goroutines (processNextMessage e w) = goroutines w.
Proof.
  unfold processNextMessage.
  destruct (currentRun w) as [current|]; [|apply goroutines_checkQueue].
  case_bool_decide; [by rewrite goroutines_broadcastProgress|].
  destruct (negb (env_connected e)); [done|].
  destruct (fails e SC_GetNextPending); [done|].
  destruct (GetNextPending _ _);
    [apply goroutines_sendMessage|apply goroutines_completeBatch].
Qed.

Lemma goroutines_resumeIncompleteRuns e w :
  goroutines (resumeIncompleteRuns e w) = goroutines w.
Proof.
  unfold resumeIncompleteRuns. destruct (fails e SC_GetActive); [done|].
  destruct (GetActive _); [apply goroutines_startBatch|apply goroutines_checkQueue].
Qed.


(** *** create handlers between their two writes *)

Lemma pending_ids_elem gs id :
  id ∈ pending_ids gs ↔ ∃ tpl ms, GoCreateMessages id tpl ms ∈ gs.
Proof.
  unfold pending_ids. rewrite list_elem_of_omap. split.
  - intros (g & Hg & Hf). destruct g; try done. injection Hf as ->. eauto.
  - intros (tpl & ms & Hg). eexists. split; [exact Hg|done].
Qed.

Lemma pending_ids_app gs gs' : pending_ids (gs ++ gs') = pending_ids gs ++ pending_ids gs'.
Proof. apply omap_app. Qed.

Lemma pending_ids_middle gs i g :
  gs !! i = Some g →
  pending_ids gs
  = pending_ids (take i gs) ++ pending_ids [g] ++ pending_ids (drop (S i) gs).
Proof.
  intros Hi. rewrite <- (take_drop_middle gs i g Hi) at 1.
  rewrite pending_ids_app. f_equal. apply (pending_ids_app [g]).
Qed.

Lemma NoDup_app_without {A} (a b c : list A) : NoDup (a ++ b ++ c) → NoDup (a ++ c).
Proof.
  rewrite !NoDup_app. intros (Ha & Hac & Hb & Hbc & Hc). split; [done|]. split; [|done].
  intros x Hx Hxc. apply (Hac x Hx). apply elem_of_app. by right.
Qed.

Lemma pending_ids_delete gs i :
  NoDup (pending_ids gs) → NoDup (pending_ids (delete i gs)).
Proof.
  intros Hnd. destruct (gs !! i) as [g|] eqn:Hi.
  - rewrite (pending_ids_middle gs i g Hi) in Hnd.
    rewrite delete_take_drop, pending_ids_app. by eapply NoDup_app_without.
  - rewrite delete_take_drop, take_ge, drop_ge, app_nil_r;
      [done| |]; apply lookup_ge_None in Hi; lia.
Qed.

Lemma pending_ids_insert gs i pc pc' :
  gs !! i = Some (GoCheckQueue pc) →
  pending_ids (<[i := GoCheckQueue pc']> gs) = pending_ids gs.
Proof.
  intros Hi. rewrite (pending_ids_middle gs i _ Hi).
  rewrite insert_take_drop by (by eapply lookup_lt_Some).
  rewrite pending_ids_app. by f_equal.
Qed.

Lemma pending_ids_others gs i id tpl ms id' tpl' ms' :
  NoDup (pending_ids gs) →
  gs !! i = Some (GoCreateMessages id tpl ms) →
  GoCreateMessages id' tpl' ms' ∈ delete i gs → id' ≠ id.
Proof.
  intros Hnd Hi Hin ->. rewrite (pending_ids_middle gs i _ Hi) in Hnd. cbn in Hnd.
  apply NoDup_app in Hnd as (_ & Hleft & Hnd). apply NoDup_cons in Hnd as [Hright _].
  rewrite delete_take_drop in Hin. apply elem_of_app in Hin as [Hin|Hin].
  - apply (Hleft id); [apply pending_ids_elem; eauto|apply list_elem_of_here].
  - apply Hright. apply pending_ids_elem. eauto.
Qed.

Lemma handlers_ok_sub w w' :
  NoDup (pending_ids (goroutines w')) →
  (∀ id tpl ms, GoCreateMessages id tpl ms ∈ goroutines w' →
                GoCreateMessages id tpl ms ∈ goroutines w) →
  store_keeps (store w) (store w') →
  handlers_ok w → handlers_ok w'.
Proof.
  intros Hnd Hsub (Hs & Hm & Hr) [_ Hok]. split; [done|].
  intros id tpl ms Hin. destruct (Hok id tpl ms (Hsub _ _ _ Hin)) as (A & B & C).
  split; [by rewrite Hs|]. split.
  - intros m' Hm'. destruct (Hm m' Hm') as (m & Hmin & <-). by apply B.
  - intros r' Hr' Hid. destruct (Hr r' Hr') as (r & Hrin & Eid & <-).
    apply C; [done|congruence].
Qed.

Lemma handlers_ok_keeps w w' :
  goroutines w' = goroutines w → store_keeps (store w) (store w') →
  handlers_ok w → handlers_ok w'.
Proof.
  intros Hg Hk Hok. apply (handlers_ok_sub w); try done; rewrite Hg; [apply Hok|done].
Qed.

Lemma handlers_ok_none w : goroutines w = [] → handlers_ok w.
Proof.
  intros Hg. split; rewrite Hg; [constructor|]. by intros id tpl ms ?%elem_of_nil.
Qed.

Lemma goroutines_checkQueue_step e pc w :
  goroutines (checkQueue_step e pc w).1 = goroutines w.
Proof.
  destruct pc; cbn [checkQueue_step].
  - by destruct (currentRun w).
  - destruct (fails e SC_GetNextQueued); [done|]. by destruct (GetNextQueued _).
  - by destruct (if fails e SC_DraftGetByID then _ else _).
  - by destruct (fails e SC_Start).
  - done.
  - done.
  - cbn [fst]. by rewrite goroutines_broadcastProgress.
Qed.

Lemma goroutines_checkQueue_run fuel e pc w :
  goroutines (checkQueue_run fuel e pc w) = goroutines w.
Proof.
  revert pc w. induction fuel as [|n IH]; intros pc w; cbn [checkQueue_run]; [done|].
  pose proof (goroutines_checkQueue_step e pc w) as Hs.
  destruct (checkQueue_step e pc w) as [w' [pc'|]]; cbn [fst] in Hs; [|done].
  by rewrite IH.
Qed.

Lemma goroutines_CancelBatch id e w :
  goroutines (CancelBatch id e w).1
  = if fails e SC_Cancel then goroutines w
    else goroutines w
         ++ [GoBroadcastEvent id (cancelled_event id); GoCheckQueue CQ_entry].
Proof.
  unfold CancelBatch.
  assert (goroutines
            match currentRun w with
            | Some c => if bool_decide (BatchID c = id)
                        then set_currentRun None w else w
            | None => w
            end = goroutines w) as Hg.
  { destruct (currentRun w); [|done]. by case_bool_decide. }
  destruct (fails e SC_Cancel); cbn [fst goroutines set_goroutines with_store];
    by rewrite Hg.
Qed.

Lemma handlers_ok_step s a w :
  reliable a = true →
  db_inv s (store w) → handlers_ok w → handlers_ok (exec_action a w).
Proof.
  intros Hrel Hinv Hok.
  destruct a; cbn [exec_action]; unfold reliable in Hrel; cbn [action_env] in Hrel;
    try apply bool_decide_eq_true in Hrel.
  - apply (handlers_ok_keeps w); [apply goroutines_processNextMessage| |done].
    apply store_keeps_processNextMessage.
  - apply (handlers_ok_sub w); [| |apply store_keeps_CancelBatch|done];
      rewrite goroutines_CancelBatch, (fails_reliable e _ Hrel).
    + rewrite pending_ids_app, app_nil_r. apply Hok.
    + intros id tpl ms [Hin|Hin]%elem_of_app; [done|].
      apply elem_of_cons in Hin as [Hin|Hin]; [done|].
      by apply list_elem_of_singleton in Hin.
  - destruct (goroutines w !! i) as [[id ev|pc|rid tpl ms]|] eqn:Hi; cbv zeta;
      [| |done|done].
    + apply (handlers_ok_sub w); cbn; [|intros ? ? ?; apply list_elem_of_delete_inv| |done].
      * by apply pending_ids_delete, Hok.
      * apply store_keeps_refl.
    + apply (handlers_ok_sub w); rewrite ?goroutines_checkQueue_run; cbn;
        [|intros ? ? ?; apply list_elem_of_delete_inv| |done].
      * by apply pending_ids_delete, Hok.
      * apply (store_keeps_checkQueue_run 7 e pc
                 (set_goroutines (delete i (goroutines w)) w)).
  - destruct (goroutines w !! i) as [[id ev|pc|rid tpl ms]|] eqn:Hi; [| |done|done].
    + apply (handlers_ok_sub w); cbn; [|intros ? ? ?; apply list_elem_of_delete_inv| |done].
      * by apply pending_ids_delete, Hok.
      * apply store_keeps_refl.
    + pose proof (goroutines_checkQueue_step e pc w) as Hg.
      pose proof (store_keeps_checkQueue_step e pc w) as Hk.
      destruct (checkQueue_step e pc w) as [w1 [pc'|]]; cbn [fst] in Hg, Hk;
        apply (handlers_ok_sub w); cbn [goroutines store set_goroutines]; rewrite ?Hg;
        try done.
      * erewrite pending_ids_insert by done. apply Hok.
      * intros id tpl ms (j & Hj)%list_elem_of_lookup.
        apply list_lookup_insert_Some in Hj as [(_ & [=] & _)|[_ Hj]].
        apply list_elem_of_lookup. by exists j.
      * by apply pending_ids_delete, Hok.
      * intros ? ? ?. apply list_elem_of_delete_inv.
  - rewrite createBatch_reliable by done.
    destruct (DraftGetByID (store w) draftID) as [d|]; [|done].
    destruct members as [|mb members]; [done|].
    destruct Hok as [Hnd Hok]. split; [done|]. intros id tpl ms Hin.
    destruct (Hok id tpl ms Hin) as (A & B & C).
    cbn [goroutines store with_store] in *. unfold CreateMultiple, Create.
    cbn [fst batch_runs batch_messages batch_runs_seq].
    split; [lia|]. split.
    + intros m [Hm|Hm]%elem_of_app; [by apply B|].
      apply new_messages_ids in Hm as [_ ->]. lia.
    + intros r [Hr|Hr]%elem_of_app Hid; [by apply C|].
      apply list_elem_of_singleton in Hr. subst r. cbn in Hid. lia.
  - apply (handlers_ok_keeps w); [done| |done]. apply store_keeps_Delete.
  - apply (handlers_ok_keeps w); [done| |done]. apply store_keeps_set_drafts.
  - apply (handlers_ok_keeps w); [done| |done]. apply store_keeps_refl.
  - unfold Unsubscribe. case_bool_decide; [|done].
    apply (handlers_ok_keeps w); [done| |done]. apply store_keeps_refl.
  - unfold receive. destruct (heap w !! ch); [|done].
    apply (handlers_ok_keeps w); [done| |done]. apply store_keeps_refl.
  - apply handlers_ok_none. by rewrite goroutines_resumeIncompleteRuns.
  - apply handlers_ok_none. by rewrite goroutines_resumeIncompleteRuns.
  - rewrite createBatch_run_reliable by done.
    destruct (DraftGetByID (store w) draftID) as [d|]; [|done].
    destruct members as [|mb members]; [done|].
    set (ms0 := mb :: members). destruct Hok as [Hnd Hok]. unfold handlers_ok.
    cbn [goroutines store with_store set_goroutines]. unfold Create.
    cbn [fst batch_runs batch_messages batch_runs_seq]. split.
    + rewrite pending_ids_app. cbn. apply NoDup_app. split; [done|].
      split; [|apply NoDup_singleton].
      intros id (tpl & ms & Hin)%pending_ids_elem Heq%list_elem_of_singleton.
      destruct (Hok id tpl ms Hin) as (A & _). lia.
    + intros id tpl ms [Hin|Hin]%elem_of_app.
      * destruct (Hok id tpl ms Hin) as (A & B & C).
        split; [lia|]. split; [done|].
        intros r [Hr|Hr]%elem_of_app Hid; [by apply C|].
        apply list_elem_of_singleton in Hr. subst r. cbn in Hid. lia.
      * apply list_elem_of_singleton in Hin. injection Hin as -> -> ->.
        split; [lia|]. split.
        -- intros m Hm. destruct (inv_msg_seq _ _ Hinv m Hm). lia.
        -- intros r [Hr|Hr]%elem_of_app Hid.
           ++ pose proof (inv_run_seq _ _ Hinv r Hr). lia.
           ++ apply list_elem_of_singleton in Hr. by subst r.
  - destruct (goroutines w !! i) as [[id ev|pc|rid tpl ms]|] eqn:Hi; try done.
    unfold createBatch_messages. rewrite (fails_reliable e _ Hrel).
    cbn [store set_goroutines].
    destruct Hok as [Hnd Hok].
    destruct (GetByID (store w) rid) as [r0|].
    + split; [by apply pending_ids_delete|].
      cbn [goroutines store with_store set_goroutines].
      intros id' tpl' ms' Hin.
      pose proof (pending_ids_others _ _ _ _ _ _ _ _ Hnd Hi Hin) as Hne.
      destruct (Hok id' tpl' ms' (list_elem_of_delete_inv _ _ _ Hin)) as (A & B & C).
      unfold CreateMultiple. cbn [batch_runs batch_messages batch_runs_seq].
      split; [done|]. split; [|done].
      intros m [Hm|Hm]%elem_of_app; [by apply B|].
      apply new_messages_ids in Hm as [_ ->]. done.
    + apply (handlers_ok_sub w); cbn [goroutines store with_store set_goroutines];
        [by apply pending_ids_delete|intros ? ? ?; apply list_elem_of_delete_inv| |by split].
      apply store_keeps_Delete.
Qed.

Lemma db_inv_step s a w :
  reliable a = true →
  handlers_ok w →
  db_inv s (store w) →
  db_inv (s && uninterrupted a && undivided a) (store (exec_action a w)).
Proof.
  intros Hrel Hok Hinv.
  destruct a; cbn [uninterrupted undivided]; rewrite ?andb_true_r, ?andb_false_r;
    cbn [exec_action]; unfold reliable in Hrel; cbn [action_env] in Hrel;
    try apply bool_decide_eq_true in Hrel.
  - by apply db_inv_processNextMessage.
  - by apply db_inv_CancelBatch.
  - destruct (goroutines w !! i) as [[id ev|pc|rid tpl ms]|]; cbv zeta;
      [done| |done|done].
    by apply db_inv_checkQueue_run.
  - destruct (goroutines w !! i) as [[id ev|pc|rid tpl ms]|]; [done| |done|done].
    pose proof (db_inv_checkQueue_step s e pc w Hinv) as Hs.
    by destruct (checkQueue_step e pc w) as [w1 [pc'|]].
  - rewrite createBatch_reliable by done.
    destruct (DraftGetByID (store w) draftID) as [d|]; [|done].
    destruct members as [|mb members]; [done|].
    cbn [Create store with_store]. by apply db_inv_create.
  - unfold deleteBatch. cbn [store with_store]. by apply db_inv_Delete.
  - cbn [store with_store]. by apply db_inv_set_drafts.
  - done.
  - unfold Unsubscribe. by case_bool_decide.
  - unfold receive. by destruct (heap w !! ch).
  - by apply db_inv_resumeIncompleteRuns.
  - apply db_inv_resumeIncompleteRuns. cbn [store NewWorker].
    by eapply db_inv_interrupted_dispatch.
  - rewrite createBatch_run_reliable by done.
    destruct (DraftGetByID (store w) draftID) as [d|]; [|by eapply db_inv_weaken].
    destruct members as [|mb members]; [by eapply db_inv_weaken|].
    cbn [store with_store set_goroutines]. eapply db_inv_Create; [lia|done].
  - destruct (goroutines w !! i) as [[id ev|pc|rid tpl ms]|] eqn:Hi;
      try by eapply db_inv_weaken.
    unfold createBatch_messages. rewrite (fails_reliable e _ Hrel).
    cbn [store set_goroutines].
    destruct (proj2 Hok rid tpl ms) as (A & B & C);
      [apply list_elem_of_lookup; by exists i|].
    destruct (GetByID (store w) rid) as [r0|]; cbn [store with_store set_goroutines].
    + by eapply db_inv_CreateMultiple.
    + eapply db_inv_weaken. by apply db_inv_Delete.
Qed.

Lemma db_inv_trace tr : ∀ s w,
  forallb reliable tr = true →
  handlers_ok w →
  db_inv s (store w) →
  db_inv (s && forallb uninterrupted tr && forallb undivided tr) (store (run_trace tr w))
  ∧ handlers_ok (run_trace tr w).
Proof.
  induction tr as [|a tr IH]; intros s w Hrel Hok Hinv; cbn [forallb run_trace foldl].
  - by rewrite !andb_true_r.
  - apply andb_true_iff in Hrel as [Ha Htr].
    replace (s && (uninterrupted a && forallb uninterrupted tr)
             && (undivided a && forallb undivided tr))
      with (s && uninterrupted a && undivided a
            && forallb uninterrupted tr && forallb undivided tr)
      by (destruct s, (uninterrupted a), (undivided a), (forallb uninterrupted tr); done).
    apply IH; [done|by eapply handlers_ok_step|by apply db_inv_step].
Qed.

(** The invariant of the store in the states the system reaches. *)
Lemma db_inv_reachable drafts tr :
  forallb reliable tr = true →
  db_inv (forallb uninterrupted tr && forallb undivided tr)
         (store (run_trace tr (initial drafts)))
  ∧ handlers_ok (run_trace tr (initial drafts)).
Proof.
  intros Hrel.
  apply (db_inv_trace tr true (initial drafts) Hrel);
    [by apply handlers_ok_none|apply db_inv_fresh].
Qed.

(** ** sent + failed against total *)


(** The other direction has its own exception, the one the design notes of
    the specification flag: a message left [sending] by a crash is never
    counted, and the run completes below its total. *)
Lemma completed_below_total_after_crash :
  let w := run_trace completed_after_crash (initial [draft1]) in
  forallb reliable completed_after_crash = true
  ∧ ∃ r, batch_runs (store w) = [r]
         ∧ run_Status r = BatchStatusCompleted
         ∧ run_SentCount r = 1 ∧ run_FailedCount r = 0 ∧ run_TotalCount r = 2
         ∧ msg_Status <$> batch_messages (store w)
           = [MessageStatusSending; MessageStatusSent].
Proof.
  vm_compute. split; [reflexivity|].
  eexists. split; [reflexivity|]. simpl. repeat split; reflexivity.
Qed.

(** A second exception: the create handler inserts the run and, after
    looking up its contacts, the messages, in two transactions.  When the
    process dies between the two, or when the handler is so slow that the
    worker starts the run and reaches its first deadline before the messages
    are there, the run is completed with both counters 0, below its total;
    no store call has failed and no dispatch has been cut short. *)
Lemma completed_below_total_when_creation_is_divided :
  let crashed := run_trace creation_cut_by_a_crash (initial [draft1]) in
  let slow := run_trace creation_overtaken (initial [draft1]) in
  forallb reliable creation_cut_by_a_crash = true
  ∧ forallb uninterrupted creation_cut_by_a_crash = true
  ∧ forallb reliable creation_overtaken = true
  ∧ forallb uninterrupted creation_overtaken = true
  ∧ (λ r, (run_Status r, run_SentCount r, run_FailedCount r, run_TotalCount r))
      <$> batch_runs (store crashed) = [(BatchStatusCompleted, 0, 0, 2)]
  ∧ batch_messages (store crashed) = []
  ∧ (λ r, (run_Status r, run_SentCount r, run_FailedCount r, run_TotalCount r))
      <$> batch_runs (store slow) = [(BatchStatusCompleted, 0, 0, 2)]
  ∧ msg_Status <$> batch_messages (store slow)
    = [MessageStatusPending; MessageStatusPending].
Proof. vm_compute. repeat split; reflexivity. Qed.

(** Why the bound needs a store that accepts its writes: when both status
    writes of a dispatch fail and the counter write succeeds, the message
    stays [pending], is dispatched again, and the counter passes the total. *)
Lemma counters_pass_total_when_status_writes_fail :
  let w := run_trace sent_twice_when_marks_fail (initial [draft1]) in
  run_SentCount <$> batch_runs (store w) = [2]
  ∧ run_TotalCount <$> batch_runs (store w) = [1].
Proof. vm_compute. split; reflexivity. Qed.



(** ** at most one run is running: what holds when steps do not interleave *)

Lemma coupled_at_running_only id runs : coupled_at (Some id) runs → running_only id runs.
Proof. intros H r Hr Hs. specialize (H r Hr Hs). congruence. Qed.

Lemma coupled_at_None_running_only id runs : coupled_at None runs → running_only id runs.
Proof. intros H r Hr Hs. specialize (H r Hr Hs). congruence. Qed.

Lemma coupled_at_keep cur id g runs :
  (∀ r, run_ID (g r) = run_ID r) →
  (∀ r, run_Status (g r) = BatchStatusRunning → run_Status r = BatchStatusRunning) →
  coupled_at cur runs → coupled_at cur (update_where run_ID id g runs).
Proof.
  intros Hid Hst Hc r' (r & Hr & ->)%elem_of_update_where.
  case_bool_decide; [|by apply Hc]. rewrite Hid. intros Hs. apply Hc; [done|by apply Hst].
Qed.

Lemma coupled_at_start id g runs :
  (∀ r, run_ID (g r) = run_ID r) →
  running_only id runs → coupled_at (Some id) (update_where run_ID id g runs).
Proof.
  intros Hid Hro r' (r & Hr & ->)%elem_of_update_where.
  case_bool_decide as Hk; [rewrite Hid; congruence|].
  intros Hs. by rewrite (Hro r Hr Hs).
Qed.

Lemma coupled_at_stop id g runs :
  (∀ r, run_Status (g r) = BatchStatusRunning → False) →
  running_only id runs → coupled_at None (update_where run_ID id g runs).
Proof.
  intros Hst Hro r' (r & Hr & ->)%elem_of_update_where.
  case_bool_decide as Hk; [by intros ?%Hst|].
  intros Hs. by specialize (Hro r Hr Hs).
Qed.

Lemma running_only_count id runs :
  NoDup (run_ID <$> runs) → running_only id runs →
  (length (List.filter (run_has_status BatchStatusRunning) runs) ≤ 1)%nat.
Proof.
  induction runs as [|r runs IH]; csimpl; [lia|].
  intros [Hr Hnd]%NoDup_cons Hro.
  assert (running_only id runs) as Hro' by (intros r' Hr'; apply Hro; by right).
  unfold run_has_status at 1. case_bool_decide as Hs; [|by apply IH].
  simpl. assert (List.filter (run_has_status BatchStatusRunning) runs = []) as ->; [|simpl; lia].
  destruct (List.filter _ runs) as [|r' rest] eqn:Hf; [done|]. exfalso.
  assert (r' ∈ runs ∧ run_has_status BatchStatusRunning r' = true) as [Hin Hs'].
  { apply elem_of_filter_bool. rewrite Hf. by left. }
  apply bool_decide_eq_true in Hs'. apply Hr. apply list_elem_of_fmap.
  exists r'. split; [|done]. rewrite (Hro r) by (by left || done).
  symmetry. by apply Hro'.
Qed.

Section serial_steps.
Context (e : Env) (Hrel : env_faults e = []).

Lemma coupled_startBatch run w :
  currentRun w = None →
  running_only (run_ID run) (batch_runs (store w)) →
  coupled (startBatch run e w).
Proof using Hrel.
  intros Hcur Hro. unfold startBatch, coupled.
  rewrite !(fails_reliable e _ Hrel).
  destruct (DraftGetByID (store w) (run_DraftID run)) as [d|].
  - rewrite store_broadcastProgress, currentRun_broadcastProgress.
    cbn. by apply coupled_at_start.
  - cbn [store with_store currentRun]. rewrite Hcur, exec_reliable by done. cbn.
    by apply coupled_at_stop.
Qed.

Lemma coupled_checkQueue w : coupled w → coupled (checkQueue e w).
Proof using Hrel.
  intros Hc. unfold checkQueue. destruct (currentRun w) as [c|] eqn:Hcur; [done|].
  rewrite (fails_reliable e _ Hrel).
  destruct (GetNextQueued (store w)) as [q|]; [|done].
  apply coupled_startBatch; [done|]. apply coupled_at_None_running_only.
  unfold coupled in Hc. by rewrite Hcur in Hc.
Qed.

Lemma coupled_resumeIncompleteRuns db :
  NoDup (run_ID <$> batch_runs db) →
  (∃ id, running_only id (batch_runs db)) →
  coupled (resumeIncompleteRuns e (NewWorker db)).
Proof using Hrel.
  intros Hnd [id Hro]. unfold resumeIncompleteRuns. rewrite (fails_reliable e _ Hrel).
  cbn [store NewWorker].
  destruct (GetActive db) as [a|] eqn:Ha.
  - apply GetActive_Some in Ha as [Hin Hs]. apply coupled_startBatch; [done|].
    cbn. intros r Hr Hrs. rewrite (Hro r Hr Hrs). symmetry. by apply Hro.
  - apply coupled_checkQueue. intros r Hr Hs. cbn in Hr.
    by pose proof (GetActive_None _ _ Ha Hr).
Qed.

Lemma coupled_completeBatch current w :
  currentRun w = Some current → coupled w →
  coupled (completeBatch (BatchID current) e w).
Proof using Hrel.
  intros Hcur Hc. unfold completeBatch. apply coupled_checkQueue.
  unfold coupled. rewrite store_broadcastEvent, currentRun_broadcastEvent.
  cbn [store currentRun set_currentRun with_store]. rewrite exec_reliable by done. cbn.
  apply coupled_at_stop; [done|]. apply coupled_at_running_only.
  unfold coupled in Hc. by rewrite Hcur in Hc.
Qed.

Lemma runs_sendMessage state msg w :
  batch_runs (store (sendMessage state msg e w))
  = update_where run_ID (BatchID state)
      (match env_send e with
       | Some _ => λ r, set_run_counts (run_SentCount r) (run_FailedCount r + 1) r
       | None => λ r, set_run_counts (run_SentCount r + 1) (run_FailedCount r) r
       end)
      (batch_runs (store w)).
Proof using Hrel.
  rewrite store_sendMessage_reliable by done. by destruct (env_send e).
Qed.

Lemma currentRun_sendMessage state msg w :
  BatchID <$> currentRun (sendMessage state msg e w) = Some (BatchID state).
Proof.
  unfold sendMessage.
  destruct (fails e SC_GetAllForContact); [|destruct (env_send e)];
    unfold scheduleNextMessage, markMessageFailed, markMessageSent;
    cbn [currentRun set_nextSendAt]; rewrite currentRun_broadcastEvent;
    cbn [currentRun with_store]; by rewrite currentRun_broadcastProgress.
Qed.

Lemma coupled_sendMessage state msg w :
  currentRun w = Some state → coupled w → coupled (sendMessage state msg e w).
Proof using Hrel.
  intros Hcur Hc. unfold coupled in *. rewrite currentRun_sendMessage, runs_sendMessage.
  rewrite Hcur in Hc. apply coupled_at_keep; [by destruct (env_send e)| |done].
  by destruct (env_send e).
Qed.

Lemma coupled_processNextMessage w : coupled w → coupled (processNextMessage e w).
Proof using Hrel.
  intros Hc. unfold processNextMessage.
  destruct (currentRun w) as [current|] eqn:Hcur; [|by apply coupled_checkQueue].
  case_bool_decide.
  { unfold coupled. by rewrite store_broadcastProgress, currentRun_broadcastProgress. }
  destruct (negb (env_connected e)); [done|].
  rewrite (fails_reliable e _ Hrel).
  destruct (GetNextPending (store w) (BatchID current)) as [msg|].
  - by apply coupled_sendMessage.
  - by apply coupled_completeBatch.
Qed.

Lemma coupled_CancelBatch id w : coupled w → coupled (CancelBatch id e w).1.
Proof using Hrel.
  intros Hc. unfold CancelBatch, coupled in *. rewrite (fails_reliable e _ Hrel).
  cbn [fst store currentRun set_goroutines with_store].
  assert (∀ r, run_Status
                 (if run_has_status BatchStatusQueued r
                     || run_has_status BatchStatusRunning r
                  then set_run_completed (env_now e)
                         (set_run_status BatchStatusCancelled r)
                  else r) = BatchStatusRunning → False) as Hstop.
  { intros r. destruct (_ || _) eqn:Hq; [done|]. intros Hs.
    apply orb_false_iff in Hq as [_ Hq]. apply bool_decide_eq_false in Hq. done. }
  destruct (currentRun w) as [c|] eqn:Hcur.
  - case_bool_decide as Hid.
    + cbn. apply coupled_at_stop; [done|]. subst id. by apply coupled_at_running_only.
    + rewrite Hcur. apply coupled_at_keep; [by intros r; destruct (_ || _)| |done].
      intros r Hs. by apply Hstop in Hs.
  - rewrite Hcur. apply coupled_at_keep; [by intros r; destruct (_ || _)| |done].
    intros r Hs. by apply Hstop in Hs.
Qed.
End serial_steps.

Lemma runs_interrupted_dispatch p e w :
  batch_runs (interrupted_dispatch p e w) = batch_runs (store w).
Proof.
  unfold interrupted_dispatch.
  destruct (currentRun w); [|done]. destruct (_ || _); [done|].
  destruct (GetNextPending _ _); [|done].
  unfold MarkSending, MarkFailed, MarkSent.
  destruct p; [by rewrite runs_exec_messages|].
  destruct (fails e SC_GetAllForContact); [|destruct (env_send e)];
    by rewrite !runs_exec_messages.
Qed.

Lemma coupled_running_only w : coupled w → ∃ id, running_only id (batch_runs (store w)).
Proof.
  unfold coupled. destruct (BatchID <$> currentRun w) as [c|].
  - exists c. by apply coupled_at_running_only.
  - exists 0. by apply coupled_at_None_running_only.
Qed.

Lemma sched_inv_step a w :
  reliable a = true → serial a = true →
  NoDup (run_ID <$> batch_runs (store w)) →
  sched_inv w → sched_inv (exec_action a w).
Proof.
  intros Hrel Hser Hnd [Hc He].
  destruct a; try discriminate Hser; cbn [exec_action];
    unfold reliable in Hrel; cbn [action_env] in Hrel;
    try apply bool_decide_eq_true in Hrel.
  - split; [by apply coupled_processNextMessage|].
    unfold entry_only. by rewrite goroutines_processNextMessage.
  - split; [by apply coupled_CancelBatch|].
    unfold entry_only, CancelBatch. rewrite (fails_reliable e _ Hrel).
    cbn [fst goroutines set_goroutines with_store].
    assert (goroutines
              match currentRun w with
              | Some c => if bool_decide (BatchID c = batchID)
                          then set_currentRun None w else w
              | None => w
              end = goroutines w) as ->.
    { destruct (currentRun w); [|done]. by case_bool_decide. }
    intros pc [Hin|Hin]%elem_of_app; [by apply He|].
    apply elem_of_cons in Hin as [Hin|Hin]; [done|].
    apply list_elem_of_singleton in Hin. congruence.
  - destruct (goroutines w !! i) as [g|] eqn:Hi; [|done]. cbv zeta.
    assert (entry_only (set_goroutines (delete i (goroutines w)) w)) as He'.
    { intros pc Hin. apply He. cbn in Hin. by eapply list_elem_of_delete_inv. }
    destruct g as [id ev|pc|rid tpl ms]; [done| |by split].
    assert (pc = CQ_entry) as ->.
    { apply He. apply list_elem_of_lookup. by exists i. }
    rewrite checkQueue_run_entry by lia.
    split; [by apply coupled_checkQueue|].
    unfold entry_only. by rewrite goroutines_checkQueue.
  - rewrite createBatch_reliable by done.
    destruct (DraftGetByID (store w) draftID) as [d|]; [|done].
    destruct members as [|mb members]; [done|].
    split; [|done].
    unfold coupled. cbn. intros r [Hr|Hr]%elem_of_app; [by apply Hc|].
    apply list_elem_of_singleton in Hr. by subst r.
  - split; [|done]. unfold deleteBatch, coupled, Delete. cbn [store with_store currentRun].
    destruct (List.filter (deletable batchID) _); [done|]. cbn.
    intros r [Hr _]%elem_of_filter_bool. by apply Hc.
  - done.
  - done.
  - unfold Unsubscribe. by case_bool_decide.
  - unfold receive. by destruct (heap w !! ch).
  - split; [apply coupled_resumeIncompleteRuns; [done|done|by apply coupled_running_only]|].
    unfold entry_only. rewrite goroutines_resumeIncompleteRuns. cbn.
    by intros pc ?%elem_of_nil.
  - split.
    + apply coupled_resumeIncompleteRuns; rewrite ?runs_interrupted_dispatch;
        [done|done|by apply coupled_running_only].
    + unfold entry_only. rewrite goroutines_resumeIncompleteRuns. cbn.
      by intros pc ?%elem_of_nil.
Qed.

Lemma sched_inv_trace drafts tr :
  forallb reliable tr = true → forallb serial tr = true →
  sched_inv (run_trace tr (initial drafts))
  ∧ db_inv false (store (run_trace tr (initial drafts))).
Proof.
  induction tr as [|a tr IH] using rev_ind; intros Hrel Hser.
  - split; [|apply db_inv_weaken with true, db_inv_fresh].
    split; [by intros r ?%elem_of_nil|by intros pc ?%elem_of_nil].
  - destruct (db_inv_reachable drafts (tr ++ [a]) Hrel) as [Hdb' _].
    rewrite forallb_app in Hrel, Hser. cbn in Hrel, Hser.
    rewrite andb_true_r in Hrel, Hser.
    apply andb_true_iff in Hrel as [Hrel Ha], Hser as [Hser Hs].
    destruct (IH Hrel Hser) as [Hsi Hdb].
    unfold run_trace in *. rewrite foldl_app in *. cbn [foldl] in *.
    split.
    + apply sched_inv_step; try done. by destruct Hdb.
    + by eapply db_inv_weaken.
Qed.

(** Under the two assumptions the failing executions break (every store
    write is accepted, and a detached goroutine, like a create handler, runs
    from its start to its end between two other steps), at most one run is
    [running]. *)
Lemma at_most_one_running_when_steps_do_not_interleave drafts tr :
  forallb reliable tr = true → forallb serial tr = true →
  (count_running (store (run_trace tr (initial drafts))) ≤ 1)%nat.
Proof.
  intros Hrel Hser. destruct (sched_inv_trace drafts tr Hrel Hser) as [[Hc _] Hdb].
  destruct (coupled_running_only _ Hc) as [id Hro].
  unfold count_running. eapply running_only_count; [by destruct Hdb|done].
Qed.

(** ** the hypotheses of the theorems above hold in the states the system reaches *)

Lemma primary_keys_unique_when_reliable drafts tr :
  forallb reliable tr = true →
  NoDup (run_ID <$> batch_runs (store (run_trace tr (initial drafts))))
  ∧ NoDup (msg_ID <$> batch_messages (store (run_trace tr (initial drafts)))).
Proof.
  intros Hrel.
  destruct (db_inv_reachable drafts tr Hrel) as [Hinv _].
  split; by destruct Hinv.
Qed.

Lemma length_heap_send ev h c : length (heap_send ev h c) = length h.
Proof. unfold heap_send. destruct (h !! c); [apply length_insert|done]. Qed.

Lemma same_registry_trans w1 w2 w3 :
  same_registry w1 w2 → same_registry w2 w3 → same_registry w1 w3.
Proof. intros [H1 H2] [H3 H4]. split; congruence. Qed.

Lemma same_registry_broadcastEvent id ev w : same_registry w (broadcastEvent id ev w).
Proof.
  split; [done|]. unfold broadcastEvent. cbn [heap set_heap].
  generalize (heap w). induction (subscribers_of w id) as [|c subs IH]; intros h; [done|].
  cbn [foldl]. by rewrite IH, length_heap_send.
Qed.

Lemma same_registry_broadcastProgress id e w : same_registry w (broadcastProgress id e w).
Proof.
  unfold broadcastProgress. destruct (GetProgress id e w); [done|].
  apply same_registry_broadcastEvent.
Qed.

Lemma same_registry_startBatch run e w : same_registry w (startBatch run e w).
Proof.
  unfold startBatch. destruct (if fails e SC_DraftGetByID then _ else _); [|done].
  destruct (fails e SC_Start); [done|].
  eapply same_registry_trans; [|apply same_registry_broadcastProgress]. done.
Qed.

Lemma same_registry_checkQueue e w : same_registry w (checkQueue e w).
Proof.
  unfold checkQueue. destruct (currentRun w); [done|].
  destruct (fails e SC_GetNextQueued); [done|].
  destruct (GetNextQueued _); [apply same_registry_startBatch|done].
Qed.

Lemma same_registry_resumeIncompleteRuns e w : same_registry w (resumeIncompleteRuns e w).
Proof.
  unfold resumeIncompleteRuns. destruct (fails e SC_GetActive); [done|].
  destruct (GetActive _); [apply same_registry_startBatch|apply same_registry_checkQueue].
Qed.

Lemma same_registry_completeBatch id e w : same_registry w (completeBatch id e w).
Proof.
  unfold completeBatch.
  eapply same_registry_trans; [|apply same_registry_checkQueue].
  eapply same_registry_trans; [|apply same_registry_broadcastEvent]. done.
Qed.

Lemma same_registry_sendMessage state msg e w : same_registry w (sendMessage state msg e w).
Proof.
  unfold sendMessage.
  set (w3 := broadcastProgress _ _ _).
  assert (same_registry w w3) as H3.
  { eapply same_registry_trans; [|apply same_registry_broadcastProgress]. done. }
  destruct (fails e SC_GetAllForContact); [|destruct (env_send e)];
    unfold scheduleNextMessage, markMessageFailed, markMessageSent;
    (eapply same_registry_trans; [exact H3|]);
    (eapply same_registry_trans; [|split; reflexivity]);
    (eapply same_registry_trans; [|apply same_registry_broadcastEvent]); done.
Qed.

Lemma same_registry_processNextMessage e w : same_registry w (processNextMessage e w).
Proof.
  unfold processNextMessage.
  destruct (currentRun w); [|apply same_registry_checkQueue].
  case_bool_decide; [apply same_registry_broadcastProgress|].
  destruct (negb (env_connected e)); [apply same_registry_broadcastEvent|].
  destruct (fails e SC_GetNextPending); [done|].
  destruct (GetNextPending _ _);
    [apply same_registry_sendMessage|apply same_registry_completeBatch].
Qed.

Lemma same_registry_CancelBatch id e w : same_registry w (CancelBatch id e w).1.
Proof.
  unfold CancelBatch.
  destruct (fails e SC_Cancel); destruct (currentRun w); try done; by case_bool_decide.
Qed.

Lemma same_registry_checkQueue_step e pc w : same_registry w (checkQueue_step e pc w).1.
Proof.
  destruct pc; cbn [checkQueue_step]; try done.
  - by destruct (currentRun w).
  - destruct (fails e SC_GetNextQueued); [done|]. by destruct (GetNextQueued _).
  - by destruct (if fails e SC_DraftGetByID then _ else _).
  - by destruct (fails e SC_Start).
  - apply same_registry_broadcastProgress.
Qed.

Lemma same_registry_checkQueue_run fuel e pc w :
  same_registry w (checkQueue_run fuel e pc w).
Proof.
  revert pc w. induction fuel as [|n IH]; intros pc w; cbn [checkQueue_run]; [done|].
  pose proof (same_registry_checkQueue_step e pc w) as Hs.
  destruct (checkQueue_step e pc w) as [w' [pc'|]]; cbn [fst] in Hs; [|done].
  eapply same_registry_trans; [exact Hs|apply IH].
Qed.

Lemma registry_wf_same w w' : same_registry w w' → registry_wf w → registry_wf w'.
Proof.
  intros [Hs Hl] Hwf id. unfold subscribers_of. rewrite Hs, Hl. apply Hwf.
Qed.

Lemma remove_first_subset ch subs c : c ∈ remove_first ch subs → c ∈ subs.
Proof.
  induction subs as [|s subs IH]; cbn [remove_first]; [done|].
  case_bool_decide; [by right|].
  intros [->|Hin]%elem_of_cons; [by left|right; by apply IH].
Qed.

Lemma remove_first_NoDup ch subs : NoDup subs → NoDup (remove_first ch subs).
Proof.
  induction subs as [|s subs IH]; cbn [remove_first]; [done|].
  intros [Hs Hnd]%NoDup_cons. case_bool_decide; [done|].
  apply NoDup_cons. split; [|by apply IH].
  intros Hin. by apply Hs, (remove_first_subset ch).
Qed.

Lemma same_registry_createBatch_run draftID groupID groupName members e w :
  same_registry w (createBatch_run draftID groupID groupName members e w).1.
Proof.
  unfold createBatch_run.
  destruct (if fails e SC_DraftGetByID then _ else _); [|by split].
  destruct members; [by split|]. destruct (fails e SC_Create); by split.
Qed.

Lemma same_registry_createBatch_messages id tpl members e w :
  same_registry w (createBatch_messages id tpl members e w).
Proof.
  unfold createBatch_messages.
  destruct (if fails e SC_CreateMultiple then _ else _); by split.
Qed.

Lemma registry_wf_step a w : registry_wf w → registry_wf (exec_action a w).
Proof.
  intros Hwf. destruct a; cbn [exec_action].
  - eapply registry_wf_same; [apply same_registry_processNextMessage|done].
  - eapply registry_wf_same; [apply same_registry_CancelBatch|done].
  - destruct (goroutines w !! i) as [[id ev|pc|rid tpl ms]|]; [| |done|done]; cbv zeta.
    + eapply registry_wf_same; [apply same_registry_broadcastEvent|done].
    + eapply registry_wf_same; [apply same_registry_checkQueue_run|done].
  - destruct (goroutines w !! i) as [[id ev|pc|rid tpl ms]|]; [| |done|done].
    + eapply registry_wf_same; [apply same_registry_broadcastEvent|done].
    + pose proof (same_registry_checkQueue_step e pc w) as Hs.
      destruct (checkQueue_step e pc w) as [w1 [pc'|]]; cbn [fst] in Hs;
        (eapply registry_wf_same; [|exact Hwf]); destruct Hs; by split.
  - unfold createBatch.
    pose proof (same_registry_createBatch_run draftID groupID groupName members e w) as H1.
    destruct (createBatch_run draftID groupID groupName members e w) as [w1 [[id tpl]|]];
      cbn [fst] in H1; (eapply registry_wf_same; [|exact Hwf]); [|done].
    eapply same_registry_trans; [exact H1|apply same_registry_createBatch_messages].
  - done.
  - done.
  - intros id. unfold Subscribe, subscribers_of. cbn.
    rewrite length_app. cbn. destruct (decide (id = batchID)) as [->|Hne].
    + rewrite lookup_insert_eq. cbn. destruct (Hwf batchID) as [Hnd Hlt]. split.
      * apply NoDup_app. split; [done|]. split; [|apply NoDup_singleton].
        intros c Hc ->%list_elem_of_singleton. apply Hlt in Hc. lia.
      * intros c [Hc|Hc]%elem_of_app; [apply Hlt in Hc; lia|].
        apply list_elem_of_singleton in Hc. lia.
    + rewrite lookup_insert_ne by done. destruct (Hwf id) as [Hnd Hlt].
      split; [done|]. intros c Hc. apply Hlt in Hc. lia.
  - unfold Unsubscribe. case_bool_decide; [|done].
    intros id. unfold subscribers_of. cbn. destruct (decide (id = batchID)) as [->|Hne].
    + rewrite lookup_insert_eq. cbn. destruct (Hwf batchID) as [Hnd Hlt]. split.
      * by apply remove_first_NoDup.
      * intros c Hc%remove_first_subset. by apply Hlt.
    + rewrite lookup_insert_ne by done. apply Hwf.
  - unfold receive. destruct (heap w !! ch) as [c|]; [|done].
    intros id. unfold subscribers_of. cbn. rewrite length_insert. apply Hwf.
  - eapply registry_wf_same; [apply same_registry_resumeIncompleteRuns|].
    intros id. unfold subscribers_of. cbn. rewrite lookup_empty. cbn.
    split; [constructor|by intros c ?%elem_of_nil].
  - eapply registry_wf_same; [apply same_registry_resumeIncompleteRuns|].
    intros id. unfold subscribers_of. cbn. rewrite lookup_empty. cbn.
    split; [constructor|by intros c ?%elem_of_nil].
  - pose proof (same_registry_createBatch_run draftID groupID groupName members e w) as H1.
    destruct (createBatch_run draftID groupID groupName members e w) as [w1 [[id tpl]|]];
      cbn [fst] in H1; (eapply registry_wf_same; [|exact Hwf]); [|done].
    destruct H1. by split.
  - destruct (goroutines w !! i) as [[id ev|pc|rid tpl ms]|]; try done.
    eapply registry_wf_same; [|exact Hwf].
    eapply same_registry_trans; [|apply same_registry_createBatch_messages]. by split.
Qed.

(** In every state the system reaches, the channels registered for a run
    are distinct channels of the heap: each was made by its own [Subscribe]. *)
Lemma registered_channels_distinct drafts tr :
  registry_wf (run_trace tr (initial drafts)).
Proof.
  induction tr as [|a tr IH] using rev_ind.
  - intros id. unfold subscribers_of. cbn. rewrite lookup_empty. cbn.
    split; [constructor|by intros c ?%elem_of_nil].
  - unfold run_trace. rewrite foldl_app. cbn [foldl]. by apply registry_wf_step.
Qed.

(** ** the scenarios of the specification, evaluated *)

Example scenario_A_completes :
  let w := run_trace scenario_A (initial [draft1]) in
  (λ r, (run_Status r, run_SentCount r, run_FailedCount r)) <$> batch_runs (store w)
  = [(BatchStatusCompleted, 3, 0)]
  ∧ currentRun w = None.
Proof. vm_compute. split; reflexivity. Qed.

Example scenario_B_stays_running :
  let w := run_trace
             [Tick (env_at (30 * Second) false None);
              Tick (env_at (300 * Second) false None)]
             mid_run_with_queue in
  store w = store mid_run_with_queue ∧ currentRun w = currentRun mid_run_with_queue.
Proof. vm_compute. split; reflexivity. Qed.

Example scenario_C_cancel_then_next_run :
  let w := run_trace scenario_C (initial [draft1]) in
  (λ r, (run_Status r, run_SentCount r)) <$> batch_runs (store w)
  = [(BatchStatusCancelled, 1); (BatchStatusRunning, 0)]
  ∧ msg_Status <$> List.filter (in_run 1) (batch_messages (store w))
    = [MessageStatusSent; MessageStatusPending; MessageStatusPending]
  ∧ BatchID <$> currentRun w = Some 2.
Proof. vm_compute. repeat split; reflexivity. Qed.

Example scenario_D_second_run_waits :
  run_Status <$> batch_runs (store mid_run_with_queue)
  = [BatchStatusRunning; BatchStatusQueued].
Proof. vm_compute. reflexivity. Qed.

(** * More of the code: the repositories *)

(** ** queries over a table *)

Lemma oldest_min {A} (created : A → Z) rows r :
  oldest created rows = Some r → ∀ r', r' ∈ rows → created r ≤ created r'.
Proof.
  revert r. induction rows as [|x rows IH]; intros r; simpl; [done|].
  destruct (oldest created rows) as [y|] eqn:Hy.
  - case_bool_decide as Hlt; intros [= <-] r' [->|Hin]%elem_of_cons.
    + lia.
    + by apply IH.
    + lia.
    + specialize (IH y eq_refl r' Hin). lia.
  - intros [= <-] r' [->|Hin]%elem_of_cons; [lia|].
    apply oldest_None in Hy. subst rows. by apply elem_of_nil in Hin.
Qed.

Lemma filter_bool_nil {A} (p : A → bool) (rows : list A) :
  List.filter p rows = [] ↔ ∀ x, x ∈ rows → p x = false.
Proof.
  induction rows as [|x rows IH]; simpl.
  - split; [by intros _ y ?%elem_of_nil|done].
  - destruct (p x) eqn:Hp.
    + split; [done|]. intros H. specialize (H x (list_elem_of_here _ _)). congruence.
    + rewrite IH. split.
      * intros H y [->|Hy]%elem_of_cons; [done|by apply H].
      * intros H y Hy. apply H. by right.
Qed.

Lemma find_bool_None {A} (p : A → bool) (rows : list A) :
  List.find p rows = None ↔ ∀ x, x ∈ rows → p x = false.
Proof.
  induction rows as [|x rows IH]; simpl.
  - split; [by intros _ y ?%elem_of_nil|done].
  - destruct (p x) eqn:Hp.
    + split; [done|]. intros H. specialize (H x (list_elem_of_here _ _)). congruence.
    + rewrite IH. split.
      * intros H y [->|Hy]%elem_of_cons; [done|by apply H].
      * intros H y Hy. apply H. by right.
Qed.

Lemma find_filter_bool {A} (p q : A → bool) (rows : list A) :
  (∀ x, q x = true → p x = true) →
  List.find q (List.filter p rows) = List.find q rows.
Proof.
  intros Hqp. induction rows as [|x rows IH]; simpl; [done|].
  destruct (q x) eqn:Hq.
  - rewrite (Hqp x Hq). simpl. by rewrite Hq.
  - destruct (p x); simpl; [by rewrite Hq|done].
Qed.

Lemma find_app_fresh {A} (q : A → bool) (rows extra : list A) :
  (∀ x, x ∈ rows → q x = false) →
  List.find q (rows ++ extra) = List.find q extra.
Proof.
  induction rows as [|x rows IH]; simpl; intros H; [done|].
  rewrite (H x) by by left. apply IH. intros y Hy. apply H. by right.
Qed.

Lemma find_app_old {A} (q : A → bool) (rows extra : list A) :
  (∀ x, x ∈ extra → q x = false) →
  List.find q (rows ++ extra) = List.find q rows.
Proof.
  intros H. induction rows as [|x rows IH]; simpl.
  - by apply find_bool_None.
  - by destruct (q x).
Qed.

(** ** BatchRunRepository.Delete *)

(** X1. [Delete] refuses a run that is [running] and an identifier that is
    not in the table: the store is unchanged and the result is [false].  For
    any other run it returns [true], the run can no longer be looked up, the
    other runs are as before, and exactly the messages of the deleted run are
    gone (the cascade). *)
Theorem Delete_spares_the_running_run (id : Z) (db : DB) :
  NoDup (run_ID <$> batch_runs db) →
  (GetByID db id = None → Delete id db = (db, false))
  ∧ (∀ r, GetByID db id = Some r → run_Status r = BatchStatusRunning →
       Delete id db = (db, false))
  ∧ (∀ r, GetByID db id = Some r → run_Status r ≠ BatchStatusRunning →
       (Delete id db).2 = true
       ∧ GetByID (Delete id db).1 id = None
       ∧ (∀ id', id' ≠ id → GetByID (Delete id db).1 id' = GetByID db id')
       ∧ (∀ m, m ∈ batch_messages (Delete id db).1
               ↔ m ∈ batch_messages db ∧ msg_BatchRunID m ≠ id)).
Proof.
  intros Hnd. split; [|split].
  - intros Hnone. unfold Delete.
    assert (List.filter (deletable id) (batch_runs db) = []) as ->; [|done].
    apply filter_bool_nil. intros x Hx. unfold deletable.
    rewrite bool_decide_eq_false_2; [done|].
    unfold GetByID in Hnone. rewrite find_bool_None in Hnone.
    specialize (Hnone x Hx). by apply bool_decide_eq_false in Hnone.
  - intros r Hget Hrun. unfold Delete.
    assert (List.filter (deletable id) (batch_runs db) = []) as ->; [|done].
    apply filter_bool_nil. intros x Hx. unfold deletable.
    destruct (decide (run_ID x = id)) as [Hid|Hid].
    + assert (x = r) as -> by (eapply (find_key_unique run_ID); eauto).
      unfold run_has_status. rewrite (bool_decide_eq_true_2 (run_Status r = _)) by done.
      by rewrite andb_false_r.
    + by rewrite bool_decide_eq_false_2.
  - intros r Hget Hrun.
    destruct (find_key_Some run_ID _ _ _ Hget) as [Hin Hid].
    assert (deletable id r = true) as Hdel.
    { unfold deletable, run_has_status.
      rewrite bool_decide_eq_true_2, bool_decide_eq_false_2 by done. done. }
    unfold Delete.
    destruct (List.filter (deletable id) (batch_runs db)) as [|g gone] eqn:Hgone.
    { rewrite filter_bool_nil in Hgone. specialize (Hgone r Hin). congruence. }
    cbn [fst snd]. split; [done|]. split; [|split].
    + unfold GetByID. cbn [batch_runs]. apply find_bool_None.
      intros x [Hx Hkeep]%elem_of_filter_bool.
      apply bool_decide_eq_false. intros Hxid.
      assert (x = r) as -> by (eapply (find_key_unique run_ID); eauto).
      rewrite Hdel in Hkeep. done.
    + intros id' Hne. unfold GetByID. cbn [batch_runs]. apply find_filter_bool.
      intros x Hx%bool_decide_eq_true. unfold deletable.
      rewrite bool_decide_eq_false_2; [done|congruence].
    + intros m. cbn [batch_messages]. rewrite elem_of_filter_bool.
      rewrite negb_true_iff, bool_decide_eq_false. done.
Qed.

Lemma Delete_spares_the_running_run_witness :
  NoDup (run_ID <$> batch_runs (store mid_run_with_queue))
  ∧ Delete 1 (store mid_run_with_queue) = (store mid_run_with_queue, false)
  ∧ (Delete 2 (store mid_run_with_queue)).2 = true
  ∧ GetByID (Delete 2 (store mid_run_with_queue)).1 2 = None.
Proof.
  assert (NoDup (run_ID <$> batch_runs (store mid_run_with_queue))) as H by by_evaluation.
  destruct (Delete_spares_the_running_run 1 (store mid_run_with_queue) H) as (_ & H1 & _).
  destruct (Delete_spares_the_running_run 2 (store mid_run_with_queue) H) as (_ & _ & H2).
  split; [exact H|]. split.
  - apply (H1 mid_run_row); vm_compute; reflexivity.
  - destruct (H2 (mkBatchRun 2 1 8 "family" "hello" BatchStatusQueued 2 0 0 None None None 2))
      as (E1 & E2 & _); [vm_compute; reflexivity|discriminate|].
    split; [exact E1|exact E2].
Defined.

(** ** FIFO over queued runs *)

Lemma GetNextQueued_Some_elem db r :
  GetNextQueued db = Some r →
  r ∈ batch_runs db ∧ run_Status r = BatchStatusQueued.
Proof.
  unfold GetNextQueued. intros H%oldest_Some.
  apply elem_of_filter_bool in H as [Hin Hp].
  by apply bool_decide_eq_true in Hp.
Qed.

(** X2. [GetNextQueued] returns a [queued] run of the table whose creation
    time is the least among the queued runs; it returns none exactly when
    [GetQueuedCount] is 0, that is when no run is queued. *)
Theorem GetNextQueued_is_the_oldest_queued (db : DB) :
  (∀ r, GetNextQueued db = Some r →
     r ∈ batch_runs db ∧ run_Status r = BatchStatusQueued
     ∧ ∀ r', r' ∈ batch_runs db → run_Status r' = BatchStatusQueued →
             run_CreatedAt r ≤ run_CreatedAt r')
  ∧ (GetNextQueued db = None ↔ GetQueuedCount db = 0)
  ∧ (GetQueuedCount db = 0 ↔
     ∀ r, r ∈ batch_runs db → run_Status r ≠ BatchStatusQueued).
Proof.
  split; [|split].
  - intros r Hr. destruct (GetNextQueued_Some_elem db r Hr) as [Hin Hs].
    split; [done|]. split; [done|]. intros r' Hr' Hs'.
    apply (oldest_min run_CreatedAt _ _ Hr).
    apply elem_of_filter_bool. split; [done|]. by apply bool_decide_eq_true.
  - unfold GetNextQueued, GetQueuedCount. split.
    + intros H%oldest_None. by rewrite H.
    + intros H. destruct (List.filter _ _) as [|x l]; [done|]. simpl in H. lia.
  - unfold GetQueuedCount. split.
    + intros H r Hr Hs.
      destruct (List.filter _ _) as [|x l] eqn:Hf; [|simpl in H; lia].
      rewrite filter_bool_nil in Hf. specialize (Hf r Hr).
      by apply bool_decide_eq_false in Hf.
    + intros H. assert (List.filter (run_has_status BatchStatusQueued) (batch_runs db) = []) as ->; [|done].
      apply filter_bool_nil. intros x Hx. apply bool_decide_eq_false. by apply H.
Qed.

(** ** BatchRunRepository.Create *)

(** X3. On a table whose identifiers are at most the high-water mark,
    [Create] returns an identifier that was not in use, and [GetByID] on it
    returns the inserted row: the given status and total, both counters 0,
    no error and no start or completion time, whatever counters the caller's
    struct held.  Every other identifier looks up as before and no message
    row is touched. *)
Theorem Create_then_GetByID
    (now draftID groupID : Z) (groupName draftTitle : string)
    (status : BatchRunStatus) (totalCount : Z) (db : DB) :
  (∀ r, r ∈ batch_runs db → run_ID r ≤ batch_runs_seq db) →
  let created := Create now draftID groupID groupName draftTitle status totalCount db in
  GetByID db created.2 = None
  ∧ GetByID created.1 created.2
    = Some (mkBatchRun created.2 draftID groupID groupName draftTitle status
                       totalCount 0 0 None None None now)
  ∧ (∀ id', id' ≠ created.2 → GetByID created.1 id' = GetByID db id')
  ∧ batch_messages created.1 = batch_messages db
  ∧ (∀ r, r ∈ batch_runs created.1 → run_ID r ≤ batch_runs_seq created.1).
Proof.
  intros Hseq created. subst created. unfold Create, GetByID. cbn [fst snd batch_runs
    batch_messages batch_runs_seq].
  split; [|split; [|split; [|split]]].
  - apply find_bool_None. intros x Hx. apply bool_decide_eq_false.
    specialize (Hseq x Hx). lia.
  - rewrite find_app_fresh.
    + simpl. by rewrite bool_decide_eq_true_2.
    + intros x Hx. apply bool_decide_eq_false. specialize (Hseq x Hx). lia.
  - intros id' Hne. apply find_app_old. intros x Hx%list_elem_of_singleton. subst x.
    simpl. apply bool_decide_eq_false. congruence.
  - done.
  - intros r [Hr|Hr]%elem_of_app.
    + specialize (Hseq r Hr). lia.
    + apply list_elem_of_singleton in Hr. subst r. simpl. lia.
Qed.

Lemma Create_then_GetByID_witness :
  let db := store mid_run_with_queue in
  let created := Create 9 1 7 "friends" "hello" BatchStatusQueued 3 db in
  (∀ r, r ∈ batch_runs db → run_ID r ≤ batch_runs_seq db)
  ∧ created.2 = 3
  ∧ GetByID db created.2 = None
  ∧ GetByID created.1 created.2
    = Some (mkBatchRun created.2 1 7 "friends" "hello" BatchStatusQueued 3 0 0
                       None None None 9).
Proof.
  intros db created.
  assert (∀ r, r ∈ batch_runs db → run_ID r ≤ batch_runs_seq db) as H.
  { apply Forall_forall. by_evaluation. }
  destruct (Create_then_GetByID 9 1 7 "friends" "hello" BatchStatusQueued 3 db H)
    as (E1 & E2 & _).
  split; [exact H|]. split; [vm_compute; reflexivity|]. split; [exact E1|exact E2].
Defined.

(** ** the unguarded status writes *)

Lemma GetByID_update id id' g db :
  (∀ r, run_ID (g r) = run_ID r) →
  GetByID (with_runs (update_where run_ID id g) db) id'
  = (λ r, if bool_decide (run_ID r = id) then g r else r) <$> GetByID db id'.
Proof. intros Hg. unfold GetByID. cbn [batch_runs with_runs]. by apply find_update_where. Qed.

Lemma GetByID_update_same id g db r :
  (∀ r, run_ID (g r) = run_ID r) →
  GetByID db id = Some r →
  GetByID (with_runs (update_where run_ID id g) db) id = Some (g r).
Proof.
  intros Hg Hget. rewrite GetByID_update, Hget by done. cbn.
  destruct (find_key_Some run_ID _ _ _ Hget) as [_ Hid].
  by rewrite bool_decide_eq_true_2.
Qed.

Lemma GetByID_update_other id id' g db :
  (∀ r, run_ID (g r) = run_ID r) → id' ≠ id →
  GetByID (with_runs (update_where run_ID id g) db) id' = GetByID db id'.
Proof.
  intros Hg Hne. rewrite GetByID_update by done.
  destruct (GetByID db id') as [r|] eqn:Hget; [|done]. cbn.
  destruct (find_key_Some run_ID _ _ _ Hget) as [_ Hid].
  rewrite bool_decide_eq_false_2; [done|congruence].
Qed.

(** X4. [Start], [Complete], [Fail] and [UpdateStatus] do not look at the
    status the run has: whatever it is (also [completed], [cancelled] or
    [failed]), the run reads back with the new status; [Start] stamps only
    the start time, [Complete] and [Fail] only the completion time,
    [UpdateStatus] no time at all; the counters and the total are kept, and
    every other run reads back as before. *)
Theorem status_writes_overwrite_any_status
    (now id : Z) (err : string) (s : BatchRunStatus) (db : DB) (r : BatchRun) :
  GetByID db id = Some r →
  GetByID (Start now id db) id
    = Some (mkBatchRun (run_ID r) (run_DraftID r) (run_GroupID r) (run_GroupName r)
              (run_DraftTitle r) BatchStatusRunning (run_TotalCount r) (run_SentCount r)
              (run_FailedCount r) (run_ErrorMessage r) (Some now) (run_CompletedAt r)
              (run_CreatedAt r))
  ∧ GetByID (Complete now id db) id
    = Some (mkBatchRun (run_ID r) (run_DraftID r) (run_GroupID r) (run_GroupName r)
              (run_DraftTitle r) BatchStatusCompleted (run_TotalCount r) (run_SentCount r)
              (run_FailedCount r) (run_ErrorMessage r) (run_StartedAt r) (Some now)
              (run_CreatedAt r))
  ∧ GetByID (Fail now id err db) id
    = Some (mkBatchRun (run_ID r) (run_DraftID r) (run_GroupID r) (run_GroupName r)
              (run_DraftTitle r) BatchStatusFailed (run_TotalCount r) (run_SentCount r)
              (run_FailedCount r) (Some err) (run_StartedAt r) (Some now)
              (run_CreatedAt r))
  ∧ GetByID (UpdateStatus id s db) id
    = Some (mkBatchRun (run_ID r) (run_DraftID r) (run_GroupID r) (run_GroupName r)
              (run_DraftTitle r) s (run_TotalCount r) (run_SentCount r)
              (run_FailedCount r) (run_ErrorMessage r) (run_StartedAt r)
              (run_CompletedAt r) (run_CreatedAt r))
  ∧ (∀ id', id' ≠ id →
       GetByID (Start now id db) id' = GetByID db id'
       ∧ GetByID (Complete now id db) id' = GetByID db id'
       ∧ GetByID (Fail now id err db) id' = GetByID db id'
       ∧ GetByID (UpdateStatus id s db) id' = GetByID db id').
Proof.
  intros Hget. unfold Start, Complete, Fail, UpdateStatus.
  rewrite !(GetByID_update_same id _ db r) by done.
  repeat split; try done; by apply GetByID_update_other.
Qed.

Lemma status_writes_overwrite_any_status_witness :
  let db := Cancel 30 1 (store mid_run_with_queue) in
  run_Status <$> GetByID db 1 = Some BatchStatusCancelled
  ∧ run_Status <$> GetByID (Complete 40 1 db) 1 = Some BatchStatusCompleted
  ∧ run_Status <$> GetByID (Start 40 1 db) 1 = Some BatchStatusRunning.
Proof.
  intros db.
  assert (GetByID db 1 = Some (cancelled_row 30 mid_run_row)) as H
    by (vm_compute; reflexivity).
  destruct (status_writes_overwrite_any_status 40 1 "" BatchStatusQueued db _ H)
    as (E1 & E2 & _).
  split; [by rewrite H|]. split; [by rewrite E2|by rewrite E1].
Defined.

(** ** the counters *)

(** X5. The two counter writes commute; each adds exactly 1 to its own
    counter of the run and leaves the other counter, the total and the status
    alone; [n] increments add [n]; on an identifier that is not in the table
    they change nothing.  Nothing in them caps a counter at the total. *)
Theorem counter_increments_add_up (id : Z) (db : DB) :
  IncrementSentCount id (IncrementFailedCount id db)
  = IncrementFailedCount id (IncrementSentCount id db)
  ∧ (∀ r n, GetByID db id = Some r →
       GetByID (Nat.iter n (IncrementSentCount id) db) id
       = Some (set_run_counts (run_SentCount r + Z.of_nat n) (run_FailedCount r) r)
       ∧ GetByID (Nat.iter n (IncrementFailedCount id) db) id
         = Some (set_run_counts (run_SentCount r) (run_FailedCount r + Z.of_nat n) r))
  ∧ (GetByID db id = None →
       IncrementSentCount id db = db ∧ IncrementFailedCount id db = db).
Proof.
  split; [|split].
  - unfold IncrementSentCount, IncrementFailedCount, with_runs. destruct db.
    cbn [batch_runs message_drafts batch_messages batch_runs_seq batch_messages_seq].
    f_equal. rewrite !update_where_compose by done. unfold update_where.
    apply list_fmap_ext. intros i r _. by case_bool_decide.
  - intros r n. revert r. induction n as [|n IH]; intros r Hget.
    + cbn. rewrite !Z.add_0_r, Hget. by destruct r.
    + destruct (IH r Hget) as [IH1 IH2]. rewrite !Nat.iter_succ. split.
      * unfold IncrementSentCount at 1.
        erewrite GetByID_update_same; [|done|exact IH1].
        f_equal. unfold set_run_counts. cbn. f_equal; lia.
      * unfold IncrementFailedCount at 1.
        erewrite GetByID_update_same; [|done|exact IH2].
        f_equal. unfold set_run_counts. cbn. f_equal; lia.
  - intros Hnone. unfold GetByID in Hnone. rewrite find_bool_None in Hnone.
    unfold IncrementSentCount, IncrementFailedCount, with_runs.
    rewrite !update_where_id.
    + by destruct db.
    + intros r Hr Hid. specialize (Hnone r Hr). apply bool_decide_eq_false in Hnone. done.
    + intros r Hr Hid. specialize (Hnone r Hr). apply bool_decide_eq_false in Hnone. done.
Qed.

Lemma counter_increments_add_up_witness :
  GetByID (store mid_run_with_queue) 1 = Some mid_run_row
  ∧ run_SentCount
      <$> GetByID (Nat.iter 5 (IncrementSentCount 1) (store mid_run_with_queue)) 1
    = Some 6
  ∧ GetByID (store mid_run_with_queue) 99 = None
  ∧ IncrementSentCount 99 (store mid_run_with_queue) = store mid_run_with_queue.
Proof.
  assert (GetByID (store mid_run_with_queue) 1 = Some mid_run_row) as H1
    by (vm_compute; reflexivity).
  assert (GetByID (store mid_run_with_queue) 99 = None) as H2
    by (vm_compute; reflexivity).
  destruct (counter_increments_add_up 1 (store mid_run_with_queue)) as (_ & Hn & _).
  destruct (counter_increments_add_up 99 (store mid_run_with_queue)) as (_ & _ & Hz).
  split; [exact H1|]. split; [|split; [exact H2|exact (proj1 (Hz H2))]].
  rewrite (proj1 (Hn mid_run_row 5%nat H1)). reflexivity.
Defined.

(** * More of the code: the message repository *)

(** X6. [GetNextPending] returns a pending row of the asked run, with the
    least creation time among the pending rows of that run; it finds nothing
    exactly when [GetPendingCount] of the run is 0. *)
Theorem GetNextPending_is_the_oldest_pending (db : DB) (batchRunID : Z) :
  (∀ m, GetNextPending db batchRunID = Some m →
     m ∈ batch_messages db
     ∧ msg_BatchRunID m = batchRunID
     ∧ msg_Status m = MessageStatusPending
     ∧ ∀ m', m' ∈ batch_messages db → msg_BatchRunID m' = batchRunID →
             msg_Status m' = MessageStatusPending →
             msg_CreatedAt m ≤ msg_CreatedAt m')
  ∧ (GetNextPending db batchRunID = None ↔ GetPendingCount db batchRunID = 0).
Proof.
  split.
  - intros m Hget. destruct (GetNextPending_Some _ _ _ Hget) as (Hin & Hrun & Hst).
    repeat split; try done. intros m' Hin' Hrun' Hst'.
    unfold GetNextPending in Hget. apply (oldest_min _ _ _ Hget).
    apply elem_of_filter_bool. split; [done|].
    unfold in_run, msg_has_status. by rewrite !bool_decide_eq_true_2.
  - unfold GetPendingCount. split.
    + intros Hnone. apply cnt_none. intros m Hin Hrun.
      by apply (GetNextPending_None db batchRunID).
    + intros Hcnt. destruct (GetNextPending db batchRunID) as [m|] eqn:Hget; [|done].
      destruct (GetNextPending_Some _ _ _ Hget) as (Hin & Hrun & Hst).
      pose proof (cnt_elem _ _ _ _ Hin Hrun Hst). lia.
Qed.

Lemma new_messages_members now rid tpl next members :
  (λ m, (msg_JID m, msg_ContactName m)) <$> new_messages now rid tpl next members
  = members.
Proof.
  revert next. induction members as [|[jid name] rest IH]; intros next; [done|].
  cbn. by rewrite IH.
Qed.

Lemma new_messages_all now rid tpl next members m :
  m ∈ new_messages now rid tpl next members →
  msg_Status m = MessageStatusPending ∧ msg_TemplateContent m = tpl
  ∧ msg_SentContent m = None ∧ msg_ErrorMessage m = None ∧ msg_SentAt m = None
  ∧ msg_CreatedAt m = now.
Proof.
  revert next. induction members as [|[jid name] rest IH]; intros next Hin.
  - by apply elem_of_nil in Hin.
  - cbn in Hin. apply elem_of_cons in Hin as [->|Hin]; [done|]. by apply (IH (next + 1)).
Qed.

(** X7. [CreateMultiple] appends one row per recipient, in the order of the
    list, each pending, carrying the template, with no sent content, error or
    send time.  The pending count of the run grows by the number of
    recipients; no count of another run or of another status changes; the
    rows that were there stay as they were, and so do the runs.  On a table
    whose identifiers are distinct and at most the high-water mark, the
    identifiers stay distinct and at most the new mark. *)
Theorem CreateMultiple_adds_one_pending_row_per_recipient
    (now batchRunID : Z) (template : string)
    (members : list (string * option string)) (db : DB) :
  (∀ m, m ∈ batch_messages db → msg_ID m ≤ batch_messages_seq db) →
  NoDup (msg_ID <$> batch_messages db) →
  let db' := CreateMultiple now batchRunID template members db in
  take (length (batch_messages db)) (batch_messages db') = batch_messages db
  ∧ (λ m, (msg_JID m, msg_ContactName m))
      <$> drop (length (batch_messages db)) (batch_messages db') = members
  ∧ (∀ m, m ∈ drop (length (batch_messages db)) (batch_messages db') →
       msg_BatchRunID m = batchRunID ∧ msg_Status m = MessageStatusPending
       ∧ msg_TemplateContent m = template ∧ msg_SentContent m = None
       ∧ msg_ErrorMessage m = None ∧ msg_SentAt m = None)
  ∧ GetPendingCount db' batchRunID
    = GetPendingCount db batchRunID + Z.of_nat (length members)
  ∧ (∀ id s, id ≠ batchRunID ∨ s ≠ MessageStatusPending →
       cnt id s (batch_messages db') = cnt id s (batch_messages db))
  ∧ batch_runs db' = batch_runs db
  ∧ NoDup (msg_ID <$> batch_messages db')
  ∧ (∀ m, m ∈ batch_messages db' → msg_ID m ≤ batch_messages_seq db').
Proof.
  intros Hseq Hnd db'. subst db'. unfold CreateMultiple, GetPendingCount.
  cbn [batch_messages batch_runs batch_messages_seq].
  rewrite take_app_length, drop_app_length.
  split; [done|]. split; [apply new_messages_members|]. split; [|split; [|split; [|split; [|split]]]].
  - intros m Hin. destruct (new_messages_ids _ _ _ _ _ _ Hin) as [_ Hrun].
    destruct (new_messages_all _ _ _ _ _ _ Hin) as (? & ? & ? & ? & ? & ?). done.
  - rewrite cnt_app, cnt_new_messages. by rewrite bool_decide_eq_true_2.
  - intros id s Hne. rewrite cnt_app, cnt_new_messages.
    rewrite bool_decide_eq_false_2; [lia|]. intros [-> <-]. by destruct Hne.
  - done.
  - rewrite fmap_app. apply NoDup_app. split; [done|]. split; [|apply new_messages_NoDup].
    intros x Hx Hx'. apply list_elem_of_fmap in Hx as (m & -> & Hm).
    apply list_elem_of_fmap in Hx' as (m' & Heq & Hm').
    specialize (Hseq m Hm). apply new_messages_ids in Hm'. lia.
  - intros m [Hm|Hm]%elem_of_app.
    + specialize (Hseq m Hm). lia.
    + apply new_messages_ids in Hm. lia.
Qed.

Lemma CreateMultiple_adds_one_pending_row_per_recipient_witness :
  let db := store mid_run_with_queue in
  let db' := CreateMultiple 50 2 "Hi" two_members db in
  GetPendingCount db 2 = 2 ∧ GetPendingCount db' 2 = 4
  ∧ GetPendingCount db' 1 = GetPendingCount db 1.
Proof.
  intros db db'.
  assert (∀ m, m ∈ batch_messages db → msg_ID m ≤ batch_messages_seq db) as H1.
  { apply Forall_forall. by_evaluation. }
  assert (NoDup (msg_ID <$> batch_messages db)) as H2 by by_evaluation.
  destruct (CreateMultiple_adds_one_pending_row_per_recipient 50 2 "Hi" two_members db H1 H2)
    as (_ & _ & _ & E & F & _).
  split; [vm_compute; reflexivity|]. split.
  - subst db'. rewrite E. vm_compute. reflexivity.
  - unfold GetPendingCount. subst db'. apply F. left. lia.
Defined.

Lemma cnt_all_statuses id rows :
  cnt id MessageStatusPending rows + cnt id MessageStatusSending rows
  + cnt id MessageStatusSent rows + cnt id MessageStatusFailed rows
  = Z.of_nat (length (List.filter (in_run id) rows)).
Proof.
  induction rows as [|m rest IH]; [done|]. cbn [cnt List.filter].
  unfold ind, msg_has_status. destruct (in_run id m); cbn [andb length].
  - destruct (msg_Status m); repeat case_bool_decide; try done; lia.
  - lia.
Qed.

(** X8. [GetStats] fails for a run that has no message row (the four sums
    are NULL then, and the scan into an int returns an error), and only then.
    When it answers, the four numbers are not negative, add up to the number
    of rows of the run, and the first is what [GetPendingCount] returns. *)
Theorem GetStats_counts_every_row_once (db : DB) (batchRunID : Z) :
  (GetStats db batchRunID = None
   ↔ ∀ m, m ∈ batch_messages db → msg_BatchRunID m ≠ batchRunID)
  ∧ (∀ pending sending sent failed,
       GetStats db batchRunID = Some (pending, sending, sent, failed) →
       0 ≤ pending ∧ 0 ≤ sending ∧ 0 ≤ sent ∧ 0 ≤ failed
       ∧ pending + sending + sent + failed
         = Z.of_nat (length (List.filter (in_run batchRunID) (batch_messages db)))
       ∧ 0 < pending + sending + sent + failed
       ∧ pending = GetPendingCount db batchRunID).
Proof.
  unfold GetStats, GetPendingCount.
  pose proof (cnt_all_statuses batchRunID (batch_messages db)) as Hsum.
  destruct (List.filter (in_run batchRunID) (batch_messages db)) as [|m0 rest] eqn:Hf.
  - split; [|done]. split; [|done]. intros _ m Hin Hrun.
    pose proof (proj1 (filter_bool_nil _ _) Hf m Hin) as Hout. unfold in_run in Hout.
    apply bool_decide_eq_false in Hout. done.
  - split.
    + split; [done|]. intros Hno. exfalso.
      assert (m0 ∈ List.filter (in_run batchRunID) (batch_messages db)) as Hin
        by (rewrite Hf; apply list_elem_of_here).
      apply elem_of_filter_bool in Hin as [Hin Hrun]. unfold in_run in Hrun.
      apply bool_decide_eq_true in Hrun. by apply (Hno m0).
    + intros p s t f [= <- <- <- <-].
      pose proof (cnt_nonneg batchRunID MessageStatusPending (batch_messages db)).
      pose proof (cnt_nonneg batchRunID MessageStatusSending (batch_messages db)).
      pose proof (cnt_nonneg batchRunID MessageStatusSent (batch_messages db)).
      pose proof (cnt_nonneg batchRunID MessageStatusFailed (batch_messages db)).
      cbn [length] in Hsum. repeat split; try done; lia.
Qed.

Lemma GetMessageByID_update id id' g db :
  (∀ m, msg_ID (g m) = msg_ID m) →
  GetMessageByID (with_messages (update_where msg_ID id g) db) id'
  = (λ m, if bool_decide (msg_ID m = id) then g m else m) <$> GetMessageByID db id'.
Proof.
  intros Hg. unfold GetMessageByID. cbn [batch_messages with_messages].
  by apply find_update_where.
Qed.

Lemma GetMessageByID_update_same id g db m :
  (∀ m, msg_ID (g m) = msg_ID m) →
  GetMessageByID db id = Some m →
  GetMessageByID (with_messages (update_where msg_ID id g) db) id = Some (g m).
Proof.
  intros Hg Hget. rewrite GetMessageByID_update, Hget by done. cbn.
  destruct (find_key_Some msg_ID _ _ _ Hget) as [_ Hid].
  by rewrite bool_decide_eq_true_2.
Qed.

Lemma GetMessageByID_update_other id id' g db :
  (∀ m, msg_ID (g m) = msg_ID m) → id' ≠ id →
  GetMessageByID (with_messages (update_where msg_ID id g) db) id'
  = GetMessageByID db id'.
Proof.
  intros Hg Hne. rewrite GetMessageByID_update by done.
  destruct (GetMessageByID db id') as [m|] eqn:Hget; [|done]. cbn.
  destruct (find_key_Some msg_ID _ _ _ Hget) as [_ Hid].
  rewrite bool_decide_eq_false_2; [done|congruence].
Qed.

Lemma with_messages_missing id g db :
  GetMessageByID db id = None →
  with_messages (update_where msg_ID id g) db = db.
Proof.
  intros Hnone. unfold GetMessageByID in Hnone. rewrite find_bool_None in Hnone.
  unfold with_messages. rewrite update_where_id; [by destruct db|].
  intros m Hm Hid. specialize (Hnone m Hm). by apply bool_decide_eq_false in Hnone.
Qed.

(** X9. The three message writes do not look at the status the row has.
    [MarkSending] changes the status only.  [MarkSent] sets the status, the
    sent content and the send time and keeps an error message the row already
    had.  [MarkFailed] sets the status and the error message and keeps a sent
    content and send time the row already had.  Recipient, run, template and
    creation time are never changed, every other row reads back as before,
    and a write to an identifier that is not in the table changes nothing. *)
Theorem message_marks_overwrite_any_status
    (now id : Z) (content err : string) (db : DB) :
  (∀ m, GetMessageByID db id = Some m →
     GetMessageByID (MarkSending id db) id
     = Some (mkBatchMessage (msg_ID m) (msg_BatchRunID m) (msg_JID m) (msg_ContactName m)
               MessageStatusSending (msg_TemplateContent m) (msg_SentContent m)
               (msg_ErrorMessage m) (msg_SentAt m) (msg_CreatedAt m))
     ∧ GetMessageByID (MarkSent now id content db) id
       = Some (mkBatchMessage (msg_ID m) (msg_BatchRunID m) (msg_JID m) (msg_ContactName m)
                 MessageStatusSent (msg_TemplateContent m) (Some content)
                 (msg_ErrorMessage m) (Some now) (msg_CreatedAt m))
     ∧ GetMessageByID (MarkFailed id err db) id
       = Some (mkBatchMessage (msg_ID m) (msg_BatchRunID m) (msg_JID m) (msg_ContactName m)
                 MessageStatusFailed (msg_TemplateContent m) (msg_SentContent m)
                 (Some err) (msg_SentAt m) (msg_CreatedAt m)))
  ∧ (∀ id', id' ≠ id →
       GetMessageByID (MarkSending id db) id' = GetMessageByID db id'
       ∧ GetMessageByID (MarkSent now id content db) id' = GetMessageByID db id'
       ∧ GetMessageByID (MarkFailed id err db) id' = GetMessageByID db id')
  ∧ (GetMessageByID db id = None →
       MarkSending id db = db ∧ MarkSent now id content db = db
       ∧ MarkFailed id err db = db)
  ∧ batch_runs (MarkSending id db) = batch_runs db
  ∧ batch_runs (MarkSent now id content db) = batch_runs db
  ∧ batch_runs (MarkFailed id err db) = batch_runs db.
Proof.
  unfold MarkSending, MarkSent, MarkFailed. split; [|split; [|split]].
  - intros m Hget. rewrite !(GetMessageByID_update_same id _ db m) by done. done.
  - intros id' Hne. repeat split; by apply GetMessageByID_update_other.
  - intros Hnone. repeat split; by apply with_messages_missing.
  - done.
Qed.

(** * More of the code: the worker, one call at a time

    Each property of this part is about one call of the worker that runs
    from its start to its end with nothing else writing the store or the
    worker meanwhile. *)

(** ** extractPhone *)

(** X10. [extractPhone] cuts the JID at its first ['@']: the result holds no
    ['@'], and what it leaves out is either nothing (the JID has no ['@'] and
    is returned whole) or starts with that ['@']. *)
Theorem extractPhone_is_the_part_before_the_first_at (jid : string) :
  ∃ rest, jid = extractPhone jid +:+ rest
    ∧ ¬ In "@"%char (list_ascii_of_string (extractPhone jid))
    ∧ (rest = "" ∨ ∃ r, rest = String "@" r).
Proof.
  induction jid as [|c jid (rest & Heq & Hno & Hrest)].
  - exists "". cbn. tauto.
  - cbn [extractPhone]. destruct (Ascii.eqb c "@") eqn:Hc.
    + apply Ascii.eqb_eq in Hc. subst c. exists (String "@" jid). cbn. split; [done|].
      split; [tauto|]. right. by exists jid.
    + exists rest. split.
      { change (String c jid = String c (extractPhone jid +:+ rest)). by f_equal. }
      split; [|done]. cbn. intros [->|Hin]; [|done]. by rewrite Ascii.eqb_refl in Hc.
Qed.

(** ** Subscribe and Unsubscribe *)

Lemma remove_first_last ch subs : ch ∉ subs → remove_first ch (subs ++ [ch]) = subs.
Proof.
  induction subs as [|c subs IH]; intros Hnot; cbn.
  - by rewrite bool_decide_eq_true_2.
  - apply not_elem_of_cons in Hnot as [Hne Hnot].
    rewrite bool_decide_eq_false_2 by done. by rewrite IH.
Qed.

(** X11. In a registry whose channels are allocated, [Subscribe] makes a new
    channel of capacity 10, empty, that no run had; it is added last to the
    subscribers of the run and to no other run, and no existing channel, nor
    the store, the active run or the pacer, changes.  [Unsubscribe] of that
    channel brings the subscribers of every run back to what they were, and
    [Unsubscribe] of a channel that is not registered for the run changes
    nothing at all. *)
Theorem Subscribe_then_Unsubscribe (batchID : Z) (w : Worker) :
  registry_wf w →
  let w1 := (Subscribe batchID w).1 in
  let ch := (Subscribe batchID w).2 in
  heap w1 !! ch = Some (make_chan 10)
  ∧ (∀ id, ch ∉ subscribers_of w id)
  ∧ subscribers_of w1 batchID = subscribers_of w batchID ++ [ch]
  ∧ (∀ id, id ≠ batchID → subscribers_of w1 id = subscribers_of w id)
  ∧ (∀ c, (c < length (heap w))%nat → heap w1 !! c = heap w !! c)
  ∧ store w1 = store w ∧ currentRun w1 = currentRun w ∧ nextSendAt w1 = nextSendAt w
  ∧ (∀ id, subscribers_of (Unsubscribe batchID ch w1) id = subscribers_of w id)
  ∧ heap (Unsubscribe batchID ch w1) = heap w1
  ∧ (∀ id c, c ∉ subscribers_of w id → Unsubscribe id c w = w).
Proof.
  intros Hwf w1 ch. subst w1 ch. unfold Subscribe. cbn [fst snd].
  assert (∀ id, length (heap w) ∉ subscribers_of w id) as Hfresh.
  { intros id Hin. destruct (Hwf id) as [_ Hlt]. specialize (Hlt _ Hin). lia. }
  assert (subscribers_of
            (set_subscribers
               (<[batchID:=subscribers_of w batchID ++ [length (heap w)]]> (subscribers w))
               (set_heap (heap w ++ [make_chan 10]) w)) batchID
          = subscribers_of w batchID ++ [length (heap w)]) as Hsub.
  { unfold subscribers_of at 1. cbn. by rewrite lookup_insert_eq. }
  split; [|split; [|split; [|split; [|split; [|split; [|split; [|split; [|split; [|split]]]]]]]]].
  - cbn. rewrite lookup_app_r by lia. by rewrite Nat.sub_diag.
  - done.
  - done.
  - intros id Hne. unfold subscribers_of. cbn. by rewrite lookup_insert_ne.
  - intros c Hc. cbn. by rewrite lookup_app_l.
  - done.
  - done.
  - done.
  - intros id. unfold Unsubscribe. rewrite Hsub.
    rewrite bool_decide_eq_true_2 by (apply elem_of_app; right; apply list_elem_of_here).
    rewrite remove_first_last by done.
    unfold subscribers_of at 1. cbn [subscribers set_subscribers set_heap].
    destruct (decide (id = batchID)) as [->|Hne].
    + by rewrite lookup_insert_eq.
    + by rewrite !lookup_insert_ne.
  - unfold Unsubscribe. rewrite Hsub.
    by rewrite bool_decide_eq_true_2 by (apply elem_of_app; right; apply list_elem_of_here).
  - intros id c Hnot. unfold Unsubscribe. by rewrite bool_decide_eq_false_2.
Qed.

Lemma Subscribe_then_Unsubscribe_witness :
  let w := mid_run_with_queue in
  let w1 := (Subscribe 1 w).1 in
  registry_wf w
  ∧ (Subscribe 1 w).2 = 0%nat
  ∧ subscribers_of w1 1 = [0%nat]
  ∧ subscribers_of (Unsubscribe 1 0 w1) 1 = [].
Proof.
  intros w w1.
  assert (registry_wf w) as Hwf by apply registered_channels_distinct.
  destruct (Subscribe_then_Unsubscribe 1 w Hwf) as (_ & _ & E3 & _ & _ & _ & _ & _ & E9 & _).
  split; [exact Hwf|]. split; [vm_compute; reflexivity|]. split.
  - subst w1. rewrite E3. vm_compute. reflexivity.
  - subst w1. change 0%nat with (Subscribe 1 w).2 at 1. rewrite E9. vm_compute. reflexivity.
Defined.

(** ** a tick that has nothing to send *)

(** X12. A tick writes nothing when there is nothing to do.  With no active
    run and no queued run it leaves the worker exactly as it was.  With an
    active run whose deadline has not come it leaves the store, the active
    run, the deadline, the registry and the goroutines as they were and only
    offers an event to the subscribers of that run: a channel that is not
    registered for the run is not written, whatever the store calls
    return. *)
Theorem tick_with_nothing_to_send_writes_nothing (e : Env) (w : Worker) :
  (currentRun w = None → GetNextQueued (store w) = None →
     processNextMessage e w = w)
  ∧ (∀ current, currentRun w = Some current → env_now e < nextSendAt w →
       registry_wf w →
       let w' := processNextMessage e w in
       store w' = store w ∧ currentRun w' = currentRun w
       ∧ nextSendAt w' = nextSendAt w ∧ subscribers w' = subscribers w
       ∧ goroutines w' = goroutines w
       ∧ length (heap w') = length (heap w)
       ∧ ∀ c, c ∉ subscribers_of w (BatchID current) → heap w' !! c = heap w !! c).
Proof.
  split.
  - intros Hc Hq. unfold processNextMessage, checkQueue. rewrite Hc, Hq.
    by destruct (fails e SC_GetNextQueued).
  - intros current Hc Hearly Hwf w'. subst w'. unfold processNextMessage.
    rewrite Hc. rewrite bool_decide_eq_true_2 by done.
    rewrite store_broadcastProgress, currentRun_broadcastProgress,
      nextSendAt_broadcastProgress, subscribers_broadcastProgress,
      goroutines_broadcastProgress.
    destruct (same_registry_broadcastProgress (BatchID current) e w) as [_ Hlen].
    repeat split; try done.
    intros c Hnot. unfold broadcastProgress.
    destruct (GetProgress (BatchID current) e w) as [err|ev]; [done|].
    unfold broadcastEvent. cbn.
    rewrite foldl_heap_send_lookup by apply Hwf. by rewrite bool_decide_eq_false_2.
Qed.

Lemma tick_with_nothing_to_send_writes_nothing_witness :
  let w := mid_run_with_queue in
  let e := env_at (21 * Second) true None in
  currentRun w = Some mid_run_current
  ∧ env_now e < nextSendAt w
  ∧ store (processNextMessage e w) = store w
  ∧ processNextMessage e (initial [draft1]) = initial [draft1].
Proof.
  intros w e.
  assert (currentRun w = Some mid_run_current) as Hc by (vm_compute; reflexivity).
  assert (env_now e < nextSendAt w) as Hd by (vm_compute; reflexivity).
  destruct (tick_with_nothing_to_send_writes_nothing e w) as [_ Hbusy].
  destruct (tick_with_nothing_to_send_writes_nothing e (initial [draft1])) as [Hidle _].
  destruct (Hbusy _ Hc Hd (registered_channels_distinct _ _)) as (E1 & _).
  split; [exact Hc|]. split; [exact Hd|]. split; [exact E1|].
  apply Hidle; reflexivity.
Defined.
(** ** a tick that sends *)

Lemma GetMessageByID_unique db m :
  NoDup (msg_ID <$> batch_messages db) → m ∈ batch_messages db →
  GetMessageByID db (msg_ID m) = Some m.
Proof.
  intros Hnd Hin. unfold GetMessageByID.
  destruct (List.find (λ m0, bool_decide (msg_ID m0 = msg_ID m)) (batch_messages db))
    as [m'|] eqn:Hfind.
  - f_equal. symmetry. by apply (find_key_unique msg_ID (msg_ID m) (batch_messages db) m' m).
  - rewrite find_bool_None in Hfind. specialize (Hfind m Hin).
    by apply bool_decide_eq_false in Hfind.
Qed.

Lemma processNextMessage_dispatch e w current msg :
  currentRun w = Some current → ¬ env_now e < nextSendAt w →
  env_connected e = true → fails e SC_GetNextPending = false →
  GetNextPending (store w) (BatchID current) = Some msg →
  processNextMessage e w = sendMessage current msg e w.
Proof.
  intros Hc Hdue Hconn Hf Hnext. unfold processNextMessage.
  rewrite Hc, bool_decide_eq_false_2, Hconn, Hf, Hnext by done. done.
Qed.

Lemma GetMessageByID_with_runs f db id :
  GetMessageByID (with_runs f db) id = GetMessageByID db id.
Proof. reflexivity. Qed.

Lemma GetByID_with_messages f db id : GetByID (with_messages f db) id = GetByID db id.
Proof. reflexivity. Qed.

Lemma currentRun_sendMessage_contact state msg e w :
  currentRun (sendMessage state msg e w)
  = Some (mkActiveBatchState (BatchID state) (DraftContent state) (msg_JID msg)
            (default (extractPhone (msg_JID msg)) (msg_ContactName msg))).
Proof.
  unfold sendMessage.
  destruct (fails e SC_GetAllForContact); [|destruct (env_send e)];
    unfold scheduleNextMessage, markMessageFailed, markMessageSent;
    cbn [currentRun set_nextSendAt]; rewrite currentRun_broadcastEvent;
    cbn [with_store currentRun]; rewrite currentRun_broadcastProgress;
    by destruct (msg_ContactName msg).
Qed.

(** X13. A due tick with the transport connected and a store that accepts
    its calls handles exactly one message, the one [GetNextPending] returns.
    When the transport accepts it, that row becomes [sent] with the filled
    template as sent content and the time after the send as send time, and
    the sent counter of the active run grows by 1.  When the transport
    refuses it, the row becomes [failed] with the error text after
    ["Send failed: "], the failed counter grows by 1, and the run goes on: in
    both cases the status of the run is not written, the recipient becomes
    the current contact (by its cached name, or the phone part of the JID when
    none was cached), the pacer is re-armed 10 to 15 seconds after the send,
    and every other message and every other run reads back unchanged. *)
Theorem due_tick_handles_exactly_one_message
    (e : Env) (w : Worker) (current : ActiveBatchState) (msg : BatchMessage)
    (run : BatchRun) :
  env_faults e = [] →
  currentRun w = Some current →
  ¬ env_now e < nextSendAt w →
  env_connected e = true →
  GetNextPending (store w) (BatchID current) = Some msg →
  GetByID (store w) (BatchID current) = Some run →
  NoDup (msg_ID <$> batch_messages (store w)) →
  let w' := processNextMessage e w in
  let name := default (extractPhone (msg_JID msg)) (msg_ContactName msg) in
  currentRun w'
  = Some (mkActiveBatchState (BatchID current) (DraftContent current) (msg_JID msg) name)
  ∧ env_now_after_send e + 10 * Second ≤ nextSendAt w'
    < env_now_after_send e + 15 * Second
  ∧ (∀ id, id ≠ msg_ID msg →
       GetMessageByID (store w') id = GetMessageByID (store w) id)
  ∧ (∀ id, id ≠ BatchID current → GetByID (store w') id = GetByID (store w) id)
  ∧ match env_send e with
    | None =>
        GetMessageByID (store w') (msg_ID msg)
        = Some (mkBatchMessage (msg_ID msg) (BatchID current) (msg_JID msg)
                  (msg_ContactName msg) MessageStatusSent (msg_TemplateContent msg)
                  (Some (env_fill e (msg_JID msg) (DraftContent current)))
                  (msg_ErrorMessage msg) (Some (env_now_after_send e))
                  (msg_CreatedAt msg))
        ∧ GetByID (store w') (BatchID current)
          = Some (set_run_counts (run_SentCount run + 1) (run_FailedCount run) run)
    | Some err =>
        GetMessageByID (store w') (msg_ID msg)
        = Some (mkBatchMessage (msg_ID msg) (BatchID current) (msg_JID msg)
                  (msg_ContactName msg) MessageStatusFailed (msg_TemplateContent msg)
                  (msg_SentContent msg) (Some ("Send failed: " +:+ err))
                  (msg_SentAt msg) (msg_CreatedAt msg))
        ∧ GetByID (store w') (BatchID current)
          = Some (set_run_counts (run_SentCount run) (run_FailedCount run + 1) run)
    end.
Proof.
  intros Hrel Hc Hdue Hconn Hnext Hrun Hnd w' name. subst w' name.
  rewrite (processNextMessage_dispatch e w current msg) by
    (try done; by apply fails_reliable).
  destruct (GetNextPending_Some _ _ _ Hnext) as (Hin & Hrid & Hst).
  pose proof (GetMessageByID_unique _ _ Hnd Hin) as Hget.
  pose proof (pacer_delay_range (env_rand e)) as Hp.
  rewrite nextSendAt_sendMessage, currentRun_sendMessage_contact.
  rewrite (store_sendMessage_reliable current msg e w Hrel).
  split; [done|]. split; [lia|].
  assert (GetMessageByID (MarkSending (msg_ID msg) (store w)) (msg_ID msg)
          = Some (set_msg_status MessageStatusSending msg)) as Hsending.
  { unfold MarkSending. by apply GetMessageByID_update_same. }
  destruct (env_send e) as [err|].
  - unfold IncrementFailedCount, MarkFailed.
    split; [|split; [|split]].
    + intros id Hne. rewrite GetMessageByID_with_runs.
      rewrite GetMessageByID_update_other by done.
      unfold MarkSending. by rewrite GetMessageByID_update_other.
    + intros id Hne. rewrite GetByID_update_other by done. done.
    + rewrite GetMessageByID_with_runs.
      erewrite GetMessageByID_update_same; [|done|exact Hsending].
      unfold set_msg_error, set_msg_status. cbn. by rewrite Hrid.
    + erewrite GetByID_update_same; [done|done|].
      rewrite GetByID_with_messages. unfold MarkSending.
      by rewrite GetByID_with_messages.
  - unfold IncrementSentCount, MarkSent.
    split; [|split; [|split]].
    + intros id Hne. rewrite GetMessageByID_with_runs.
      rewrite GetMessageByID_update_other by done.
      unfold MarkSending. by rewrite GetMessageByID_update_other.
    + intros id Hne. rewrite GetByID_update_other by done. done.
    + rewrite GetMessageByID_with_runs.
      erewrite GetMessageByID_update_same; [|done|exact Hsending].
      unfold set_msg_sent, set_msg_status. cbn. by rewrite Hrid.
    + erewrite GetByID_update_same; [done|done|].
      rewrite GetByID_with_messages. unfold MarkSending.
      by rewrite GetByID_with_messages.
Qed.

Lemma due_tick_handles_exactly_one_message_witness :
  let w := mid_run_with_queue in
  let e := env_at (40 * Second) true None in
  msg_Status <$> GetMessageByID (store w) 2 = Some MessageStatusPending
  ∧ msg_Status <$> GetMessageByID (store (processNextMessage e w)) 2
    = Some MessageStatusSent
  ∧ run_SentCount <$> GetByID (store (processNextMessage e w)) 1 = Some 2.
Proof.
  intros w e.
  assert (∃ msg, GetNextPending (store w) (BatchID mid_run_current) = Some msg
                 ∧ msg_ID msg = 2) as (msg & Hnext & Hid)
    by (eexists; split; cbv; reflexivity).
  assert (currentRun w = Some mid_run_current) as Hc by (vm_compute; reflexivity).
  assert (¬ env_now e < nextSendAt w) as Hdue by by_evaluation.
  assert (GetByID (store w) (BatchID mid_run_current) = Some mid_run_row) as Hrun
    by (vm_compute; reflexivity).
  assert (NoDup (msg_ID <$> batch_messages (store w))) as Hnd by by_evaluation.
  destruct (due_tick_handles_exactly_one_message e w mid_run_current msg mid_run_row
              eq_refl Hc Hdue eq_refl Hnext Hrun Hnd) as (_ & _ & _ & _ & Hsent & Hcount).
  split; [vm_compute; reflexivity|].
  rewrite Hid in Hsent. change (BatchID mid_run_current) with 1 in Hcount.
  split; [by rewrite Hsent|by rewrite Hcount].
Defined.

(** ** starting a run *)

Lemma GetByID_unique db r :
  NoDup (run_ID <$> batch_runs db) → r ∈ batch_runs db → GetByID db (run_ID r) = Some r.
Proof.
  intros Hnd Hin. unfold GetByID.
  destruct (List.find (λ r0, bool_decide (run_ID r0 = run_ID r)) (batch_runs db))
    as [r'|] eqn:Hfind.
  - f_equal. symmetry. by apply (find_key_unique run_ID (run_ID r) (batch_runs db) r' r).
  - rewrite find_bool_None in Hfind. specialize (Hfind r Hin).
    by apply bool_decide_eq_false in Hfind.
Qed.

(** X14. A run whose draft cannot be read is failed, not started: when the
    draft is gone, or when the read of the draft returns a driver error,
    [startBatch] writes status [failed] with the error text ["Draft not
    found"] and a completion time, and nothing else: the messages of the run
    stay as they are, the worker stays without an active run, the pacer is
    not armed and no event is offered to any subscriber.  An idle tick that
    picks such a run from the queue ends there; the next queued run waits
    for the next tick. *)
Theorem run_whose_draft_cannot_be_read_is_failed
    (e : Env) (w : Worker) (run r : BatchRun) :
  fails e SC_Fail = false →
  fails e SC_DraftGetByID = true ∨ DraftGetByID (store w) (run_DraftID run) = None →
  GetByID (store w) (run_ID run) = Some r →
  let w' := startBatch run e w in
  GetByID (store w') (run_ID run)
  = Some (mkBatchRun (run_ID r) (run_DraftID r) (run_GroupID r) (run_GroupName r)
            (run_DraftTitle r) BatchStatusFailed (run_TotalCount r) (run_SentCount r)
            (run_FailedCount r) (Some "Draft not found") (run_StartedAt r)
            (Some (env_now e)) (run_CreatedAt r))
  ∧ (∀ id, id ≠ run_ID run → GetByID (store w') id = GetByID (store w) id)
  ∧ batch_messages (store w') = batch_messages (store w)
  ∧ currentRun w' = currentRun w ∧ nextSendAt w' = nextSendAt w
  ∧ heap w' = heap w ∧ subscribers w' = subscribers w ∧ goroutines w' = goroutines w
  ∧ (currentRun w = None → fails e SC_GetNextQueued = false →
     GetNextQueued (store w) = Some run →
     processNextMessage e w = w' ∧ currentRun (processNextMessage e w) = None).
Proof.
  intros Hfail Hdraft Hget w'.
  assert (w' = with_store (Fail (env_now e) (run_ID run) "Draft not found") w) as Hw'.
  { subst w'. unfold startBatch, exec. rewrite Hfail.
    destruct Hdraft as [-> | Hnone]; [done|].
    rewrite Hnone. by destruct (fails e SC_DraftGetByID). }
  split; [|split; [|split; [|split; [|split; [|split; [|split; [|split]]]]]]].
  - rewrite Hw'. unfold Fail. cbn [store with_store].
    by rewrite (GetByID_update_same _ _ _ r).
  - intros id Hne. rewrite Hw'. unfold Fail. cbn [store with_store].
    by rewrite GetByID_update_other.
  - by rewrite Hw'.
  - by rewrite Hw'.
  - by rewrite Hw'.
  - by rewrite Hw'.
  - by rewrite Hw'.
  - by rewrite Hw'.
  - intros Hc Hq Hnext. unfold processNextMessage, checkQueue. rewrite Hc, Hq, Hnext.
    split; [done|]. fold w'. by rewrite Hw'.
Qed.

Lemma run_whose_draft_cannot_be_read_is_failed_witness :
  let w := exec_action (DoSetDrafts [])
             (run_trace [DoCreate 1 7 "friends" three_members (env_at 1 true None)]
                        (initial [draft1])) in
  let e := env_at (3 * Second) true None in
  run_Status <$> GetByID (store w) 1 = Some BatchStatusQueued
  ∧ run_Status <$> GetByID (store (processNextMessage e w)) 1 = Some BatchStatusFailed
  ∧ currentRun (processNextMessage e w) = None.
Proof.
  intros w e.
  assert (∃ run, GetNextQueued (store w) = Some run ∧ GetByID (store w) (run_ID run) = Some run
                 ∧ run_ID run = 1)
    as (run & Hnext & Hget & Hid) by (eexists; split; [|split]; cbv; reflexivity).
  assert (DraftGetByID (store w) (run_DraftID run) = None) as Hd.
  { unfold DraftGetByID. reflexivity. }
  destruct (run_whose_draft_cannot_be_read_is_failed e w run run eq_refl (or_intror Hd) Hget)
    as (E1 & _ & _ & _ & _ & _ & _ & _ & Htick).
  destruct (Htick eq_refl eq_refl Hnext) as [Hw' Hcur].
  split; [vm_compute; reflexivity|]. rewrite Hw'. rewrite <- Hid, E1.
  split; [reflexivity|]. by rewrite <- Hw'.
Defined.

(** X15. An idle tick over a store that accepts its calls starts the oldest
    queued run, provided its draft is there: that run reads back [running]
    with the time of the tick as start time and its counters as they were,
    every other run and every message is untouched, the worker holds the run
    as active with the content of the draft and no current contact, and the
    first message is due 10 to 15 seconds later: the tick that starts a run
    sends nothing. *)
Theorem idle_tick_starts_the_oldest_queued_run
    (e : Env) (w : Worker) (run : BatchRun) (draft : MessageDraft) :
  env_faults e = [] →
  currentRun w = None →
  GetNextQueued (store w) = Some run →
  DraftGetByID (store w) (run_DraftID run) = Some draft →
  NoDup (run_ID <$> batch_runs (store w)) →
  let w' := processNextMessage e w in
  (∀ r, r ∈ batch_runs (store w) → run_Status r = BatchStatusQueued →
        run_CreatedAt run ≤ run_CreatedAt r)
  ∧ GetByID (store w') (run_ID run)
    = Some (mkBatchRun (run_ID run) (run_DraftID run) (run_GroupID run)
              (run_GroupName run) (run_DraftTitle run) BatchStatusRunning
              (run_TotalCount run) (run_SentCount run) (run_FailedCount run)
              (run_ErrorMessage run) (Some (env_now e)) (run_CompletedAt run)
              (run_CreatedAt run))
  ∧ (∀ id, id ≠ run_ID run → GetByID (store w') id = GetByID (store w) id)
  ∧ batch_messages (store w') = batch_messages (store w)
  ∧ currentRun w' = Some (mkActiveBatchState (run_ID run) (draft_Content draft) "" "")
  ∧ env_now e + 10 * Second ≤ nextSendAt w' < env_now e + 15 * Second.
Proof.
  intros Hrel Hc Hnext Hdraft Hnd w'.
  assert (w' = startBatch run e w) as ->.
  { subst w'. unfold processNextMessage, checkQueue.
    by rewrite Hc, (fails_reliable e SC_GetNextQueued Hrel), Hnext. }
  destruct (GetNextQueued_Some_elem _ _ Hnext) as [Hin Hq].
  destruct (startBatch_started run draft e w (fails_reliable e _ Hrel) Hdraft
              (fails_reliable e _ Hrel)) as (Hs & Hcur & Hat).
  pose proof (pacer_delay_range (env_rand e)) as Hp.
  rewrite Hs, Hcur, Hat. unfold Start.
  split; [|split; [|split; [|split; [|split]]]]; try done.
  - intros r Hr Hrq. apply (oldest_min run_CreatedAt _ _ Hnext).
    apply elem_of_filter_bool. split; [done|]. by apply bool_decide_eq_true.
  - by rewrite (GetByID_update_same _ _ _ run) by (try done; by apply GetByID_unique).
  - intros id Hne. by rewrite GetByID_update_other.
  - lia.
Qed.

Lemma idle_tick_starts_the_oldest_queued_run_witness :
  let w := run_trace [DoCreate 1 7 "friends" three_members (env_at 1 true None);
                      DoCreate 1 8 "family" two_members (env_at 2 true None)]
                     (initial [draft1]) in
  let w' := processNextMessage (env_at (3 * Second) true None) w in
  run_Status <$> batch_runs (store w) = [BatchStatusQueued; BatchStatusQueued]
  ∧ run_Status <$> GetByID (store w') 1 = Some BatchStatusRunning
  ∧ GetByID (store w') 2 = GetByID (store w) 2
  ∧ batch_messages (store w') = batch_messages (store w).
Proof.
  intros w w'.
  assert (∃ run, GetNextQueued (store w) = Some run ∧ run_ID run = 1
                 ∧ DraftGetByID (store w) (run_DraftID run) = Some draft1)
    as (run & Hnext & Hid & Hd) by (eexists; split; [|split]; cbv; reflexivity).
  assert (NoDup (run_ID <$> batch_runs (store w))) as Hnd by by_evaluation.
  destruct (idle_tick_starts_the_oldest_queued_run (env_at (3 * Second) true None) w run
              draft1 eq_refl eq_refl Hnext Hd Hnd) as (_ & E2 & E3 & E4 & _).
  split; [vm_compute; reflexivity|]. rewrite Hid in E2, E3. subst w'.
  split; [by rewrite E2|]. split; [apply E3; lia|exact E4].
Defined.

(** * More of the code: the store over whole executions *)


(** * More of the code: the active run and the statuses of the runs *)

Section active_run.
Context (e : Env) (Hrel : env_faults e = []).









End active_run.




(** ** the statuses of the runs *)











Section run_steps.
Context (e : Env) (Hrel : env_faults e = []).







End run_steps.






(** * More of the code: the handlers *)

Lemma filter_in_run_old id rows :
  (∀ m, m ∈ rows → msg_BatchRunID m ≠ id) → List.filter (in_run id) rows = [].
Proof.
  intros H. apply filter_bool_nil. intros m Hm. unfold in_run.
  apply bool_decide_eq_false. by apply H.
Qed.

Lemma filter_in_run_new now id tpl next members :
  List.filter (in_run id) (new_messages now id tpl next members)
  = new_messages now id tpl next members.
Proof.
  revert next. induction members as [|[jid name] rest IH]; intros next; [done|].
  cbn. unfold in_run at 1. cbn. rewrite bool_decide_eq_true_2 by done. by rewrite IH.
Qed.

(** X19. The create handler run in one piece (nothing falls between its two
    writes) over a store that accepts them and satisfies the invariant of the
    store, given a draft that exists and a group with members: the new
    run gets an identifier no run had, and reads back [queued] with the title
    of the draft, a total equal to the number of members and both counters 0;
    its messages are one per member in the order of the list, all [pending],
    carrying the content of the draft, and [GetStats] of the run reports them
    all as pending; every other run reads back unchanged; the invariant of the
    store still holds.  The handler starts nothing: the active run and the
    pacer of the worker are as before.  Without the draft, or with no member,
    nothing is written. *)
Theorem createBatch_queues_one_message_per_member
    (draftID groupID : Z) (groupName : string)
    (members : list (string * option string)) (e : Env) (w : Worker) (s : bool) :
  env_faults e = [] →
  db_inv s (store w) →
  let w' := createBatch draftID groupID groupName members e w in
  let id := batch_runs_seq (store w) + 1 in
  (DraftGetByID (store w) draftID = None → w' = w)
  ∧ (members = [] → w' = w)
  ∧ currentRun w' = currentRun w ∧ nextSendAt w' = nextSendAt w
  ∧ db_inv s (store w')
  ∧ ∀ draft, DraftGetByID (store w) draftID = Some draft → members ≠ [] →
      GetByID (store w) id = None
      ∧ GetByID (store w') id
        = Some (mkBatchRun id draftID groupID groupName (draft_Title draft)
                  BatchStatusQueued (Z.of_nat (length members)) 0 0 None None None
                  (env_now e))
      ∧ (∀ id', id' ≠ id → GetByID (store w') id' = GetByID (store w) id')
      ∧ (λ m, (msg_JID m, msg_ContactName m))
          <$> List.filter (in_run id) (batch_messages (store w')) = members
      ∧ (∀ m, m ∈ batch_messages (store w') → msg_BatchRunID m = id →
              msg_Status m = MessageStatusPending
              ∧ msg_TemplateContent m = draft_Content draft)
      ∧ GetStats (store w') id = Some (Z.of_nat (length members), 0, 0, 0).
Proof.
  intros Hrel Hinv w' id. subst w'. rewrite createBatch_reliable by done.
  destruct (DraftGetByID (store w) draftID) as [d|] eqn:Hd;
    [|do 5 (split; [done|]); by intros draft [=]].
  destruct members as [|mb members];
    [do 5 (split; [done|]); intros draft _ Hne; by destruct Hne|].
  set (ms := mb :: members). unfold Create. cbn [fst snd].
  assert (∀ m, m ∈ batch_messages (store w) → msg_BatchRunID m ≠ id) as Hold.
  { intros m Hm. destruct (inv_msg_seq _ _ Hinv m Hm). subst id. lia. }
  assert (∀ x, x ∈ batch_runs (store w) → bool_decide (run_ID x = id) = false) as Hfresh.
  { intros x Hx. apply bool_decide_eq_false. pose proof (inv_run_seq _ _ Hinv x Hx).
    subst id. lia. }
  split; [done|]. split; [done|]. split; [done|]. split; [done|]. split.
  { apply (db_inv_create s (env_now e) draftID groupID groupName (draft_Title d)
             (draft_Content d) ms (store w) Hinv). }
  intros draft [= <-] _. cbn [store with_store].
  unfold CreateMultiple. cbn [batch_messages batch_runs batch_messages_seq batch_runs_seq
    message_drafts]. fold id.
  split; [|split; [|split; [|split; [|split]]]].
  - unfold GetByID. by apply find_bool_None.
  - unfold GetByID. cbn [batch_runs]. rewrite find_app_fresh by done. cbn.
    by rewrite bool_decide_eq_true_2.
  - intros id' Hne. unfold GetByID. cbn [batch_runs]. apply find_app_old.
    intros x Hx%list_elem_of_singleton. subst x. cbn. apply bool_decide_eq_false.
    congruence.
  - rewrite List.filter_app, filter_in_run_old, filter_in_run_new by done.
    apply new_messages_members.
  - intros m [Hm|Hm]%elem_of_app Hrun; [by destruct (Hold m Hm)|].
    destruct (new_messages_all _ _ _ _ _ _ Hm) as (? & ? & _). done.
  - unfold GetStats. cbn [batch_messages].
    rewrite List.filter_app, filter_in_run_old, filter_in_run_new by done.
    rewrite !cnt_app, !cnt_new_messages.
    rewrite !(cnt_none id) by (intros m Hm Hrun; by destruct (Hold m Hm)).
    rewrite bool_decide_eq_true_2 by done.
    rewrite !bool_decide_eq_false_2 by (by intros [_ ?]).
    subst ms. destruct mb as [jid name]. cbn [app new_messages]. do 2 f_equal.
Qed.

Lemma createBatch_queues_one_message_per_member_witness :
  let tr := [DoCreate 1 7 "friends" three_members (env_at 1 true None);
             Tick (env_at (3 * Second) true None);
             Tick (env_at (20 * Second) true None)] in
  let w := run_trace tr (initial [draft1]) in
  let w' := createBatch 1 9 "team" two_members (env_at (21 * Second) true None) w in
  db_inv true (store w)
  ∧ run_Status <$> GetByID (store w') 2 = Some BatchStatusQueued
  ∧ GetStats (store w') 2 = Some (2, 0, 0, 0)
  ∧ currentRun w' = currentRun w.
Proof.
  intros tr w w'.
  assert (db_inv true (store w)) as Hinv.
  { exact (proj1 (db_inv_reachable [draft1] tr eq_refl)). }
  destruct (createBatch_queues_one_message_per_member 1 9 "team" two_members
              (env_at (21 * Second) true None) w true eq_refl Hinv)
    as (_ & _ & Hc & _ & _ & Hnew).
  destruct (Hnew draft1 eq_refl ltac:(done)) as (_ & E2 & _ & _ & _ & E6).
  split; [exact Hinv|]. subst w'.
  change (batch_runs_seq (store w) + 1) with 2 in E2, E6.
  split; [by rewrite E2|]. split; [exact E6|exact Hc].
Defined.




